(** * TAL Drum preset generator: a shallow embedding and its properties

    The development follows the files of the repository: [common.py]
    (mapping table, folder scan, ordering rule, validation engine),
    [generate.py] (velocity layers, pad layers, assignment engine, preset
    of a kit) and [create_listing.py] (the listing of accepted kits).

    Layout: Python base types first ([PyStr], [PyDict]), then the embedded
    functions ([Common], [Scanning], [Listing], [Generate], [Preset]), then
    the statements proved about them. *)

From Stdlib Require Import ZArith Lia List Ascii String Permutation.
From Stdlib Require Import Sorting.Sorted.
From stdpp Require Import base option list gmap strings pretty.

Open Scope Z_scope.

(* ===================================================================== *)
(** * Python strings *)
(* ===================================================================== *)

Module PyStr.

(** A Python [str] is the list of its code points.  The model covers the
    code points 0..255 (type [ascii]); the character classes below are the
    interpreter's on that range. *)
Abbreviation pystr := (list ascii).

(** String literals of the source. *)
Definition lit (s : string) : pystr := list_ascii_of_string s.

Definition code (c : ascii) : Z := Z.of_N (N_of_ascii c).

(** [str.isspace] on one character, also the class [\s] of [re] and what
    [str.strip()] removes: TAB..CR, FS..US, SPACE, NEL, NBSP. *)
Definition is_space (c : ascii) : bool :=
  let n := code c in
  ((9 <=? n) && (n <=? 13)) || ((28 <=? n) && (n <=? 32))
  || (n =? 133) || (n =? 160).

(** The class [\d] of [re] (decimal digits; on this range, 0-9). *)
Definition is_digit (c : ascii) : bool :=
  let n := code c in (48 <=? n) && (n <=? 57).

Definition digit_val (c : ascii) : Z := code c - 48.

Fixpoint lstrip (s : pystr) : pystr :=
  match s with
  | c :: r => if is_space c then lstrip r else s
  | [] => []
  end.

Definition rstrip (s : pystr) : pystr := rev (lstrip (rev s)).

(** [s.strip()] *)
Definition strip (s : pystr) : pystr := rstrip (lstrip s).

(** [str.lower] on one character: A-Z, and the Latin-1 capitals
    U+00C0..U+00DE except the multiplication sign U+00D7. *)
Definition lower_char (c : ascii) : ascii :=
  let n := code c in
  if ((65 <=? n) && (n <=? 90))
     || ((192 <=? n) && (n <=? 222) && negb (n =? 215))
  then ascii_of_N (Z.to_N (n + 32)) else c.

(** [s.lower()] *)
Definition lower (s : pystr) : pystr := map lower_char s.

(** [c in s] for a one-character [c]. *)
Definition contains (c : ascii) (s : pystr) : bool :=
  existsb (Ascii.eqb c) s.

(** [s.startswith(p)] *)
Fixpoint startswith (p s : pystr) : bool :=
  match p, s with
  | [], _ => true
  | a :: p', b :: s' => Ascii.eqb a b && startswith p' s'
  | _ :: _, [] => false
  end.

(** [s.split(c)] for a one-character separator: never empty, keeps empty
    fields. *)
Fixpoint split (c : ascii) (s : pystr) : list pystr :=
  match s with
  | [] => [[]]
  | x :: r =>
      if Ascii.eqb x c then [] :: split c r
      else match split c r with
           | f :: fs => (x :: f) :: fs
           | [] => [[x]]
           end
  end.

(** [s.split(c, 1)]: at most one cut, at the first [c]. *)
Fixpoint split1 (c : ascii) (s : pystr) : list pystr :=
  match s with
  | [] => [[]]
  | x :: r =>
      if Ascii.eqb x c then [[]; r]
      else match split1 c r with
           | f :: fs => (x :: f) :: fs
           | [] => [[x]]
           end
  end.

(** [s.replace(a, b)] for one-character [a] and [b]. *)
Definition replace_char (a b : ascii) (s : pystr) : pystr :=
  map (fun x => if Ascii.eqb x a then b else x) s.

(** The digits of an integer literal after the sign: decimal digits, with
    single underscores allowed between two digits. *)
Fixpoint int_digits (acc : Z) (after_digit : bool) (s : pystr) : option Z :=
  match s with
  | [] => if after_digit then Some acc else None
  | c :: r =>
      if is_digit c then int_digits (acc * 10 + digit_val c) true r
      else if Ascii.eqb c "_" && after_digit then
        match r with
        | [] => None
        | _ => int_digits acc false r
        end
      else None
  end.

(** [int(s)]: surrounding whitespace is ignored, one sign is allowed;
    [None] stands for [ValueError].  The interpreter's optional limit on
    the number of digits is not modelled. *)
Definition py_int (s : pystr) : option Z :=
  match strip s with
  | c :: r =>
      if Ascii.eqb c "-" then Z.opp <$> int_digits 0 false r
      else if Ascii.eqb c "+" then int_digits 0 false r
      else int_digits 0 false (c :: r)
  | [] => None
  end.

(** [str(n)] for an integer. *)
Definition str_of_Z (n : Z) : pystr := lit (pretty n).

(** [a <= b] on strings: lexicographic on code points. *)
Fixpoint str_leb (a b : pystr) : bool :=
  match a, b with
  | [], _ => true
  | _ :: _, [] => false
  | x :: a', y :: b' =>
      if code x <? code y then true
      else if code x =? code y then str_leb a' b'
      else false
  end.

(** [range(n)] *)
Definition range (n : Z) : list Z := map Z.of_nat (seq 0 (Z.to_nat n)).

(** [range(a, b)] *)
Definition range2 (a b : Z) : list Z :=
  map (fun k => a + Z.of_nat k) (seq 0 (Z.to_nat (b - a))).

(** [l[i:j]] for [0 <= i <= j]. *)
Definition slice {A} (l : list A) (i j : nat) : list A :=
  take (j - i) (drop i l).

(** [len(l)] as a Python integer. *)
Definition len {A} (l : list A) : Z := Z.of_nat (length l).

End PyStr.
Import PyStr.

(* ===================================================================== *)
(** * Python dictionaries and library functions *)
(* ===================================================================== *)

Module PyDict.

(** A Python [dict] is the list of its items in insertion order.  Such a
    list holds each key once ([dict_wf]); [dict_set] keeps it so. *)
Section Dict.
Context {K V : Type} `{EqDecision K}.

(** [d.get(k)] *)
Fixpoint dict_get (k : K) (d : list (K * V)) : option V :=
  match d with
  | [] => None
  | (k', v) :: r => if decide (k' = k) then Some v else dict_get k r
  end.

(** [d[k] = v]: a known key keeps its place, a new one goes last. *)
Fixpoint dict_set (k : K) (v : V) (d : list (K * V)) : list (K * V) :=
  match d with
  | [] => [(k, v)]
  | (k', v') :: r =>
      if decide (k' = k) then (k', v) :: r else (k', v') :: dict_set k v r
  end.

(** [k in d] *)
Definition dict_mem (k : K) (d : list (K * V)) : bool :=
  bool_decide (is_Some (dict_get k d)).

Definition dict_keys (d : list (K * V)) : list K := map fst d.
Definition dict_values (d : list (K * V)) : list V := map snd d.

Definition dict_wf (d : list (K * V)) : Prop := NoDup (dict_keys d).

End Dict.

(** [sorted(l, key=f)], with [ltb] the order [<] of the keys.  The sort is
    stable, which fixes its result; it is written as a straight insertion
    from the right, where an element stops in front of the first one whose
    key is not below its own. *)
Section Sorted.
Context {A K : Type} (ltb : K -> K -> bool) (key : A -> K).

Fixpoint sorted_insert (x : A) (l : list A) : list A :=
  match l with
  | [] => [x]
  | y :: r => if ltb (key y) (key x) then y :: sorted_insert x r else x :: y :: r
  end.

Definition py_sorted (l : list A) : list A := foldr sorted_insert [] l.

End Sorted.

(** The functions of [pathlib] and [os.path] the program calls; they
    depend on the platform and on the working directory. *)
Class PathLib := {
  (** [Path(p).stem] *)
  path_stem : pystr -> pystr;
  (** [os.path.abspath(p)] *)
  os_abspath : pystr -> pystr;
  (** [os.path.relpath(p, start)]; [None] stands for [ValueError] *)
  os_relpath : pystr -> pystr -> option pystr;
}.

End PyDict.
Import PyDict.

(* ===================================================================== *)
(** * common.py *)
(* ===================================================================== *)

Module Common.

Definition LAYER_LIMIT_PER_PAD : Z := 8.

Record MappingEntry := {
  canonical : pystr;
  synonyms : list pystr;
  midi_notes : option (list Z);
}.

(** A mapping table: canonical name to entry. *)
Abbreviation Mapping := (list (pystr * MappingEntry)).

(** The elements of a kit: category to file paths. *)
Abbreviation Elements := (list (pystr * list pystr)).

(** [[x.strip() for x in s.split(c) if x.strip()]] *)
Definition stripped_fields (c : ascii) (s : pystr) : list pystr :=
  map strip (filter (fun x => strip x <> []) (split c s)).

(** The notes of a line that has a right side: [[]] when it is empty, else
    [[int(x.strip()) for x in right.split(",") if x.strip()]]. *)
Definition parse_line_notes (right_ : pystr) : option (list Z) :=
  if bool_decide (right_ = []) then Some []
  else mapM py_int (stripped_fields "," right_).

(** The body of the loop of [parse_mapping_file], for one raw line;
    [None] stands for an exception ([ValueError] of [int], [IndexError]
    of [synonyms[0]]). *)
Definition parse_mapping_line (mapping : Mapping) (raw : pystr) : option Mapping :=
  let line := strip raw in
  if bool_decide (line = []) || startswith (lit "#") line then Some mapping
  else
    '(left_, right_) ←
      (if contains ":" line then
         match split1 ":" line with
         | [l; r] => Some (lower (strip l), Some (strip r))
         | _ => None
         end
       else Some (lower (strip line), None));
    let synonyms := stripped_fields "/" left_ in
    canonical ← head synonyms;
    midi_notes ←
      match right_ with
      | None => Some None
      | Some r => Some <$> parse_line_notes r
      end;
    Some (dict_set canonical
            {| canonical := canonical; synonyms := synonyms;
               midi_notes := midi_notes |} mapping).

(** [parse_mapping_file], on the lines of the file. *)
Definition parse_mapping_file (lines : list pystr) : option Mapping :=
  foldl (fun acc raw => acc ≫= fun m => parse_mapping_line m raw) (Some []) lines.

(** The value of a non-empty run of decimal digits. *)
Definition decimal_value (ds : pystr) : Z :=
  fold_left (fun acc c => acc * 10 + digit_val c) ds 0.

(** The longest prefix of characters in a class, and the rest. *)
Fixpoint span (p : ascii -> bool) (s : pystr) : pystr * pystr :=
  match s with
  | c :: r => if p c then let '(a, b) := span p r in (c :: a, b) else ([], s)
  | [] => ([], [])
  end.

(** [extract_trailing_index]: [re.search(r"\s(\d+)$", stem)].  [$] is the
    end of the string, or the place in front of a newline that ends it; so
    the match is the run of digits that ends there, when a whitespace
    character stands in front of it.  The string is read from its end. *)
Definition extract_trailing_index (stem : pystr) : option Z :=
  let r := rev stem in
  let r := match r with
           | c :: r' => if Ascii.eqb c "010" then r' else r
           | [] => r
           end in
  let '(ds, rest) := span is_digit r in
  match ds, rest with
  | _ :: _, c :: _ => if is_space c then Some (decimal_value (rev ds)) else None
  | _, _ => None
  end.

(** The sort key of [sort_samples_by_trailing_number]:
    [(0, idx)] or [(1, stem.lower())]. *)
Inductive SortKey :=
  | KeyIndex (idx : Z)
  | KeyName (name : pystr).

#[global] Instance SortKey_eq_dec : EqDecision SortKey.
Proof. solve_decision. Defined.

(** [<] on these tuples. *)
Definition key_ltb (a b : SortKey) : bool :=
  match a, b with
  | KeyIndex i, KeyIndex j => i <? j
  | KeyIndex _, KeyName _ => true
  | KeyName _, KeyIndex _ => false
  | KeyName s, KeyName t => negb (str_leb t s)
  end.

Definition sort_key `{PathLib} (p : pystr) : SortKey :=
  let stem := path_stem p in
  match extract_trailing_index stem with
  | Some idx => KeyIndex idx
  | None => KeyName (lower stem)
  end.

Definition sort_samples_by_trailing_number `{PathLib} (paths : list pystr)
  : list pystr :=
  py_sorted key_ltb sort_key paths.

Record KitStats := {
  total : Z;
  only_other : bool;
  mixed_other : bool;
}.

Definition sum_list (l : list Z) : Z := fold_left Z.add l 0.

Definition kit_stats (elements : Elements) : KitStats :=
  {| total := sum_list (map len (dict_values elements));
     only_other := dict_mem (lit "other") elements && (len elements =? 1);
     mixed_other := dict_mem (lit "other") elements && (len elements >? 1) |}.

(** One part of a note specification: [a-b] or a single note. *)
Definition parse_note_part (part : pystr) : option (list Z) :=
  if contains "-" part then
    match split1 "-" part with
    | [start; end_] =>
        a ← py_int start; b ← py_int end_; Some (range2 a (b + 1))
    | _ => None
    end
  else n ← py_int part; Some [n].

(** [parse_midi_note_list]; [None] stands for [ValueError]. *)
Definition parse_midi_note_list (spec : pystr) : option (list Z) :=
  let parts := stripped_fields "," spec in
  notes ← foldl (fun acc part =>
                   s ← acc; ns ← parse_note_part part;
                   Some (s ∪ list_to_set ns))
                (Some (∅ : gset Z)) parts;
  Some (py_sorted Z.ltb id (elements notes)).

Definition category_capacity (mapping : Mapping) (category : pystr) : option Z :=
  match dict_get category mapping with
  | None => None
  | Some entry =>
      match midi_notes entry with
      | None => None
      | Some notes => Some (len notes * LAYER_LIMIT_PER_PAD)
      end
  end.

(** An entry of [details["overflow"]]. *)
Record OverflowInfo := {
  ov_category : pystr;
  ov_count : Z;
  ov_capacity : Z;
}.

(** The [details] dictionary: a field is [None] while its key is absent. *)
Record Details := {
  trash_needed : option Z;
  trash_capacity : option Z;
  overflow : option (list OverflowInfo);
  other_count : option Z;
}.

Definition no_details : Details :=
  {| trash_needed := None; trash_capacity := None;
     overflow := None; other_count := None |}.

(** An item of [rejected]. *)
Record Rejection := {
  rej_reason : pystr;
  rej_details : Details;
  rej_elements : Elements;
}.

(** The settings of [filter_kits]; [mapping] and [trash_notes] default to
    [None]. *)
Record FilterConfig := {
  min_total_samples : Z;
  exclude_only_other : bool;
  exclude_mixed_other : bool;
  mapping : option Mapping;
  overflow_policy : pystr;
  trash_notes : option (list Z);
}.

(** The threshold tests of [filter_kits] (the first [if]/[elif] chain). *)
Definition threshold_reason (cfg : FilterConfig) (stats : KitStats) : option pystr :=
  if total stats <? min_total_samples cfg then Some (lit "too_few_samples")
  else if exclude_only_other cfg && only_other stats then Some (lit "only_other")
  else if exclude_mixed_other cfg && mixed_other stats then Some (lit "mixed_other")
  else None.

(** The overflow entries of a kit ([overflow_info]). *)
Definition overflow_entries (cfg : FilterConfig) (elems : Elements)
  : list OverflowInfo :=
  match mapping cfg with
  | Some ((_ :: _) as m) =>
      flat_map (fun '(cat, files) =>
        if bool_decide (cat = lit "other") then []
        else match category_capacity m cat with
             | Some cap =>
                 if len files >? cap
                 then [{| ov_category := cat; ov_count := len files;
                          ov_capacity := cap |}]
                 else []
             | None => []
             end) elems
  | _ => []
  end.

(** [len(elements.get("other", []))] *)
Definition count_other (elems : Elements) : Z :=
  len (default [] (dict_get (lit "other") elems)).

(** [total_trash_needed], from [overflow_info] and [other_count]. *)
Definition total_trash_needed (overflow_info : list OverflowInfo)
    (other_count : Z) : Z :=
  fold_left (fun acc info => acc + (ov_count info - ov_capacity info))
            overflow_info 0
  + other_count.

(** [len(trash_notes) * LAYER_LIMIT_PER_PAD if trash_notes else 0] *)
Definition trash_zone_capacity (cfg : FilterConfig) : Z :=
  match trash_notes cfg with
  | Some ((_ :: _) as t) => len t * LAYER_LIMIT_PER_PAD
  | _ => 0
  end.

(** The body of the loop of [filter_kits] up to the test of [reason]:
    the reason and the details reached for one kit. *)
Definition kit_verdict (cfg : FilterConfig) (elems : Elements)
  : option pystr * Details :=
  let stats := kit_stats elems in
  let reason := threshold_reason cfg stats in
  let details := no_details in
  let overflow_info := overflow_entries cfg elems in
  let other_count := count_other elems in
  if negb (bool_decide (overflow_info = [])) || negb (other_count =? 0) then
    let needed := total_trash_needed overflow_info other_count in
    let '(reason, details) :=
      if bool_decide (overflow_policy cfg = lit "reject") then
        (Some (lit "overflow_or_other"), details)
      else if bool_decide (overflow_policy cfg = lit "trash") then
        let capacity := trash_zone_capacity cfg in
        if needed >? capacity then
          (Some (lit "trash_zone_insufficient"),
           {| trash_needed := Some needed;
              trash_capacity := Some capacity;
              overflow := overflow details;
              other_count := Common.other_count details |})
        else (reason, details)
      else (reason, details) in
    (reason,
     {| trash_needed := trash_needed details;
        trash_capacity := trash_capacity details;
        overflow := Some overflow_info;
        other_count := Some other_count |})
  else (reason, details).

(** [if reason:] *)
Definition truthy (reason : option pystr) : bool :=
  match reason with
  | Some (_ :: _) => true
  | _ => false
  end.

(** [{cat: sort_samples_by_trailing_number(files) for cat, files in
    elements.items()}] *)
Definition sorted_elements `{PathLib} (elems : Elements) : Elements :=
  foldl (fun acc '(cat, files) =>
           dict_set cat (sort_samples_by_trailing_number files) acc) [] elems.

(** The end of the body of the loop of [filter_kits]: the kit goes to
    [rejected] or, its lists sorted, to [valid]. *)
Definition filter_step `{PathLib} (cfg : FilterConfig)
    (acc : list (pystr * Elements) * list (pystr * Rejection))
    (item : pystr * Elements)
  : list (pystr * Elements) * list (pystr * Rejection) :=
  let '(valid, rejected) := acc in
  let '(kit_name, elems) := item in
  let '(reason, details) := kit_verdict cfg elems in
  if truthy reason then
    (valid,
     dict_set kit_name
       {| rej_reason := default [] reason; rej_details := details;
          rej_elements := elems |} rejected)
  else (dict_set kit_name (sorted_elements elems) valid, rejected).

(** [filter_kits]: the pair [(valid, rejected)]. *)
Definition filter_kits `{PathLib} (kits : list (pystr * Elements))
    (cfg : FilterConfig)
  : list (pystr * Elements) * list (pystr * Rejection) :=
  foldl (filter_step cfg) ([], []) kits.

End Common.
Import Common.


(* ===================================================================== *)
(** * common.py: detection and scan *)
(* ===================================================================== *)

Module Scanning.

(** The functions of [pathlib] and [os.path] used by the scan and by the
    two command lines. *)
Class OsPath := {
  (** [Path(p).suffix] *)
  path_suffix : pystr -> pystr;
  (** [os.path.join(a, b)] *)
  os_join : pystr -> pystr -> pystr;
  (** [os.path.dirname(p)] *)
  os_dirname : pystr -> pystr;
}.

Definition AUDIO_EXTS : list pystr :=
  [lit ".wav"; lit ".aif"; lit ".aiff"; lit ".flac"].

(** A nomenclature: canonical name to synonyms. *)
Abbreviation Nomenclature := (list (pystr * list pystr)).

(** [{k: v.synonyms for k, v in mapping.items()}] *)
Definition mapping_to_nomenclature (mapping : Mapping) : Nomenclature :=
  foldl (fun acc '(k, v) => dict_set k (synonyms v) acc) [] mapping.

(** The class [\w] of [re] on a [str] pattern: the characters for which
    [str.isalnum] holds, and the underscore.  On the code points 0..255
    these are the ASCII letters and digits, the ordinal indicators, the
    micro sign, the superscript digits, the vulgar fractions and the
    Latin-1 letters. *)
Definition is_word (c : ascii) : bool :=
  let n := code c in
  ((48 <=? n) && (n <=? 57)) || ((65 <=? n) && (n <=? 90)) || (n =? 95)
  || ((97 <=? n) && (n <=? 122))
  || (n =? 170) || (n =? 178) || (n =? 179) || (n =? 181) || (n =? 185)
  || (n =? 186) || ((188 <=? n) && (n <=? 190))
  || ((192 <=? n) && (n <=? 214)) || ((216 <=? n) && (n <=? 246))
  || (248 <=? n).

(** [\b] between two neighbours, [None] standing for an end of the
    string: exactly one of them is a word character. *)
Definition at_boundary (prev next : option ascii) : bool :=
  xorb (from_option is_word false prev) (from_option is_word false next).

(** The literal [word] at the head of [s]: what follows it. *)
Fixpoint match_literal (word s : pystr) : option pystr :=
  match word, s with
  | [], _ => Some s
  | a :: word', b :: s' => if Ascii.eqb a b then match_literal word' s' else None
  | _ :: _, [] => None
  end.

(** [re.search(rf"\b{re.escape(word)}\b", name)], as a truth value, read
    from the position whose left neighbour is [prev]. *)
Fixpoint search_word (word : pystr) (prev : option ascii) (s : pystr) : bool :=
  (at_boundary prev (head s)
   && match match_literal word s with
      | Some rest =>
          at_boundary (match last word with Some c => Some c | None => prev end)
                      (head rest)
      | None => false
      end)
  || match s with
     | c :: r => search_word word (Some c) r
     | [] => false
     end.

Fixpoint detect_category_loop (name : pystr) (nomenclature : Nomenclature) : pystr :=
  match nomenclature with
  | [] => lit "other"
  | (canonical, synonyms) :: rest =>
      if existsb (fun word => search_word word None name) synonyms
      then canonical
      else detect_category_loop name rest
  end.

Definition detect_category (filename : pystr) (nomenclature : Nomenclature) : pystr :=
  detect_category_loop (lower filename) nomenclature.

(** The literal [p] at the head of [s] under [re.IGNORECASE]: two
    characters of the range match when their lower cases are equal. *)
Fixpoint match_literal_ignorecase (p s : pystr) : option pystr :=
  match p, s with
  | [], _ => Some s
  | a :: p', b :: s' =>
      if Ascii.eqb (lower_char a) (lower_char b)
      then match_literal_ignorecase p' s' else None
  | _ :: _, [] => None
  end.

(** [re.sub(rf"^{re.escape(category)}\s*", "", stem, flags=re.IGNORECASE)] *)
Definition strip_category (category stem : pystr) : pystr :=
  match match_literal_ignorecase category stem with
  | Some rest => lstrip rest
  | None => stem
  end.

(** [re.sub(r"\s*\d+$", "", stem)]: the run of digits that ends the
    string, or that stands in front of a newline that ends it, goes with
    the whitespace in front of it.  The string is read from its end. *)
Definition strip_trailing_number (stem : pystr) : pystr :=
  let r := rev stem in
  let '(newline, body) :=
    match r with
    | c :: r' => if Ascii.eqb c "010" then ([c], r') else ([], r)
    | [] => ([], r)
    end in
  let '(ds, rest) := span is_digit body in
  match ds with
  | [] => stem
  | _ => rev (span is_space rest).2 ++ newline
  end.

Definition extract_kit_name `{PathLib} (filename category : pystr) : pystr :=
  let stem := path_stem filename in
  let stem := strip_category category stem in
  let stem := strip_trailing_number stem in
  match strip stem with
  | [] => lit "UNKNOWN"
  | name => name
  end.

(** [kits[kit_name][category].append(path)] on the two levels of
    [defaultdict]. *)
Definition add_sample (kits : list (pystr * Elements))
    (kit_name category path : pystr) : list (pystr * Elements) :=
  let elements := default [] (dict_get kit_name kits) in
  let files := default [] (dict_get category elements) in
  dict_set kit_name (dict_set category (files ++ [path]) elements) kits.

(** The body of the inner loop of [scan_samples]. *)
Definition scan_file `{PathLib} `{OsPath} (nomenclature : Nomenclature)
    (root : pystr) (kits : list (pystr * Elements)) (file : pystr)
  : list (pystr * Elements) :=
  if bool_decide (lower (path_suffix file) ∈ AUDIO_EXTS) then
    let category := detect_category file nomenclature in
    let kit_name := extract_kit_name file category in
    add_sample kits kit_name category (os_join root file)
  else kits.

(** [scan_samples], on what [os.walk(root_folder)] yields: the
    directories in turn, each with the names of its files. *)
Definition scan_samples `{PathLib} `{OsPath} (walk : list (pystr * list pystr))
    (nomenclature : Nomenclature) : list (pystr * Elements) :=
  foldl (fun kits '(root, files) => foldl (scan_file nomenclature root) kits files)
        [] walk.

End Scanning.
Import Scanning.

(* ===================================================================== *)
(** * create_listing.py *)
(* ===================================================================== *)

Module Listing.

(** The values [to_jsonable] walks: dictionaries, lists and leaves. *)
#[warnings="-register-all"]
Inductive PyVal :=
  | PStr (s : pystr)
  | PInt (n : Z)
  | PBool (b : bool)
  | PNone
  | PList (l : list PyVal)
  | PDict (d : list (pystr * PyVal)).

Fixpoint to_jsonable (obj : PyVal) : PyVal :=
  match obj with
  | PDict d =>
      PDict (foldl (fun acc kv => dict_set kv.1 kv.2 acc) []
                   (map (fun kv => (kv.1, to_jsonable kv.2)) d))
  | PList l => PList (map to_jsonable l)
  | _ => obj
  end.

(** The options of the command line. *)
Record ListingArgs := {
  args_min_total : Z;
  args_exclude_only_other : bool;
  args_exclude_mixed_other : bool;
  args_overflow_policy : pystr;
  args_trash_notes : option pystr;
}.

(** The trash notes [main] hands to [filter_kits]; [None] stands for the
    [ValueError] of [parse_midi_note_list]. *)
Definition listing_trash_notes (args : ListingArgs) : option (list Z) :=
  if bool_decide (args_overflow_policy args = lit "trash") then
    match args_trash_notes args with
    | Some ((_ :: _) as spec) => parse_midi_note_list spec
    | _ => Some (range2 82 128)
    end
  else Some [].

(** [main] up to the call of [filter_kits]: the lines of the mapping file
    and the walk of the samples folder give [(valid, rejected)]. *)
Definition create_listing `{PathLib} `{OsPath} (mapping_lines : list pystr)
    (walk : list (pystr * list pystr)) (args : ListingArgs)
  : option (list (pystr * Elements) * list (pystr * Rejection)) :=
  mapping ← parse_mapping_file mapping_lines;
  let nomenclature := mapping_to_nomenclature mapping in
  let kits := scan_samples walk nomenclature in
  trash_notes ← listing_trash_notes args;
  Some (filter_kits kits
          {| min_total_samples := args_min_total args;
             exclude_only_other := args_exclude_only_other args;
             exclude_mixed_other := args_exclude_mixed_other args;
             mapping := Some mapping;
             overflow_policy := args_overflow_policy args;
             trash_notes := Some trash_notes |}).

End Listing.
Import Listing.
(* ===================================================================== *)
(** * generate.py *)
(* ===================================================================== *)

Module Generate.

Definition TALDRUM_VERSION : pystr := lit "13".

(** The characters of the class of the first substitution of
    [sanitize_filename]: backslash, slash, colon, star, question mark,
    double quote (code 34), angle brackets and bar. *)
Definition is_forbidden (c : ascii) : bool :=
  existsb (Ascii.eqb c) ["\"; "/"; ":"; "*"; "?"; "034"; "<"; ">"; "|"]%char.

(** [re.sub(r"[class]+", repl, s)]: every maximal run of characters of the
    class is replaced by [repl]; [in_run] tells that the character in front
    belongs to a run already replaced. *)
Fixpoint sub_runs (p : ascii -> bool) (repl : pystr) (in_run : bool) (s : pystr)
  : pystr :=
  match s with
  | [] => []
  | c :: r =>
      if p c then (if in_run then [] else repl) ++ sub_runs p repl true r
      else c :: sub_runs p repl false r
  end.

Definition sanitize_filename (name : pystr) : pystr :=
  let name := strip name in
  let name := sub_runs is_forbidden (lit "_") false name in
  let name := strip (sub_runs is_space (lit " ") false name) in
  match name with
  | [] => lit "UNTITLED"
  | _ => name
  end.

(** [float_str]: [f"{float(n):.1f}"], for the integers a float holds
    exactly (below 2^53). *)
Definition float_str (n : Z) : pystr := str_of_Z n ++ lit ".0".

(** First loop of [velocity_ranges]: band [i] of [n_layers].
    [math.floor(a / b)] is the integer quotient: for the operands met here
    (below 2^53) the float quotient is exact when [b] divides [a] and
    otherwise keeps its distance of at least [1/b] from the next integer. *)
Definition raw_band (n_layers i : Z) : Z * Z :=
  let start := i * 127 / n_layers + 1 in
  let end_ := (i + 1) * 127 / n_layers in
  let end_ := if i =? n_layers - 1 then 127 else end_ in
  (start, end_).

(** One turn of the second loop ("Ensure contiguous") at index [i]. *)
Definition contiguous_step (ranges : list (Z * Z)) (i : nat) : list (Z * Z) :=
  match ranges !! (i - 1)%nat, ranges !! i with
  | Some (_, prev_end), Some (cur_start, cur_end) =>
      if negb (cur_start =? prev_end + 1)
      then <[i := (prev_end + 1, cur_end)]> ranges
      else ranges
  | _, _ => ranges
  end.

Definition velocity_ranges (n_layers : Z) : list (Z * Z) :=
  if n_layers <=? 0 then []
  else
    let ranges := map (raw_band n_layers) (range n_layers) in
    foldl contiguous_step ranges (seq 1 (length ranges - 1)).

(** [wav_to_pathrelative]; [None] stands for [ValueError]. *)
Definition wav_to_pathrelative `{PathLib} (wav_path global_base : pystr)
  : option pystr :=
  let wav_abs := os_abspath wav_path in
  let base_abs := os_abspath global_base in
  rel ← os_relpath wav_abs base_abs;
  if startswith (lit "..") rel then None
  else Some (replace_char "\" "/" rel).

Definition wav_to_path_foldback `{PathLib} (wav_path preset_dir : pystr)
  : option pystr :=
  let wav_abs := os_abspath wav_path in
  let preset_dir_abs := os_abspath preset_dir in
  rel ← os_relpath wav_abs preset_dir_abs;
  Some (replace_char "\" "/" rel).

(** The attributes of an XML element, in the order they were set. *)
Abbreviation Attrib := (list (pystr * pystr)).

(** A [pad] element: its attributes, and the attributes of the [mapping]
    children of its [mappings] child. *)
Record Pad := {
  pad_attrib : Attrib;
  pad_mappings : list Attrib;
}.

Definition empty_mapping : Attrib :=
  [(lit "path", []); (lit "pathrelative", [])].

Definition make_pad (pad_index midi_note : Z) : Pad :=
  {| pad_attrib :=
       [(lit "version", TALDRUM_VERSION);
        (lit "activemappings", lit "0");
        (lit "colour", lit "0");
        (lit "name", lit "Pad " ++ str_of_Z (pad_index + 1));
        (lit "midikey", float_str midi_note)];
     pad_mappings := replicate (Z.to_nat LAYER_LIMIT_PER_PAD) empty_mapping |}.

(** The velocity attributes of layer [i] of [n] (the [if]/[elif] chain at
    the end of the body of the loop of [set_pad_layers]). *)
Definition set_velocity (n i : Z) (vstart vend : Z) (m : Attrib) : Attrib :=
  if n =? 1 then m
  else if i =? 0 then dict_set (lit "velocityend") (float_str vend) m
  else if i =? n - 1 then dict_set (lit "velocitystart") (float_str vstart) m
  else dict_set (lit "velocityend") (float_str vend)
         (dict_set (lit "velocitystart") (float_str vstart) m).

(** The body of the second loop of [set_pad_layers], at index [i];
    [None] stands for an exception ([IndexError], [ValueError]). *)
Definition set_layer `{PathLib} (wav_paths : list pystr) (preset_dir global_base : pystr)
    (n : Z) (ranges : list (Z * Z)) (mappings : list Attrib) (i : nat)
  : option (list Attrib) :=
  wav ← wav_paths !! i;
  m ← mappings !! i;
  rel ← wav_to_pathrelative wav global_base;
  let m := dict_set (lit "pathrelative") rel m in
  fold ← wav_to_path_foldback wav preset_dir;
  let m := dict_set (lit "path") fold m in
  '(vstart, vend) ← ranges !! i;
  Some (<[i := set_velocity n (Z.of_nat i) vstart vend m]> mappings).

Definition set_pad_layers `{PathLib} (pad_el : Pad) (wav_paths : list pystr)
    (preset_dir global_base : pystr) : option Pad :=
  let mappings := pad_mappings pad_el in
  let n := Z.min (len wav_paths) LAYER_LIMIT_PER_PAD in
  let ranges := velocity_ranges n in
  let mappings := map (fun _ => empty_mapping) mappings in
  mappings ← foldl (fun acc i => acc ≫= fun ms =>
                      set_layer wav_paths preset_dir global_base n ranges ms i)
                   (Some mappings) (seq 0 (Z.to_nat n));
  Some {| pad_attrib := dict_set (lit "activemappings") (str_of_Z n) (pad_attrib pad_el);
          pad_mappings := mappings |}.

(** ** Assignment *)

(** The variables of [assign_samples_to_notes] its inner functions share. *)
Record AssignState := {
  note_to_samples : gmap Z (list pystr);
  trash_pool : list Z;
  warnings : list pystr;
}.

(** [note_to_samples.get(note, [])] *)
Definition samples_at (nts : gmap Z (list pystr)) (note : Z) : list pystr :=
  default [] (nts !! note).

(** [push]: [note_to_samples.setdefault(note, []).extend(samples)] *)
Definition push (note : Z) (samples : list pystr) (nts : gmap Z (list pystr))
  : gmap Z (list pystr) :=
  <[note := samples_at nts note ++ samples]> nts.

(** The [while] loop of [push_trash], from the values of [idx],
    [note_to_samples] and [trash_pool] at its head to their values at its
    exit.  [fuel] bounds the number of turns; [None] when it runs out. *)
Fixpoint push_trash_loop (fuel : nat) (samples : list pystr) (idx : nat)
    (nts : gmap Z (list pystr)) (pool : list Z)
  : option (nat * gmap Z (list pystr) * list Z) :=
  match pool with
  | note :: pool_tail =>
      if (idx <? length samples)%nat then
        match fuel with
        | O => None
        | S fuel' =>
            let cur := samples_at nts note in
            let space := LAYER_LIMIT_PER_PAD - len cur in
            if space <=? 0 then
              push_trash_loop fuel' samples idx nts pool_tail
            else
              let take := slice samples idx (idx + Z.to_nat space) in
              let nts := push note take nts in
              let idx := (idx + length take)%nat in
              if len (samples_at nts note) >=? LAYER_LIMIT_PER_PAD
              then push_trash_loop fuel' samples idx nts pool_tail
              else push_trash_loop fuel' samples idx nts pool
        end
      else Some (idx, nts, pool)
  | [] => Some (idx, nts, pool)
  end.

(** Turns that always suffice: a turn shortens the pool or places a file. *)
Definition push_trash_fuel (samples : list pystr) (pool : list Z) : nat :=
  S (length samples + length pool).

Definition dropped_warning (n : Z) : pystr :=
  lit "Dropped " ++ str_of_Z n ++ lit " samples (trash full)".

Definition push_trash (samples : list pystr) (st : AssignState)
  : option AssignState :=
  '(idx, nts, pool) ←
    push_trash_loop (push_trash_fuel samples (trash_pool st)) samples 0
                    (note_to_samples st) (trash_pool st);
  Some {| note_to_samples := nts;
          trash_pool := pool;
          warnings :=
            if (idx <? length samples)%nat
            then warnings st ++ [dropped_warning (len samples - Z.of_nat idx)]
            else warnings st |}.

(** The loop over the notes of a category: the notes filled and the index
    reached. *)
Fixpoint fill_notes (notes : list Z) (files : list pystr) (idx : nat)
    (nts : gmap Z (list pystr)) : gmap Z (list pystr) * nat :=
  match notes with
  | [] => (nts, idx)
  | note :: rest =>
      let chunk := slice files idx (idx + Z.to_nat LAYER_LIMIT_PER_PAD) in
      match chunk with
      | [] => (nts, idx)
      | _ => fill_notes rest files (idx + length chunk)%nat (push note chunk nts)
      end
  end.

Definition truncated_warning (category : pystr) (n : Z) : pystr :=
  lit "Overflow in " ++ category ++ lit ", truncated " ++ str_of_Z n.

(** [overflow_policy in ("trash", "ignore")] *)
Definition to_trash (overflow_policy : pystr) : bool :=
  bool_decide (overflow_policy = lit "trash")
  || bool_decide (overflow_policy = lit "ignore").

(** [mapped_notes] *)
Definition mapped_notes (mapping : Mapping) : gset Z :=
  foldl (fun acc entry =>
           match midi_notes entry with
           | Some ((_ :: _) as notes) => acc ∪ list_to_set notes
           | _ => acc
           end) ∅ (dict_values mapping).

(** The notes of a category: [entry.midi_notes if entry and
    entry.midi_notes else []]. *)
Definition category_notes (mapping : Mapping) (category : pystr) : list Z :=
  match dict_get category mapping with
  | Some entry => default [] (midi_notes entry)
  | None => []
  end.

(** The body of the loop over [kit_elements.items()]. *)
Definition assign_category (mapping : Mapping) (overflow_policy : pystr)
    (st : AssignState) (item : pystr * list pystr) : option AssignState :=
  let '(category, files) := item in
  if bool_decide (category = lit "other") then
    if to_trash overflow_policy then push_trash files st else Some st
  else
    let notes := category_notes mapping category in
    let '(nts, idx) := fill_notes notes files 0 (note_to_samples st) in
    let st := {| note_to_samples := nts; trash_pool := trash_pool st;
                 warnings := warnings st |} in
    let overflow := drop idx files in
    match overflow with
    | [] => Some st
    | _ =>
        if bool_decide (overflow_policy = lit "truncate") then
          Some {| note_to_samples := note_to_samples st;
                  trash_pool := trash_pool st;
                  warnings := warnings st
                              ++ [truncated_warning category (len overflow)] |}
        else if to_trash overflow_policy then push_trash overflow st
        else Some st
    end.

(** The state the loop of [assign_samples_to_notes] starts from. *)
Definition initial_state (mapping : Mapping) (trash_notes : list Z) : AssignState :=
  {| note_to_samples := ∅;
     trash_pool := filter (fun n => n ∉ mapped_notes mapping) trash_notes;
     warnings := [] |}.

(** The state after the loop. *)
Definition assign_loop (kit_elements : Elements) (mapping : Mapping)
    (overflow_policy : pystr) (trash_notes : list Z) : option AssignState :=
  foldl (fun acc item => acc ≫= fun st =>
           assign_category mapping overflow_policy st item)
        (Some (initial_state mapping trash_notes)) kit_elements.

Definition assign_samples_to_notes (kit_elements : Elements) (mapping : Mapping)
    (overflow_policy : pystr) (trash_notes : list Z)
  : option (gmap Z (list pystr) * list pystr) :=
  st ← assign_loop kit_elements mapping overflow_policy trash_notes;
  Some (note_to_samples st, warnings st).

End Generate.
Import Generate.


(* ===================================================================== *)
(** * generate.py: the preset *)
(* ===================================================================== *)

Module Preset.

Definition DEFAULT_VOLUME : pystr := lit "0.75".
Definition DEFAULT_PANELMODE : pystr := lit "0".
Definition DEFAULT_PAD_COUNT : Z := 64.
Definition DEFAULT_PAD_BASE_MIDI : Z := 36.

(** One turn of the loop of [random_pad_colour] on the three numbers it
    draws: [None] when the colour is near gray and the loop goes on, else
    the value of [argb] at the [return]. *)
Definition pad_colour (r g b : Z) : option Z :=
  if Z.max r (Z.max g b) - Z.min r (Z.min g b) <? 80 then None
  else
    let argb := Z.lor (Z.lor (Z.lor (Z.shiftl 255 24) (Z.shiftl r 16))
                             (Z.shiftl g 8)) b in
    Some (if argb >=? 2 ^ 31 then argb - 2 ^ 32 else argb).

(** [random_pad_colour], on the numbers [random.randint(0, 255)] returns
    in turn: the colour and the numbers left.  [None] when the numbers run
    out before a colour is kept. *)
Fixpoint random_pad_colour (draws : list Z) : option (pystr * list Z) :=
  match draws with
  | r :: g :: b :: rest =>
      match pad_colour r g b with
      | Some argb => Some (str_of_Z argb, rest)
      | None => random_pad_colour rest
      end
  | _ => None
  end.

(** The [taldrum] element: its attributes and the [pad] children of its
    [pads] child. *)
Record Root := {
  root_attrib : Attrib;
  root_pads : list Pad;
}.

Definition make_empty_taldrum_root (preset_path_abs kit_name : pystr) : Root :=
  {| root_attrib :=
       [(lit "version", TALDRUM_VERSION);
        (lit "path", replace_char "\" "/" preset_path_abs);
        (lit "name", kit_name);
        (lit "volume", DEFAULT_VOLUME);
        (lit "panelmode", DEFAULT_PANELMODE)];
     root_pads := [] |}.

(** [build_base_pads]: the root with its new pads, and [midi_to_pad].  A
    pad element is referred to by its place among the pads of the root. *)
Definition build_base_pads (root : Root) (base_midi pad_count : Z)
  : Root * list (Z * nat) :=
  foldl (fun '(root, midi_to_pad) i =>
           let note := base_midi + i in
           let pad_el := make_pad i note in
           ({| root_attrib := root_attrib root;
               root_pads := root_pads root ++ [pad_el] |},
            dict_set note (length (root_pads root)) midi_to_pad))
        (root, []) (range pad_count).

(** The body of the loop of [main] over [note_to_samples.items()], on the
    pads of the root and the numbers left to draw; [None] stands for an
    exception. *)
Definition render_note `{PathLib} (midi_to_pad : list (Z * nat))
    (preset_dir global_base : pystr) (st : list Pad * list Z)
    (item : Z * list pystr) : option (list Pad * list Z) :=
  let '(pads, draws) := st in
  let '(note, files) := item in
  match dict_get note midi_to_pad with
  | None => Some st
  | Some i =>
      pad_el ← pads !! i;
      pad_el ← set_pad_layers pad_el (take (Z.to_nat LAYER_LIMIT_PER_PAD) files)
                 preset_dir global_base;
      '(colour, draws) ← random_pad_colour draws;
      Some (<[i := {| pad_attrib := dict_set (lit "colour") colour (pad_attrib pad_el);
                      pad_mappings := pad_mappings pad_el |}]> pads,
            draws)
  end.

(** The loop, on the items in the order the dictionary yields them. *)
Definition render_notes `{PathLib} (midi_to_pad : list (Z * nat))
    (preset_dir global_base : pystr) (st : list Pad * list Z)
    (items : list (Z * list pystr)) : option (list Pad * list Z) :=
  foldl (fun acc item => acc ≫= fun st =>
           render_note midi_to_pad preset_dir global_base st item)
        (Some st) items.

(** The body of the loop of [main] over the kits of the listing, up to
    the root it hands to [pretty_xml]: the path of the preset file and
    the root.  [items] lists [note_to_samples] in the order of its
    dictionary. *)
Definition generate_kit `{PathLib} `{OsPath} (out_dir global_base : pystr)
    (base_midi pad_count : Z) (kit_name : pystr)
    (items : list (Z * list pystr)) (draws : list Z)
  : option (pystr * Root * list Z) :=
  let kit_safe := sanitize_filename kit_name in
  let preset_path := os_join out_dir (kit_safe ++ lit ".taldrum") in
  let preset_path_abs := os_abspath preset_path in
  let root := make_empty_taldrum_root preset_path_abs kit_safe in
  let '(root, midi_to_pad) := build_base_pads root base_midi pad_count in
  '(pads, draws) ← render_notes midi_to_pad (os_dirname preset_path_abs) global_base
                     (root_pads root, draws) items;
  Some (preset_path_abs,
        {| root_attrib := root_attrib root; root_pads := pads |}, draws).

End Preset.
Import Preset.
(* ===================================================================== *)
(** * A platform for the examples *)
(* ===================================================================== *)

Module Posix.

(** [PurePosixPath(p).name]: the last component, empty components and
    single dots left out. *)
Definition posix_name (p : pystr) : pystr :=
  default [] (last (filter (fun c => c <> [] /\ c <> lit ".") (split "/" p))).

(** [s.find(c)] counted from the end of [s]: how many characters follow
    the last [c]. *)
Fixpoint after_last (c : ascii) (r : pystr) : option nat :=
  match r with
  | [] => None
  | x :: r' => if Ascii.eqb x c then Some O else S <$> after_last c r'
  end.

(** [PurePosixPath(p).stem]: the name up to its last dot, when that dot is
    neither the first nor the last character of the name. *)
Definition posix_stem (p : pystr) : pystr :=
  let name := posix_name p in
  match after_last "." (rev name) with
  | Some k =>
      let i := (length name - 1 - k)%nat in
      if (0 <? i)%nat && (0 <? k)%nat then take i name else name
  | None => name
  end.

(** [os.path.relpath(p, start)] on absolute, normalised paths: exact when
    [p] lies at or below [start]; otherwise the result only shows that it
    climbs out of [start]. *)
Definition posix_relpath (p start : pystr) : option pystr :=
  if bool_decide (p = start) then Some (lit ".")
  else if startswith (start ++ lit "/") p
  then Some (drop (S (length start)) p)
  else Some (lit "..").

(** POSIX paths, for arguments that are absolute and normalised (where
    [os.path.abspath] changes nothing). *)
#[export] Instance posix_paths : PathLib :=
  {| path_stem := posix_stem;
     os_abspath := fun p => p;
     os_relpath := posix_relpath |}.

End Posix.


Module PosixOs.
Import Posix.

(** [PurePosixPath(p).suffix]: the name from its last dot on, when that
    dot is neither the first nor the last character of the name. *)
Definition posix_suffix (p : pystr) : pystr :=
  let name := posix_name p in
  match after_last "." (rev name) with
  | Some k =>
      let i := (length name - 1 - k)%nat in
      if (0 <? i)%nat && (0 <? k)%nat then drop i name else []
  | None => []
  end.

(** [posixpath.join(a, b)] *)
Definition posix_join (a b : pystr) : pystr :=
  if startswith (lit "/") b then b
  else match last a with
       | None => b
       | Some c => if Ascii.eqb c "/" then a ++ b else a ++ lit "/" ++ b
       end.

Fixpoint drop_slashes (r : pystr) : pystr :=
  match r with
  | c :: r' => if Ascii.eqb c "/" then drop_slashes r' else r
  | [] => []
  end.

(** [posixpath.dirname(p)]: up to the last slash, the slashes at its end
    taken off unless it is made of slashes. *)
Definition posix_dirname (p : pystr) : pystr :=
  match after_last "/" (rev p) with
  | None => []
  | Some k =>
      let head := take (length p - k) p in
      if forallb (Ascii.eqb "/") head then head
      else rev (drop_slashes (rev head))
  end.

#[export] Instance posix_os : OsPath :=
  {| path_suffix := posix_suffix;
     os_join := posix_join;
     os_dirname := posix_dirname |}.

End PosixOs.
(* ===================================================================== *)
(** * The scenarios of the specification *)
(* ===================================================================== *)

Module Scenarios.
Import Posix.

(** The mapping file with the one line [kick/bd:36]. *)
Definition demo_mapping_lines : list pystr := [lit "kick/bd:36"].

Definition demo_mapping : Mapping :=
  [(lit "kick",
    {| canonical := lit "kick"; synonyms := [lit "kick"; lit "bd"];
       midi_notes := Some [36] |})].

(** Two kick files on the pad of note 36; preset and samples below
    [/lib]. *)
Definition demo_pad_files : list pystr :=
  [lit "/lib/Demo/Kick 1.wav"; lit "/lib/Demo/Kick 2.wav"].

Definition demo_pad : option Pad :=
  set_pad_layers (H := posix_paths) (make_pad 0 36) demo_pad_files
                 (lit "/lib/out") (lit "/lib").

(** The kit [Demo], its two files listed the wrong way round. *)
Definition demo_kits : list (pystr * Elements) :=
  [(lit "Demo",
    [(lit "kick", [lit "/lib/Demo/Kick 2.wav"; lit "/lib/Demo/Kick 1.wav"])])].

(** [n] kick files, [Kick 1.wav] to [Kick n.wav]. *)
Definition kick_files (n : nat) : list pystr :=
  map (fun i => lit "/lib/Demo/Kick " ++ str_of_Z (Z.of_nat i) ++ lit ".wav")
      (seq 1 n).

(** One category of capacity 8 that receives 10 files. *)
Definition ten_kicks : Elements := [(lit "kick", kick_files 10)].

Definition config (policy : pystr) (min_total : Z) (trash : list Z) : FilterConfig :=
  {| min_total_samples := min_total;
     exclude_only_other := false;
     exclude_mixed_other := false;
     mapping := Some demo_mapping;
     overflow_policy := policy;
     trash_notes := Some trash |}.

(** A kit of one uncategorised file. *)
Definition stray_kit : Elements := [(lit "other", [lit "/lib/Stray/Noise.wav"])].

(** A mapping that reserves note 36 for two categories. *)
Definition shared_note_mapping : Mapping :=
  [(lit "kick",
    {| canonical := lit "kick"; synonyms := [lit "kick"];
       midi_notes := Some [36] |});
   (lit "snare",
    {| canonical := lit "snare"; synonyms := [lit "snare"];
       midi_notes := Some [36] |})].

Definition shared_note_kit : Elements :=
  [(lit "kick", kick_files 8); (lit "snare", [lit "/lib/Demo/Snare 1.wav"])].

(** Two files of one kit and category with the same trailing index. *)
Definition same_index_files : list pystr :=
  [lit "/lib/808/Kick 808 1.wav"; lit "/lib/808/Kick 808 01.wav"].

(** Two trash notes; after a push of 10 files and a push of 9, note 90
    holds 8 files, note 91 holds 2 and then 6 more, and 3 files are
    dropped. *)
Definition two_note_pool : AssignState := initial_state demo_mapping [90; 91].

End Scenarios.
Import Posix Scenarios.


(* ===================================================================== *)
(** * A samples folder for the examples *)
(* ===================================================================== *)

Module Folder.
Import Posix PosixOs.

(** A mapping file of two categories, with a comment and a blank line. *)
Definition drum_mapping_lines : list pystr :=
  [lit "# drums"; lit "kick/bd: 36"; lit ""; lit "Snare / SD : 38, 40"].

(** Two directories: the first with two kicks listed the wrong way round,
    a text file, a snare with an upper-case suffix and a file no synonym
    names; the second with one kick. *)
Definition drum_walk : list (pystr * list pystr) :=
  [(lit "/lib/808",
    [lit "Kick 808 2.wav"; lit "Kick 808 1.wav"; lit "readme.txt";
     lit "Snare 808 1.WAV"; lit "Hat 808.wav"]);
   (lit "/lib/909", [lit "kick 909 1.flac"])].

Definition listing_args (policy : pystr) : ListingArgs :=
  {| args_min_total := 0;
     args_exclude_only_other := false;
     args_exclude_mixed_other := false;
     args_overflow_policy := policy;
     args_trash_notes := None |}.

(** The kits the scan finds in the folder: [808], [Hat] and [909]. *)
Definition drum_kits : list (pystr * Elements) :=
  scan_samples (H := posix_paths) (H0 := posix_os) drum_walk
    (mapping_to_nomenclature (default [] (parse_mapping_file drum_mapping_lines))).

Definition drum_config (policy : pystr) : FilterConfig :=
  {| min_total_samples := 0;
     exclude_only_other := false;
     exclude_mixed_other := false;
     mapping := parse_mapping_file drum_mapping_lines;
     overflow_policy := policy;
     trash_notes := Some [] |}.

Definition drum_listing (policy : pystr) :=
  create_listing (H := posix_paths) (H0 := posix_os)
                 drum_mapping_lines drum_walk (listing_args policy).

(** What an assignment may hand to the generator: ten kicks on note 36
    and one file on note 100; four pads from note 36 on; six draws, the
    first three of them near gray. *)
Definition drum_items : list (Z * list pystr) :=
  [(36, kick_files 10); (100, [lit "/lib/Stray/Noise.wav"])].

Definition drum_draws : list Z := [10; 20; 30; 255; 0; 128].

Definition drum_preset (items : list (Z * list pystr)) :=
  generate_kit (H := posix_paths) (H0 := posix_os) (lit "/lib/out") (lit "/lib")
               36 4 (lit "Demo") items drum_draws.

(** A listing as it is exported. *)
Definition exported : PyVal :=
  PDict [(lit "Demo",
          PDict [(lit "kick", PList [PStr (lit "/lib/Demo/Kick 1.wav");
                                     PStr (lit "/lib/Demo/Kick 2.wav")]);
                 (lit "other", PList [])])].

End Folder.
Import PosixOs Folder.
(* ===================================================================== *)
(** * Velocity-layer partition *)
(* ===================================================================== *)

Example velocity_ranges_2 : velocity_ranges 2 = [(1, 63); (64, 127)].
Proof. reflexivity. Qed.

Example velocity_ranges_3 :
  velocity_ranges 3 = [(1, 42); (43, 84); (85, 127)].
Proof. reflexivity. Qed.

(** What it means for a list of bands to tile [lo..hi]: the bands are
    non-empty, the first starts at [lo], each next one starts right after
    the previous one ends, and the last ends at [hi]. *)
Fixpoint tiles (lo hi : Z) (bands : list (Z * Z)) : Prop :=
  match bands with
  | [] => False
  | [(s, e)] => s = lo /\ s <= e /\ e = hi
  | (s, e) :: rest => s = lo /\ s <= e /\ tiles (e + 1) hi rest
  end.

(** The head band of a tiling starts at its lower bound and stays below
    the upper one. *)
Lemma tiles_head lo hi s e rest :
  tiles lo hi ((s, e) :: rest) -> s = lo /\ s <= e /\ e <= hi.
Proof.
  revert lo s e. induction rest as [|[s1 e1] rest IH]; intros lo s e Ht.
  - destruct Ht as (-> & Hse & ->). lia.
  - destruct Ht as (-> & Hse & Ht). destruct (IH _ _ _ Ht). lia.
Qed.

Ltac lia_tiles_head H :=
  match type of H with
  | tiles _ _ (?b :: _) =>
      destruct b; let H' := fresh in pose proof (tiles_head _ _ _ _ _ H) as H'; lia
  end.

Lemma tiles_cover lo hi bands v :
  tiles lo hi bands -> lo <= v <= hi ->
  exists i s e, bands !! i = Some (s, e) /\ s <= v <= e.
Proof.
  revert lo. induction bands as [|[s e] rest IH]; intros lo Ht Hv; [easy|].
  destruct rest as [|b rest'].
  - destruct Ht as (-> & _ & ->). exists 0%nat, lo, hi. split; [reflexivity|lia].
  - destruct Ht as (-> & Hse & Ht).
    destruct (Z_le_gt_dec v e) as [Hle|Hgt].
    + exists 0%nat, lo, e. split; [reflexivity|lia].
    + destruct (IH (e + 1) Ht ltac:(lia)) as (i & s' & e' & Hi & Hb).
      exists (S i), s', e'. split; [exact Hi|exact Hb].
Qed.

Lemma tiles_lower_bound lo hi bands i s e :
  tiles lo hi bands -> bands !! i = Some (s, e) -> lo <= s /\ s <= e /\ e <= hi.
Proof.
  revert lo i. induction bands as [|[s0 e0] rest IH]; intros lo i Ht Hi; [easy|].
  destruct rest as [|b rest'].
  - destruct Ht as (-> & Hse & ->). destruct i; simpl in Hi; [|easy].
    inversion Hi; subst. lia.
  - destruct Ht as (-> & Hse & Ht). destruct i as [|i]; simpl in Hi.
    + inversion Hi; subst. lia_tiles_head Ht.
    + destruct (IH _ i Ht Hi). lia.
Qed.

Lemma tiles_disjoint lo hi bands i j si ei sj ej :
  tiles lo hi bands -> (i < j)%nat ->
  bands !! i = Some (si, ei) -> bands !! j = Some (sj, ej) -> ei < sj.
Proof.
  revert lo i j. induction bands as [|[s0 e0] rest IH]; intros lo i j Ht Hij Hi Hj; [easy|].
  destruct j as [|j]; [lia|]. simpl in Hj.
  destruct rest as [|b rest']; [easy|].
  destruct Ht as (-> & Hse & Ht).
  destruct i as [|i]; simpl in Hi.
  - inversion Hi; subst. destruct (tiles_lower_bound _ _ _ _ _ _ Ht Hj). lia.
  - apply (IH _ i j Ht); [lia|exact Hi|exact Hj].
Qed.

(** C1. For every N in 1..8, [velocity_ranges N] has exactly N bands that
    tile 1..127 contiguously: the first band starts at 1, the last ends at
    127, each band starts one above the end of the previous one; hence every
    velocity 1..127 lies in one band and no two bands overlap. *)
Theorem velocity_ranges_tile (n : Z) :
  1 <= n <= 8 ->
  let r := velocity_ranges n in
  len r = n
  /\ (fst <$> head r) = Some 1
  /\ (snd <$> last r) = Some 127
  /\ (forall i a b, r !! i = Some a -> r !! S i = Some b -> fst b = snd a + 1)
  /\ tiles 1 127 r
  /\ (forall v, 1 <= v <= 127 ->
        exists i s e, r !! i = Some (s, e) /\ s <= v <= e)
  /\ (forall i j si ei sj ej, (i < j)%nat ->
        r !! i = Some (si, ei) -> r !! j = Some (sj, ej) -> ei < sj).
Proof.
  intros Hn r.
  assert (Ht : tiles 1 127 r).
  { subst r.
    assert (n = 1 \/ n = 2 \/ n = 3 \/ n = 4 \/ n = 5 \/ n = 6 \/ n = 7 \/ n = 8)
      as Hc by lia.
    repeat (destruct Hc as [-> | Hc]); try subst n; vm_compute; intuition congruence. }
  assert (Hlen : len r = n /\ (fst <$> head r) = Some 1
                 /\ (snd <$> last r) = Some 127
                 /\ (forall i a b, r !! i = Some a -> r !! S i = Some b ->
                       fst b = snd a + 1)).
  { subst r.
    assert (n = 1 \/ n = 2 \/ n = 3 \/ n = 4 \/ n = 5 \/ n = 6 \/ n = 7 \/ n = 8)
      as Hc by lia.
    repeat (destruct Hc as [-> | Hc]); try subst n;
      (split; [reflexivity|]; split; [reflexivity|]; split; [reflexivity|]);
      intros i a b Ha Hb;
      do 8 (destruct i as [|i];
            [vm_compute in Ha, Hb;
             first [discriminate | injection Ha as <-; injection Hb as <-; reflexivity]|]);
      vm_compute in Ha; discriminate. }
  destruct Hlen as (H1 & H2 & H3 & H4).
  repeat split; try assumption.
  - intros v Hv. exact (tiles_cover _ _ _ _ Ht Hv).
  - intros i j si ei sj ej Hij Hi Hj. exact (tiles_disjoint _ _ _ _ _ _ _ _ _ Ht Hij Hi Hj).
Qed.

Lemma velocity_ranges_tile_witness :
  len (velocity_ranges 8) = 8 /\ tiles 1 127 (velocity_ranges 8).
Proof.
  pose proof (velocity_ranges_tile 8 ltac:(lia)) as H. cbv zeta in H.
  destruct H as (H1 & _ & _ & _ & H5 & _). split; [exact H1|exact H5].
Defined.

(* ===================================================================== *)
(** * Pad layers *)
(* ===================================================================== *)

Section PadLayers.
Context `{PathLib}.

(** A pad with two files gets the two bands of [velocity_ranges 2]; the
    first layer keeps only its upper bound, the last only its lower one. *)
Lemma set_pad_layers_two_shape (pad pad' : Pad) (w0 w1 preset_dir global_base : pystr) :
  set_pad_layers pad [w0; w1] preset_dir global_base = Some pad' ->
  exists r0 f0 r1 f1 rest,
    pad_mappings pad' =
      [ [(lit "path", f0); (lit "pathrelative", r0); (lit "velocityend", lit "63.0")];
        [(lit "path", f1); (lit "pathrelative", r1); (lit "velocitystart", lit "64.0")] ]
      ++ rest.
Proof.
  assert (Hn : Z.min (len [w0; w1]) LAYER_LIMIT_PER_PAD = 2) by reflexivity.
  unfold set_pad_layers. rewrite Hn.
  change (velocity_ranges 2) with [(1, 63); (64, 127)].
  change (seq 0 (Z.to_nat 2)) with [0%nat; 1%nat].
  destruct (pad_mappings pad) as [|a [|b rest]]; cbn [map foldl mbind option_bind].
  - intros Hs. discriminate Hs.
  - unfold set_layer. cbn.
    destruct (wav_to_pathrelative w0 global_base); cbn; [|discriminate].
    destruct (wav_to_path_foldback w0 preset_dir); cbn; discriminate.
  - unfold set_layer. cbn.
    destruct (wav_to_pathrelative w0 global_base) as [r0|]; cbn; [|discriminate].
    destruct (wav_to_path_foldback w0 preset_dir) as [f0|]; cbn; [|discriminate].
    destruct (wav_to_pathrelative w1 global_base) as [r1|]; cbn; [|discriminate].
    destruct (wav_to_path_foldback w1 preset_dir) as [f1|]; cbn; [|discriminate].
    intros Hs. injection Hs as <-. cbn.
    exists r0, f0, r1, f1, (map (fun _ => empty_mapping) rest). reflexivity.
Qed.

(** C4 (amended). For a pad holding exactly 2 layers, layer 0 is written
    with no velocity-start attribute and an explicit velocity-end of 63,
    and layer 1 with an explicit velocity-start of 64 and no velocity-end
    attribute. *)
Theorem set_pad_layers_two (pad pad' : Pad) (w0 w1 preset_dir global_base : pystr) :
  set_pad_layers pad [w0; w1] preset_dir global_base = Some pad' ->
  exists m0 m1,
    pad_mappings pad' !! 0%nat = Some m0
    /\ pad_mappings pad' !! 1%nat = Some m1
    /\ dict_get (lit "velocitystart") m0 = None
    /\ dict_get (lit "velocityend") m0 = Some (float_str 63)
    /\ dict_get (lit "velocitystart") m1 = Some (float_str 64)
    /\ dict_get (lit "velocityend") m1 = None.
Proof.
  intros Hs.
  destruct (set_pad_layers_two_shape _ _ _ _ _ _ Hs) as (r0 & f0 & r1 & f1 & rest & ->).
  eexists _, _. split; [reflexivity|]. split; [reflexivity|].
  repeat split; reflexivity.
Qed.

End PadLayers.

Lemma demo_pad_defined : is_Some demo_pad.
Proof. vm_compute. eexists. reflexivity. Qed.

Lemma set_pad_layers_two_witness :
  exists pad' m0 m1,
    demo_pad = Some pad'
    /\ pad_mappings pad' !! 0%nat = Some m0
    /\ pad_mappings pad' !! 1%nat = Some m1
    /\ dict_get (lit "velocitystart") m0 = None
    /\ dict_get (lit "velocityend") m0 = Some (float_str 63)
    /\ dict_get (lit "velocitystart") m1 = Some (float_str 64)
    /\ dict_get (lit "velocityend") m1 = None.
Proof.
  destruct demo_pad_defined as [pad' Hp]. exists pad'.
  destruct (set_pad_layers_two (H := posix_paths) _ _ _ _ _ _ Hp)
    as (m0 & m1 & Hm).
  exists m0, m1. split; [exact Hp|exact Hm].
Defined.

(** C4 as stated fails: on the scenario's pad, layer 0 ends at 63 (not 64)
    and layer 1 starts at 64 (not 65). *)
Lemma set_pad_layers_two_not_64_65 :
  ~ (forall pad', demo_pad = Some pad' ->
       exists m0 m1,
         pad_mappings pad' !! 0%nat = Some m0
         /\ pad_mappings pad' !! 1%nat = Some m1
         /\ dict_get (lit "velocitystart") m0 = None
         /\ dict_get (lit "velocityend") m0 = Some (float_str 64)
         /\ dict_get (lit "velocitystart") m1 = Some (float_str 65)
         /\ dict_get (lit "velocityend") m1 = None).
Proof.
  intros Hc. destruct demo_pad_defined as [pad' Hp].
  destruct (Hc pad' Hp) as (m0 & m1 & H0 & _ & _ & He & _).
  revert Hp H0 He. vm_compute. intros Hp. injection Hp as <-.
  intros H0. injection H0 as <-. intros He. discriminate He.
Qed.

(* ===================================================================== *)
(** * Dictionaries *)
(* ===================================================================== *)

Section DictFacts.
Context {K V : Type} `{EqDecision K}.
Implicit Types (d : list (K * V)) (k : K) (v : V).

Lemma dict_get_set_eq d k v : dict_get k (dict_set k v d) = Some v.
Proof.
  induction d as [|[k' v'] d IH]; simpl.
  - destruct (decide (k = k)); [reflexivity|congruence].
  - destruct (decide (k' = k)) as [->|Hne]; simpl.
    + destruct (decide (k = k)); [reflexivity|congruence].
    + destruct (decide (k' = k)); [congruence|exact IH].
Qed.

Lemma dict_get_set_ne d k k' v : k <> k' -> dict_get k' (dict_set k v d) = dict_get k' d.
Proof.
  intros Hne. induction d as [|[k0 v0] d IH]; simpl.
  - destruct (decide (k = k')); [congruence|reflexivity].
  - destruct (decide (k0 = k)) as [->|Hk]; simpl.
    + destruct (decide (k = k')); [congruence|reflexivity].
    + destruct (decide (k0 = k')); [reflexivity|exact IH].
Qed.

Lemma dict_get_None d k : dict_get k d = None <-> k ∉ dict_keys d.
Proof.
  induction d as [|[k0 v0] d IH]; simpl.
  - split; [intros _; apply not_elem_of_nil|reflexivity].
  - rewrite not_elem_of_cons. destruct (decide (k0 = k)) as [->|Hk].
    + split; [discriminate|intros [Hc _]; congruence].
    + rewrite IH. split; [intros Hn; split; [congruence|exact Hn]|intros [_ Hn]; exact Hn].
Qed.

Lemma dict_get_Some_key d k v : dict_get k d = Some v -> k ∈ dict_keys d.
Proof.
  intros Hg. destruct (decide (k ∈ dict_keys d)) as [Hin|Hn]; [exact Hin|].
  apply dict_get_None in Hn. congruence.
Qed.

Lemma dict_get_Some_elem d k v : dict_get k d = Some v -> (k, v) ∈ d.
Proof.
  induction d as [|[k0 v0] d IH]; simpl; [discriminate|].
  destruct (decide (k0 = k)) as [->|Hk].
  - intros [= ->]. apply list_elem_of_here.
  - intros Hg. apply list_elem_of_further, IH, Hg.
Qed.

Lemma dict_get_elem d k v : dict_wf d -> (k, v) ∈ d -> dict_get k d = Some v.
Proof.
  unfold dict_wf, dict_keys.
  induction d as [|[k0 v0] d IH]; simpl; intros Hwf Hin.
  - apply elem_of_nil in Hin. destruct Hin.
  - apply NoDup_cons in Hwf as [Hnotin Hwf].
    apply elem_of_cons in Hin as [[= -> ->]|Hin].
    + destruct (decide (k0 = k0)); [reflexivity|congruence].
    + destruct (decide (k0 = k)) as [->|Hk]; [|apply IH; assumption].
      exfalso. apply Hnotin. apply list_elem_of_fmap. exists (k, v). split; [reflexivity|exact Hin].
Qed.

Lemma dict_set_fresh d k v : k ∉ dict_keys d -> dict_set k v d = d ++ [(k, v)].
Proof.
  induction d as [|[k0 v0] d IH]; simpl; intros Hn; [reflexivity|].
  apply not_elem_of_cons in Hn as [Hne Hn].
  destruct (decide (k0 = k)); [congruence|]. rewrite IH by exact Hn. reflexivity.
Qed.

Lemma dict_keys_set d k v :
  dict_keys (dict_set k v d) = if decide (k ∈ dict_keys d) then dict_keys d else dict_keys d ++ [k].
Proof.
  induction d as [|[k0 v0] d IH]; simpl.
  - destruct (decide (k ∈ [])) as [Hin|_]; [apply elem_of_nil in Hin; destruct Hin|reflexivity].
  - destruct (decide (k0 = k)) as [->|Hk]; simpl.
    + destruct (decide (k ∈ k :: dict_keys d)) as [_|Hn]; [reflexivity|].
      exfalso. apply Hn, list_elem_of_here.
    + rewrite IH. destruct (decide (k ∈ dict_keys d)) as [Hin|Hn].
      * destruct (decide (k ∈ k0 :: dict_keys d)) as [_|Hn']; [reflexivity|].
        exfalso. apply Hn', list_elem_of_further, Hin.
      * destruct (decide (k ∈ k0 :: dict_keys d)) as [Hin'|_]; [|reflexivity].
        apply elem_of_cons in Hin' as [->|Hin']; [congruence|contradiction].
Qed.

Lemma dict_set_wf d k v : dict_wf d -> dict_wf (dict_set k v d).
Proof.
  unfold dict_wf. rewrite dict_keys_set. intros Hwf.
  destruct (decide (k ∈ dict_keys d)) as [_|Hn]; [exact Hwf|].
  apply NoDup_app. split; [exact Hwf|]. split.
  - intros x Hx Hx'. apply list_elem_of_singleton in Hx'. subst. contradiction.
  - apply NoDup_singleton.
Qed.

End DictFacts.

Lemma dict_get_map {K A B : Type} `{EqDecision K} (f : A -> B) (d : list (K * A)) (k : K) :
  dict_get k (map (fun kv => (kv.1, f kv.2)) d) = f <$> dict_get k d.
Proof.
  induction d as [|[k0 v0] d IH]; simpl; [reflexivity|].
  destruct (decide (k0 = k)); [reflexivity|exact IH].
Qed.

(* ===================================================================== *)
(** * Validation and filtering *)
(* ===================================================================== *)

(** The reason codes. *)
Definition reason_codes : list pystr :=
  [lit "too_few_samples"; lit "only_other"; lit "mixed_other";
   lit "overflow_or_other"; lit "trash_zone_insufficient"].

(** A kit has something to place elsewhere: an overflowing category, or
    files of category [other]. *)
Definition has_excess (cfg : FilterConfig) (elems : Elements) : Prop :=
  overflow_entries cfg elems <> [] \/ count_other elems <> 0.

(** The summed overflow-plus-other count of a kit. *)
Definition excess_count (cfg : FilterConfig) (elems : Elements) : Z :=
  total_trash_needed (overflow_entries cfg elems) (count_other elems).

Lemma has_excess_test cfg elems :
  has_excess cfg elems <->
  negb (bool_decide (overflow_entries cfg elems = []))
  || negb (count_other elems =? 0) = true.
Proof.
  unfold has_excess. rewrite orb_true_iff, !negb_true_iff, bool_decide_eq_false, Z.eqb_neq.
  reflexivity.
Qed.

Lemma threshold_reason_truthy cfg stats r :
  threshold_reason cfg stats = Some r -> truthy (Some r) = true.
Proof.
  unfold threshold_reason.
  repeat match goal with |- context [if ?b then _ else _] => destruct b end;
    intros [= <-]; reflexivity.
Qed.

Lemma threshold_reason_None cfg stats :
  threshold_reason cfg stats = None ->
  min_total_samples cfg <= total stats
  /\ (exclude_only_other cfg = true -> only_other stats = false)
  /\ (exclude_mixed_other cfg = true -> mixed_other stats = false).
Proof.
  unfold threshold_reason.
  destruct (total stats <? min_total_samples cfg) eqn:Ht; [discriminate|].
  apply Z.ltb_ge in Ht.
  destruct (exclude_only_other cfg), (only_other stats); simpl; try discriminate;
    destruct (exclude_mixed_other cfg), (mixed_other stats); simpl; try discriminate;
    intros _; repeat split; try lia; congruence.
Qed.

(** Entries of [overflow_info] record a positive excess. *)
Lemma overflow_entries_positive cfg elems info :
  info ∈ overflow_entries cfg elems -> ov_capacity info < ov_count info.
Proof.
  unfold overflow_entries.
  destruct (mapping cfg) as [[|e m]|]; try (intros Hin; apply elem_of_nil in Hin; destruct Hin).
  intros Hin. apply list_elem_of_In, in_flat_map in Hin as ([cat files] & _ & Hin).
  destruct (bool_decide (cat = lit "other")); [simpl in Hin; contradiction|].
  destruct (category_capacity (e :: m) cat) as [cap|]; [|simpl in Hin; contradiction].
  destruct (len files >? cap) eqn:Hgt; [|simpl in Hin; contradiction].
  destruct Hin as [<-|[]]. simpl. lia.
Qed.

Lemma fold_excess_ge (l : list OverflowInfo) (acc : Z) :
  (forall info, info ∈ l -> ov_capacity info < ov_count info) ->
  acc <= fold_left (fun a info => a + (ov_count info - ov_capacity info)) l acc
  /\ (l <> [] ->
      acc < fold_left (fun a info => a + (ov_count info - ov_capacity info)) l acc).
Proof.
  revert acc. induction l as [|x l IH]; intros acc Hpos; simpl.
  - split; [lia|congruence].
  - assert (Hx : ov_capacity x < ov_count x) by (apply Hpos, list_elem_of_here).
    destruct (IH (acc + (ov_count x - ov_capacity x))) as [Hle _].
    { intros info Hin. apply Hpos, list_elem_of_further, Hin. }
    split; [lia|intros _; lia].
Qed.

(** The excess count is positive exactly on a kit that has an excess. *)
Lemma excess_count_positive cfg elems :
  0 < excess_count cfg elems <-> has_excess cfg elems.
Proof.
  unfold excess_count, total_trash_needed, has_excess.
  pose proof (fold_excess_ge (overflow_entries cfg elems) 0
                (overflow_entries_positive cfg elems)) as [Hle Hlt].
  assert (Hoc : 0 <= count_other elems) by (unfold count_other, len; lia).
  split.
  - intros Hpos. destruct (overflow_entries cfg elems) as [|x l]; [|left; congruence].
    right. simpl in Hpos. lia.
  - intros [Hne|Hne]; [specialize (Hlt Hne); lia|lia].
Qed.

(** Policy [reject]: an excess sets the reason, whatever the thresholds
    said. *)
Lemma kit_verdict_reject cfg elems :
  overflow_policy cfg = lit "reject" -> has_excess cfg elems ->
  kit_verdict cfg elems =
    (Some (lit "overflow_or_other"),
     {| trash_needed := None; trash_capacity := None;
        overflow := Some (overflow_entries cfg elems);
        other_count := Some (count_other elems) |}).
Proof.
  intros Hp He. apply has_excess_test in He. unfold kit_verdict.
  rewrite He, Hp. reflexivity.
Qed.

(** Without an excess the thresholds decide, under every policy. *)
Lemma kit_verdict_no_excess cfg elems :
  ~ has_excess cfg elems ->
  kit_verdict cfg elems = (threshold_reason cfg (kit_stats elems), no_details).
Proof.
  intros He. rewrite has_excess_test in He. apply not_true_is_false in He.
  unfold kit_verdict. rewrite He. reflexivity.
Qed.

Lemma kit_verdict_trash_insufficient cfg elems :
  overflow_policy cfg = lit "trash" ->
  trash_zone_capacity cfg < excess_count cfg elems ->
  kit_verdict cfg elems =
    (Some (lit "trash_zone_insufficient"),
     {| trash_needed := Some (excess_count cfg elems);
        trash_capacity := Some (trash_zone_capacity cfg);
        overflow := Some (overflow_entries cfg elems);
        other_count := Some (count_other elems) |}).
Proof.
  intros Hp Hgt.
  assert (Hcap : 0 <= trash_zone_capacity cfg).
  { unfold trash_zone_capacity. destruct (trash_notes cfg) as [[|n t]|]; unfold len, LAYER_LIMIT_PER_PAD; lia. }
  assert (He : has_excess cfg elems) by (apply excess_count_positive; lia).
  apply has_excess_test in He. unfold kit_verdict. rewrite He, Hp.
  change (bool_decide (lit "trash" = lit "reject")) with false. cbv iota.
  change (bool_decide (lit "trash" = lit "trash")) with true. cbv iota.
  fold (excess_count cfg elems).
  destruct (excess_count cfg elems >? trash_zone_capacity cfg) eqn:Hc; [reflexivity|lia].
Qed.

Lemma kit_verdict_trash_fits cfg elems :
  overflow_policy cfg = lit "trash" ->
  excess_count cfg elems <= trash_zone_capacity cfg ->
  (kit_verdict cfg elems).1 = threshold_reason cfg (kit_stats elems)
  /\ trash_needed (kit_verdict cfg elems).2 = None
  /\ trash_capacity (kit_verdict cfg elems).2 = None.
Proof.
  intros Hp Hle. unfold kit_verdict. rewrite Hp.
  change (bool_decide (lit "trash" = lit "reject")) with false. cbv iota.
  change (bool_decide (lit "trash" = lit "trash")) with true. cbv iota.
  fold (excess_count cfg elems).
  destruct (negb _ || negb _); [|repeat split].
  destruct (excess_count cfg elems >? trash_zone_capacity cfg) eqn:Hc; [lia|].
  repeat split.
Qed.

(** The reason of a verdict is one of the five codes. *)
Lemma kit_verdict_reason_code cfg elems r :
  (kit_verdict cfg elems).1 = Some r -> r ∈ reason_codes.
Proof.
  assert (Ht : forall r', threshold_reason cfg (kit_stats elems) = Some r' -> r' ∈ reason_codes).
  { unfold threshold_reason. intros r'.
    repeat match goal with |- context [if ?b then _ else _] => destruct b end;
      intros [= <-]; unfold reason_codes;
      repeat first [apply list_elem_of_here | apply list_elem_of_further]. }
  unfold kit_verdict.
  repeat match goal with |- context [if ?b then _ else _] => destruct b end;
    simpl; try (intros [= <-]; unfold reason_codes;
                repeat first [apply list_elem_of_here | apply list_elem_of_further]);
    apply Ht.
Qed.

(** A verdict without a reason passed the thresholds. *)
Lemma kit_verdict_accept cfg elems :
  truthy (kit_verdict cfg elems).1 = false ->
  threshold_reason cfg (kit_stats elems) = None.
Proof.
  assert (Ht : truthy (threshold_reason cfg (kit_stats elems)) = false ->
               threshold_reason cfg (kit_stats elems) = None).
  { destruct (threshold_reason cfg (kit_stats elems)) as [r|] eqn:Hr; [|reflexivity].
    rewrite (threshold_reason_truthy _ _ _ Hr). discriminate. }
  unfold kit_verdict.
  repeat match goal with |- context [if ?b then _ else _] => destruct b end;
    simpl; try discriminate; exact Ht.
Qed.

Lemma kit_verdict_truthy cfg elems r :
  (kit_verdict cfg elems).1 = Some r -> truthy (Some r) = true.
Proof.
  intros Hr. pose proof (kit_verdict_reason_code _ _ _ Hr) as Hin.
  unfold reason_codes in Hin.
  repeat (apply elem_of_cons in Hin as [->|Hin]; [reflexivity|]).
  apply elem_of_nil in Hin. destruct Hin.
Qed.

Section FilterKits.
Context `{PathLib}.

(** The rejection [filter_kits] stores for a kit with a reason. *)
Definition rejection_of (cfg : FilterConfig) (elems : Elements) : Rejection :=
  {| rej_reason := default [] (kit_verdict cfg elems).1;
     rej_details := (kit_verdict cfg elems).2;
     rej_elements := elems |}.

Lemma filter_step_unfold cfg valid rejected kit_name elems :
  filter_step cfg (valid, rejected) (kit_name, elems) =
    if truthy (kit_verdict cfg elems).1
    then (valid, dict_set kit_name (rejection_of cfg elems) rejected)
    else (dict_set kit_name (sorted_elements elems) valid, rejected).
Proof.
  unfold filter_step, rejection_of. destruct (kit_verdict cfg elems) as [r d]. reflexivity.
Qed.

(** Kits that are not in the list leave both dictionaries as they are. *)
Lemma filter_fold_other cfg (l : list (pystr * Elements)) acc name :
  name ∉ dict_keys l ->
  dict_get name (foldl (filter_step cfg) acc l).1 = dict_get name acc.1
  /\ dict_get name (foldl (filter_step cfg) acc l).2 = dict_get name acc.2.
Proof.
  revert acc. induction l as [|[k e] l IH]; intros [v r] Hn; [split; reflexivity|].
  cbn [foldl]. cbn in Hn. apply not_elem_of_cons in Hn as [Hne Hn].
  destruct (IH (filter_step cfg (v, r) (k, e)) Hn) as [-> ->].
  rewrite filter_step_unfold. destruct (truthy _); cbn [fst snd];
    rewrite ?dict_get_set_ne by congruence; split; reflexivity.
Qed.

(** A kit of the list ends in exactly one of the two dictionaries, as its
    verdict says. *)
Lemma filter_fold_kit cfg (l : list (pystr * Elements)) acc name elems :
  dict_wf l -> dict_get name l = Some elems ->
  let out := foldl (filter_step cfg) acc l in
  if truthy (kit_verdict cfg elems).1
  then dict_get name out.1 = dict_get name acc.1
       /\ dict_get name out.2 = Some (rejection_of cfg elems)
  else dict_get name out.1 = Some (sorted_elements elems)
       /\ dict_get name out.2 = dict_get name acc.2.
Proof.
  unfold dict_wf, dict_keys.
  revert acc. induction l as [|[k e] l IH]; intros [v r] Hwf Hg; [discriminate|].
  cbn [foldl]. cbn [map fst] in Hwf. cbn [dict_get] in Hg.
  apply NoDup_cons in Hwf as [Hnotin Hwf].
  destruct (decide (k = name)) as [->|Hne].
  - injection Hg as ->.
    destruct (filter_fold_other cfg l (filter_step cfg (v, r) (name, elems)) name Hnotin)
      as [-> ->].
    rewrite filter_step_unfold. destruct (truthy _); cbn [fst snd];
      rewrite dict_get_set_eq; split; reflexivity.
  - specialize (IH (filter_step cfg (v, r) (k, e)) Hwf Hg). cbv zeta in IH.
    rewrite filter_step_unfold in IH |- *.
    destruct (truthy (kit_verdict cfg elems).1); destruct (truthy (kit_verdict cfg e).1);
      cbn [fst snd] in IH |- *; rewrite ?dict_get_set_ne in IH by congruence; exact IH.
Qed.

(** The comprehension that sorts the lists keeps the categories and their
    order. *)
Lemma sorted_elements_fold (l acc : Elements) :
  NoDup (dict_keys acc ++ dict_keys l) ->
  foldl (fun a '(cat, files) =>
           dict_set cat (sort_samples_by_trailing_number files) a) acc l
  = acc ++ map (fun kv => (kv.1, sort_samples_by_trailing_number kv.2)) l.
Proof.
  revert acc. induction l as [|[c fs] l IH]; intros acc Hnd; simpl.
  - rewrite app_nil_r. reflexivity.
  - assert (Hc : c ∉ dict_keys acc).
    { apply NoDup_app in Hnd as (_ & Hd & _). intros Hin. apply (Hd c Hin), list_elem_of_here. }
    rewrite dict_set_fresh by exact Hc. rewrite IH.
    + rewrite <- app_assoc. reflexivity.
    + unfold dict_keys in *. rewrite map_app. simpl. rewrite <- app_assoc. exact Hnd.
Qed.

Lemma sorted_elements_map (elems : Elements) :
  dict_wf elems ->
  sorted_elements elems
  = map (fun kv => (kv.1, sort_samples_by_trailing_number kv.2)) elems.
Proof.
  intros Hwf. unfold sorted_elements. rewrite sorted_elements_fold; [reflexivity|exact Hwf].
Qed.

Lemma sorted_elements_get (elems : Elements) cat files :
  dict_wf elems -> dict_get cat elems = Some files ->
  dict_get cat (sorted_elements elems) = Some (sort_samples_by_trailing_number files).
Proof.
  intros Hwf Hg. rewrite sorted_elements_map by exact Hwf.
  rewrite (dict_get_map sort_samples_by_trailing_number), Hg. reflexivity.
Qed.

Lemma sorted_elements_keys (elems : Elements) :
  dict_wf elems -> dict_keys (sorted_elements elems) = dict_keys elems.
Proof.
  intros Hwf. rewrite sorted_elements_map by exact Hwf.
  unfold dict_keys. rewrite map_map. reflexivity.
Qed.

(** What [filter_kits] returns for a kit of its input. *)
Lemma filter_kits_kit kits cfg name elems :
  dict_wf kits -> dict_get name kits = Some elems ->
  if truthy (kit_verdict cfg elems).1
  then dict_get name (filter_kits kits cfg).1 = None
       /\ dict_get name (filter_kits kits cfg).2 = Some (rejection_of cfg elems)
  else dict_get name (filter_kits kits cfg).1 = Some (sorted_elements elems)
       /\ dict_get name (filter_kits kits cfg).2 = None.
Proof.
  intros Hwf Hg. exact (filter_fold_kit cfg kits ([], []) name elems Hwf Hg).
Qed.

Lemma filter_kits_from_input kits cfg name :
  is_Some (dict_get name (filter_kits kits cfg).1)
  \/ is_Some (dict_get name (filter_kits kits cfg).2) ->
  is_Some (dict_get name kits).
Proof.
  intros Hs. destruct (dict_get name kits) as [e|] eqn:Hg; [eexists; reflexivity|].
  apply dict_get_None in Hg.
  destruct (filter_fold_other cfg kits ([], []) name Hg) as [Hv Hr].
  unfold filter_kits in Hs. rewrite Hv, Hr in Hs. simpl in Hs.
  destruct Hs as [[x Hx]|[x Hx]]; discriminate.
Qed.

(** C5. Every kit [filter_kits] accepts has a total sample count of at
    least the minimum and, where the exclusion is enabled, is neither
    only-other nor mixed-other; its lists are those of the input kit, each
    sorted by the ordering rule.  Every rejected kit keeps its original
    elements, with the reason code and the details of its verdict. *)
Theorem filter_kits_verdicts (kits : list (pystr * Elements)) (cfg : FilterConfig) :
  dict_wf kits ->
  Forall (fun kv => dict_wf kv.2) kits ->
  (forall name out,
     dict_get name (filter_kits kits cfg).1 = Some out ->
     exists elems,
       dict_get name kits = Some elems
       /\ min_total_samples cfg <= total (kit_stats elems)
       /\ (exclude_only_other cfg = true -> only_other (kit_stats elems) = false)
       /\ (exclude_mixed_other cfg = true -> mixed_other (kit_stats elems) = false)
       /\ dict_keys out = dict_keys elems
       /\ (forall cat files,
             dict_get cat elems = Some files ->
             dict_get cat out = Some (sort_samples_by_trailing_number files))
       /\ dict_get name (filter_kits kits cfg).2 = None)
  /\ (forall name rej,
        dict_get name (filter_kits kits cfg).2 = Some rej ->
        exists elems,
          dict_get name kits = Some elems
          /\ rej_elements rej = elems
          /\ rej_reason rej ∈ reason_codes
          /\ kit_verdict cfg elems = (Some (rej_reason rej), rej_details rej)
          /\ dict_get name (filter_kits kits cfg).1 = None).
Proof.
  intros Hwf Hall. split.
  - intros name out Hout.
    destruct (filter_kits_from_input kits cfg name) as [elems Hg];
      [left; eexists; exact Hout|].
    exists elems. split; [exact Hg|].
    pose proof (filter_kits_kit kits cfg name elems Hwf Hg) as Hk.
    destruct (truthy (kit_verdict cfg elems).1) eqn:Ht.
    { destruct Hk as [Hk _]. congruence. }
    destruct Hk as [Hv Hr]. rewrite Hv in Hout. injection Hout as <-.
    destruct (threshold_reason_None _ _ (kit_verdict_accept _ _ Ht)) as (H1 & H2 & H3).
    assert (Hwe : dict_wf elems).
    { rewrite Forall_forall in Hall.
      exact (Hall (name, elems) (dict_get_Some_elem _ _ _ Hg)). }
    repeat split; try assumption.
    + apply sorted_elements_keys, Hwe.
    + intros cat files Hc. apply sorted_elements_get; assumption.
  - intros name rej Hrej.
    destruct (filter_kits_from_input kits cfg name) as [elems Hg];
      [right; eexists; exact Hrej|].
    exists elems. split; [exact Hg|].
    pose proof (filter_kits_kit kits cfg name elems Hwf Hg) as Hk.
    destruct (truthy (kit_verdict cfg elems).1) eqn:Ht.
    2:{ destruct Hk as [_ Hk]. congruence. }
    destruct Hk as [Hv Hr]. rewrite Hr in Hrej. injection Hrej as <-.
    unfold rejection_of. simpl.
    destruct (kit_verdict cfg elems) as [[r|] d] eqn:Hkv; simpl in *; [|discriminate].
    repeat split; try assumption.
    apply (kit_verdict_reason_code cfg elems). rewrite Hkv. reflexivity.
Qed.

End FilterKits.

Section FilterClaims.
Context `{PathLib}.

Lemma trash_zone_capacity_eq cfg :
  trash_zone_capacity cfg = len (default [] (trash_notes cfg)) * LAYER_LIMIT_PER_PAD.
Proof.
  unfold trash_zone_capacity. destruct (trash_notes cfg) as [[|n t]|]; reflexivity.
Qed.

Lemma filter_kits_rejected kits cfg name elems r :
  dict_wf kits -> dict_get name kits = Some elems ->
  (kit_verdict cfg elems).1 = Some r ->
  dict_get name (filter_kits kits cfg).1 = None
  /\ dict_get name (filter_kits kits cfg).2 =
       Some {| rej_reason := r; rej_details := (kit_verdict cfg elems).2;
               rej_elements := elems |}.
Proof.
  intros Hwf Hg Hr. pose proof (filter_kits_kit kits cfg name elems Hwf Hg) as Hk.
  rewrite Hr, (kit_verdict_truthy _ _ _ Hr) in Hk. destruct Hk as [Hv Hj].
  split; [exact Hv|]. rewrite Hj. unfold rejection_of. rewrite Hr. reflexivity.
Qed.

(** C3 (amended). Under overflow policy [reject], a kit that has overflow
    or [other] files is rejected with reason [overflow_or_other], whether
    or not a threshold check failed before: the last-set reason wins. *)
Theorem filter_kits_reject_reason (kits : list (pystr * Elements))
    (cfg : FilterConfig) (name : pystr) (elems : Elements) :
  dict_wf kits -> dict_get name kits = Some elems ->
  overflow_policy cfg = lit "reject" ->
  has_excess cfg elems ->
  dict_get name (filter_kits kits cfg).2 =
    Some {| rej_reason := lit "overflow_or_other";
            rej_details :=
              {| trash_needed := None; trash_capacity := None;
                 overflow := Some (overflow_entries cfg elems);
                 other_count := Some (count_other elems) |};
            rej_elements := elems |}
  /\ dict_get name (filter_kits kits cfg).1 = None.
Proof.
  intros Hwf Hg Hp He.
  pose proof (kit_verdict_reject cfg elems Hp He) as Hv.
  destruct (filter_kits_rejected kits cfg name elems (lit "overflow_or_other") Hwf Hg)
    as [Hvalid Hrej]; [rewrite Hv; reflexivity|].
  rewrite Hv in Hrej. split; [exact Hrej|exact Hvalid].
Qed.

(** C7. Under overflow policy [trash], with the trash capacity the number
    of trash notes times 8: a kit whose overflow-plus-other count exceeds
    it is rejected with reason [trash_zone_insufficient], the count and
    the capacity in its details; in particular with no trash note and a
    count of 2, needed is 2 and capacity 0; and for a kit whose count fits
    the thresholds alone decide, so that it is accepted when they pass. *)
Theorem filter_kits_trash_zone (kits : list (pystr * Elements))
    (cfg : FilterConfig) (name : pystr) (elems : Elements) :
  dict_wf kits -> dict_get name kits = Some elems ->
  overflow_policy cfg = lit "trash" ->
  trash_zone_capacity cfg = len (default [] (trash_notes cfg)) * 8
  /\ (trash_zone_capacity cfg < excess_count cfg elems ->
      dict_get name (filter_kits kits cfg).2 =
        Some {| rej_reason := lit "trash_zone_insufficient";
                rej_details :=
                  {| trash_needed := Some (excess_count cfg elems);
                     trash_capacity := Some (trash_zone_capacity cfg);
                     overflow := Some (overflow_entries cfg elems);
                     other_count := Some (count_other elems) |};
                rej_elements := elems |})
  /\ (trash_notes cfg = Some [] -> excess_count cfg elems = 2 ->
      exists rej,
        dict_get name (filter_kits kits cfg).2 = Some rej
        /\ rej_reason rej = lit "trash_zone_insufficient"
        /\ trash_needed (rej_details rej) = Some 2
        /\ trash_capacity (rej_details rej) = Some 0)
  /\ (excess_count cfg elems <= trash_zone_capacity cfg ->
      (kit_verdict cfg elems).1 = threshold_reason cfg (kit_stats elems)
      /\ (threshold_reason cfg (kit_stats elems) = None ->
          dict_get name (filter_kits kits cfg).1 = Some (sorted_elements elems)
          /\ dict_get name (filter_kits kits cfg).2 = None)).
Proof.
  intros Hwf Hg Hp.
  assert (Hins : trash_zone_capacity cfg < excess_count cfg elems ->
      dict_get name (filter_kits kits cfg).2 =
        Some {| rej_reason := lit "trash_zone_insufficient";
                rej_details :=
                  {| trash_needed := Some (excess_count cfg elems);
                     trash_capacity := Some (trash_zone_capacity cfg);
                     overflow := Some (overflow_entries cfg elems);
                     other_count := Some (count_other elems) |};
                rej_elements := elems |}).
  { intros Hgt. pose proof (kit_verdict_trash_insufficient cfg elems Hp Hgt) as Hv.
    destruct (filter_kits_rejected kits cfg name elems (lit "trash_zone_insufficient") Hwf Hg)
      as [_ Hrej]; [rewrite Hv; reflexivity|].
    rewrite Hv in Hrej. exact Hrej. }
  split; [apply trash_zone_capacity_eq|]. split; [exact Hins|]. split.
  - intros Ht He.
    assert (Hcap : trash_zone_capacity cfg = 0) by (unfold trash_zone_capacity; rewrite Ht; reflexivity).
    eexists. split; [apply Hins; lia|]. simpl. rewrite He, Hcap. repeat split.
  - intros Hle. destruct (kit_verdict_trash_fits cfg elems Hp Hle) as (Hr & _ & _).
    split; [exact Hr|]. intros Hnone.
    pose proof (filter_kits_kit kits cfg name elems Hwf Hg) as Hk.
    rewrite Hr, Hnone in Hk. exact Hk.
Qed.

End FilterClaims.

(** ** The scenarios *)

Example demo_mapping_parsed : parse_mapping_file demo_mapping_lines = Some demo_mapping.
Proof. reflexivity. Qed.

Lemma demo_kits_wf : dict_wf demo_kits /\ Forall (fun kv => dict_wf kv.2) demo_kits.
Proof.
  split.
  - apply NoDup_singleton.
  - apply Forall_cons. split; [apply NoDup_singleton|apply Forall_nil; exact I].
Qed.

Lemma filter_kits_verdicts_witness :
  exists elems,
    dict_get (lit "Demo") demo_kits = Some elems
    /\ 0 <= total (kit_stats elems)
    /\ dict_get (lit "kick")
         (default [] (dict_get (lit "Demo")
            (filter_kits demo_kits (config (lit "reject") 0 [])).1))
       = Some [lit "/lib/Demo/Kick 1.wav"; lit "/lib/Demo/Kick 2.wav"].
Proof.
  destruct demo_kits_wf as [Hwf Hall].
  destruct (filter_kits_verdicts demo_kits (config (lit "reject") 0 []) Hwf Hall) as [Hv _].
  destruct (Hv (lit "Demo") _ ltac:(vm_compute; reflexivity))
    as (elems & Hg & Hmin & _ & _ & _ & _ & _).
  exists elems. split; [exact Hg|]. split; [exact Hmin|]. vm_compute. reflexivity.
Defined.

Lemma stray_kit_wf : dict_wf [(lit "Stray", stray_kit)].
Proof. apply NoDup_singleton. Qed.

Lemma stray_kit_excess cfg : has_excess cfg stray_kit.
Proof. right. vm_compute. discriminate. Qed.

Lemma filter_kits_reject_reason_witness :
  threshold_reason (config (lit "reject") 5 []) (kit_stats stray_kit)
    = Some (lit "too_few_samples")
  /\ rej_reason <$> dict_get (lit "Stray")
       (filter_kits [(lit "Stray", stray_kit)] (config (lit "reject") 5 [])).2
     = Some (lit "overflow_or_other").
Proof.
  split; [reflexivity|].
  destruct (filter_kits_reject_reason [(lit "Stray", stray_kit)]
              (config (lit "reject") 5 []) (lit "Stray") stray_kit
              stray_kit_wf eq_refl eq_refl (stray_kit_excess _)) as [-> _].
  reflexivity.
Defined.

(** C3 as stated fails: the stray kit fails the threshold of 5 samples and
    has an [other] file, and the reason reported under [reject] is
    [overflow_or_other], not [too_few_samples]. *)
Lemma filter_kits_reject_not_first_reason :
  ~ (forall (kits : list (pystr * Elements)) cfg name elems r,
       dict_wf kits -> dict_get name kits = Some elems ->
       overflow_policy cfg = lit "reject" ->
       threshold_reason cfg (kit_stats elems) = Some r ->
       has_excess cfg elems ->
       rej_reason <$> dict_get name (filter_kits kits cfg).2 = Some r).
Proof.
  intros Hc.
  specialize (Hc [(lit "Stray", stray_kit)] (config (lit "reject") 5 [])
                 (lit "Stray") stray_kit (lit "too_few_samples")
                 stray_kit_wf eq_refl eq_refl eq_refl (stray_kit_excess _)).
  vm_compute in Hc. discriminate Hc.
Qed.

Lemma ten_kicks_wf : dict_wf [(lit "Demo", ten_kicks)].
Proof. apply NoDup_singleton. Qed.

Lemma filter_kits_trash_zone_witness :
  excess_count (config (lit "trash") 0 []) ten_kicks = 2
  /\ exists rej,
       dict_get (lit "Demo")
         (filter_kits [(lit "Demo", ten_kicks)] (config (lit "trash") 0 [])).2
       = Some rej
       /\ rej_reason rej = lit "trash_zone_insufficient"
       /\ trash_needed (rej_details rej) = Some 2
       /\ trash_capacity (rej_details rej) = Some 0.
Proof.
  split; [reflexivity|].
  destruct (filter_kits_trash_zone [(lit "Demo", ten_kicks)]
              (config (lit "trash") 0 []) (lit "Demo") ten_kicks
              ten_kicks_wf eq_refl eq_refl) as (_ & _ & Hz & _).
  exact (Hz eq_refl eq_refl).
Defined.

(** With the trash note 90 the two files fit, and the kit is accepted. *)
Example ten_kicks_fit :
  dict_keys (filter_kits [(lit "Demo", ten_kicks)] (config (lit "trash") 0 [90])).1
    = [lit "Demo"]
  /\ (filter_kits [(lit "Demo", ten_kicks)] (config (lit "trash") 0 [90])).2 = [].
Proof. vm_compute. split; reflexivity. Qed.

(* ===================================================================== *)
(** * File-name sanitizer *)
(* ===================================================================== *)

(** Stripping keeps a contiguous part of the string. *)
Lemma lstrip_suffix s : exists a, s = a ++ lstrip s /\ Forall (fun c => is_space c = true) a.
Proof.
  induction s as [|c s IH]; simpl.
  - exists []. split; [reflexivity|apply Forall_nil; exact I].
  - destruct (is_space c) eqn:Hc.
    + destruct IH as (a & Ha & Hall). exists (c :: a). split.
      * simpl. rewrite <- Ha. reflexivity.
      * apply Forall_cons. split; assumption.
    + exists []. split; [reflexivity|apply Forall_nil; exact I].
Qed.

Lemma lstrip_head s c : head (lstrip s) = Some c -> is_space c = false.
Proof.
  induction s as [|x s IH]; simpl; [discriminate|].
  destruct (is_space x) eqn:Hx; [exact IH|]. simpl. intros [= <-]. exact Hx.
Qed.

Lemma rstrip_prefix s : exists b, s = rstrip s ++ b /\ Forall (fun c => is_space c = true) b.
Proof.
  unfold rstrip. destruct (lstrip_suffix (rev s)) as (a & Ha & Hall).
  exists (rev a). split.
  - rewrite <- rev_app_distr, <- Ha, rev_involutive. reflexivity.
  - apply Forall_forall. intros c Hc. rewrite Forall_forall in Hall.
    apply Hall. apply list_elem_of_In. apply in_rev. apply list_elem_of_In. exact Hc.
Qed.

Lemma last_rev_head {A} (l : list A) : last (rev l) = head l.
Proof.
  destruct l as [|x l]; [reflexivity|]. simpl. apply last_snoc.
Qed.

Lemma rstrip_last s c : last (rstrip s) = Some c -> is_space c = false.
Proof. unfold rstrip. rewrite last_rev_head. apply lstrip_head. Qed.

Lemma strip_infix_blank s :
  exists a b, s = a ++ strip s ++ b
              /\ Forall (fun c => is_space c = true) a
              /\ Forall (fun c => is_space c = true) b.
Proof.
  unfold strip. destruct (lstrip_suffix s) as (a & Ha & Hwa).
  destruct (rstrip_prefix (lstrip s)) as (b & Hb & Hwb).
  exists a, b. rewrite <- Hb. repeat split; assumption.
Qed.

Lemma strip_infix s : exists a b, s = a ++ strip s ++ b.
Proof.
  destruct (strip_infix_blank s) as (a & b & Hs & _). exists a, b. exact Hs.
Qed.

Lemma strip_head s c : head (strip s) = Some c -> is_space c = false.
Proof.
  unfold strip. destruct (rstrip_prefix (lstrip s)) as (b & Hb & _).
  intros Hh. apply (lstrip_head s). rewrite Hb.
  destruct (rstrip (lstrip s)); [discriminate|exact Hh].
Qed.

Lemma strip_last s c : last (strip s) = Some c -> is_space c = false.
Proof. unfold strip. apply rstrip_last. Qed.

Lemma strip_elem s c : c ∈ strip s -> c ∈ s.
Proof.
  destruct (strip_infix s) as (a & b & Hs). remember (strip s) as t eqn:Ht.
  clear Ht. subst s. intros Hc.
  apply elem_of_app. right. apply elem_of_app. left. exact Hc.
Qed.

Lemma strip_blank s : Forall (fun c => is_space c = true) s -> strip s = [].
Proof.
  intros Hall. unfold strip.
  assert (Hl : lstrip s = []).
  { induction s as [|c s IH]; [reflexivity|]. simpl.
    apply Forall_cons in Hall as [Hc Hall]. rewrite Hc. exact (IH Hall). }
  rewrite Hl. reflexivity.
Qed.

(** Neighbours in a stripped string are neighbours in the string. *)
Lemma strip_neighbours s i x y :
  strip s !! i = Some x -> strip s !! S i = Some y ->
  exists j, s !! j = Some x /\ s !! S j = Some y.
Proof.
  destruct (strip_infix s) as (a & b & Hs). remember (strip s) as t eqn:Ht.
  clear Ht. subst s. intros Hx Hy.
  exists (length a + i)%nat. split.
  - rewrite lookup_app_r by lia. replace (length a + i - length a)%nat with i by lia.
    apply lookup_app_l_Some. exact Hx.
  - rewrite lookup_app_r by lia. replace (S (length a + i) - length a)%nat with (S i) by lia.
    apply lookup_app_l_Some. exact Hy.
Qed.

(** A substitution adds only characters of the replacement. *)
Lemma sub_runs_elem p repl in_run s c :
  c ∈ sub_runs p repl in_run s -> (c ∈ s /\ p c = false) \/ c ∈ repl.
Proof.
  revert in_run. induction s as [|x s IH]; intros in_run; simpl.
  - intros Hc. apply elem_of_nil in Hc. destruct Hc.
  - destruct (p x) eqn:Hx.
    + intros Hc. apply elem_of_app in Hc as [Hc|Hc].
      * right. destruct in_run; [apply elem_of_nil in Hc; destruct Hc|exact Hc].
      * destruct (IH _ Hc) as [[Hin Hp]|Hr]; [left|right; exact Hr].
        split; [apply list_elem_of_further, Hin|exact Hp].
    + intros Hc. apply elem_of_cons in Hc as [->|Hc].
      * left. split; [apply list_elem_of_here|exact Hx].
      * destruct (IH _ Hc) as [[Hin Hp]|Hr]; [left|right; exact Hr].
        split; [apply list_elem_of_further, Hin|exact Hp].
Qed.

(** No two whitespace characters in a row. *)
Fixpoint spaced (s : pystr) : Prop :=
  match s with
  | a :: (b :: _) as r => (is_space a = true -> is_space b = false) /\ spaced r
  | _ => True
  end.

Lemma sub_runs_spaced in_run s :
  spaced (sub_runs is_space (lit " ") in_run s)
  /\ (in_run = true ->
      forall c, head (sub_runs is_space (lit " ") in_run s) = Some c -> is_space c = false).
Proof.
  change (lit " ") with [" "%char].
  revert in_run. induction s as [|x s IH]; intros in_run; simpl.
  - split; [exact I|discriminate].
  - destruct (is_space x) eqn:Hx.
    + destruct (IH true) as [Hs Hh]. destruct in_run; simpl.
      * split; [exact Hs|intros _; exact (Hh eq_refl)].
      * split; [|discriminate].
        destruct (sub_runs is_space [" "%char] true s) as [|y r] eqn:Hr; [exact I|].
        split; [intros _; apply (Hh eq_refl); reflexivity|exact Hs].
    + destruct (IH false) as [Hs _]. split.
      * destruct (sub_runs is_space [" "%char] false s) as [|y r]; [exact I|].
        split; [congruence|exact Hs].
      * intros _ c [= <-]. exact Hx.
Qed.

Lemma spaced_lookup s i a b :
  spaced s -> s !! i = Some a -> s !! S i = Some b ->
  is_space a = true -> is_space b = false.
Proof.
  revert i. induction s as [|x s IH]; intros i Hs Ha Hb; [discriminate|].
  destruct s as [|y r]; [discriminate|]. destruct Hs as [Hxy Hs].
  destruct i as [|i]; simpl in Ha, Hb.
  - injection Ha as <-. injection Hb as <-. exact Hxy.
  - exact (IH i Hs Ha Hb).
Qed.

(** The string [sanitize_filename] has before its last test. *)
Definition sanitized_body (name : pystr) : pystr :=
  strip (sub_runs is_space (lit " ") false
           (sub_runs is_forbidden (lit "_") false (strip name))).

Lemma sanitize_filename_body name :
  sanitize_filename name =
    match sanitized_body name with [] => lit "UNTITLED" | _ => sanitized_body name end.
Proof. reflexivity. Qed.

Lemma sanitized_body_elem name c :
  c ∈ sanitized_body name -> is_forbidden c = false /\ (is_space c = true -> c = " "%char).
Proof.
  unfold sanitized_body. intros Hc. apply strip_elem in Hc.
  apply sub_runs_elem in Hc as [[Hc Hsp]|Hc].
  - split; [|congruence].
    apply sub_runs_elem in Hc as [[_ Hf]|Hc]; [exact Hf|].
    apply list_elem_of_singleton in Hc. subst. reflexivity.
  - apply list_elem_of_singleton in Hc. subst. split; reflexivity.
Qed.

(** C10. [sanitize_filename] returns a non-empty string without any of the
    characters backslash, slash, colon, star, question mark, double quote,
    angle brackets and bar, without leading or trailing whitespace, whose
    whitespace is made of single spaces; it is the placeholder [UNTITLED]
    when stripping and substitution leave nothing, as for a blank name. *)
Theorem sanitize_filename_spec (name : pystr) :
  let r := sanitize_filename name in
  r <> []
  /\ (forall c, c ∈ r -> is_forbidden c = false)
  /\ (forall c, head r = Some c -> is_space c = false)
  /\ (forall c, last r = Some c -> is_space c = false)
  /\ (forall c, c ∈ r -> is_space c = true -> c = " "%char)
  /\ (forall i a b, r !! i = Some a -> r !! S i = Some b ->
        is_space a = true -> is_space b = false)
  /\ (sanitized_body name = [] -> r = lit "UNTITLED")
  /\ (sanitized_body name <> [] -> r = sanitized_body name)
  /\ (Forall (fun c => is_space c = true) name -> r = lit "UNTITLED").
Proof.
  intros r. subst r. rewrite sanitize_filename_body.
  assert (Hblank : Forall (fun c => is_space c = true) name -> sanitized_body name = []).
  { intros Hall. unfold sanitized_body. rewrite (strip_blank name Hall). reflexivity. }
  destruct (sanitized_body name) as [|x body] eqn:Hbody.
  - repeat split; try discriminate; try congruence.
    + intros c Hc. vm_compute in Hc.
      repeat (apply elem_of_cons in Hc as [->|Hc]; [reflexivity|]).
      apply elem_of_nil in Hc. destruct Hc.
    + intros c [= <-]. reflexivity.
    + intros c [= <-]. reflexivity.
    + intros c Hc Hsp. vm_compute in Hc.
      repeat (apply elem_of_cons in Hc as [->|Hc]; [discriminate Hsp|]).
      apply elem_of_nil in Hc. destruct Hc.
    + intros i a b Ha Hb Hsp. vm_compute in Ha.
      do 8 (destruct i as [|i]; [injection Ha as <-; discriminate Hsp|]).
      discriminate Ha.
  - rewrite <- Hbody. repeat split.
    + congruence.
    + intros c Hc. apply (sanitized_body_elem name c Hc).
    + apply strip_head.
    + apply strip_last.
    + intros c Hc. apply (sanitized_body_elem name c Hc).
    + intros i a b Ha Hb. unfold sanitized_body in Ha, Hb.
      destruct (strip_neighbours _ _ _ _ Ha Hb) as (j & Hja & Hjb).
      exact (spaced_lookup _ j a b (proj1 (sub_runs_spaced false _)) Hja Hjb).
    + congruence.
    + intros Hall. specialize (Hblank Hall). congruence.
Qed.

Example sanitize_demo :
  sanitize_filename (lit "  My: Kit /  808?  ") = lit "My_ Kit _ 808_".
Proof. reflexivity. Qed.

Example sanitize_blank : sanitize_filename (lit "   ") = lit "UNTITLED".
Proof. reflexivity. Qed.

(* ===================================================================== *)
(** * The ordering rule *)
(* ===================================================================== *)

(** ** The stable sort *)

Section StableSort.
Context {A K : Type} `{EqDecision K} (ltb : K -> K -> bool) (key : A -> K).
Hypothesis ltb_irrefl : forall k, ltb k k = false.
Hypothesis ltb_asym : forall a b, ltb a b = true -> ltb b a = false.
Hypothesis ltb_trans_neg :
  forall a b c, ltb b a = false -> ltb c b = false -> ltb c a = false.

(** [x] may stand in front of [y]. *)
Definition key_le (x y : A) : Prop := ltb (key y) (key x) = false.

Lemma sorted_insert_perm x l : sorted_insert ltb key x l ≡ₚ x :: l.
Proof.
  induction l as [|y r IH]; simpl; [reflexivity|].
  destruct (ltb (key y) (key x)); [|reflexivity].
  rewrite IH. apply Permutation_swap.
Qed.

Lemma py_sorted_perm l : py_sorted ltb key l ≡ₚ l.
Proof.
  induction l as [|x l IH]; simpl; [reflexivity|].
  rewrite sorted_insert_perm, IH. reflexivity.
Qed.

Lemma sorted_insert_sorted x l :
  StronglySorted key_le l -> StronglySorted key_le (sorted_insert ltb key x l).
Proof.
  induction l as [|y r IH]; simpl; intros Hs.
  - apply SSorted_cons; [apply SSorted_nil|apply Forall_nil; exact I].
  - apply StronglySorted_inv in Hs as [Hr Hy].
    destruct (ltb (key y) (key x)) eqn:Hlt.
    + apply SSorted_cons; [exact (IH Hr)|].
      rewrite (sorted_insert_perm x r). apply Forall_cons. split; [|exact Hy].
      unfold key_le. apply ltb_asym. exact Hlt.
    + apply SSorted_cons; [apply SSorted_cons; assumption|].
      apply Forall_cons. split; [exact Hlt|].
      eapply Forall_impl; [exact Hy|]. intros z Hz. unfold key_le in *.
      exact (ltb_trans_neg _ _ _ Hlt Hz).
Qed.

Lemma py_sorted_sorted l : StronglySorted key_le (py_sorted ltb key l).
Proof.
  induction l as [|x l IH]; simpl; [apply SSorted_nil|].
  apply sorted_insert_sorted, IH.
Qed.

Lemma sorted_insert_stable k x l :
  filter (fun a => key a = k) (sorted_insert ltb key x l)
  = filter (fun a => key a = k) (x :: l).
Proof.
  induction l as [|y r IH]; simpl; [reflexivity|].
  destruct (ltb (key y) (key x)) eqn:Hlt; [|reflexivity].
  rewrite (filter_cons _ y), IH, !filter_cons.
  destruct (decide (key x = k)) as [Hx|Hx]; [|reflexivity].
  destruct (decide (key y = k)) as [Hy|Hy]; [|reflexivity].
  rewrite Hx, Hy, ltb_irrefl in Hlt. discriminate.
Qed.

(** Files with the same key keep the order they came in. *)
Lemma py_sorted_stable k l :
  filter (fun a => key a = k) (py_sorted ltb key l) = filter (fun a => key a = k) l.
Proof.
  induction l as [|x l IH]; simpl; [reflexivity|].
  rewrite sorted_insert_stable, !filter_cons, IH. reflexivity.
Qed.

End StableSort.

Lemma strongly_sorted_lookup {A} (R : A -> A -> Prop) (l : list A) i j a b :
  StronglySorted R l -> (i < j)%nat -> l !! i = Some a -> l !! j = Some b -> R a b.
Proof.
  intros Hs. revert i j. induction Hs as [|x l Hs IH Hall]; intros i j Hij Ha Hb; [discriminate|].
  destruct j as [|j]; [lia|]. simpl in Hb. destruct i as [|i]; simpl in Ha.
  - injection Ha as <-. rewrite Forall_forall in Hall. apply Hall.
    apply list_elem_of_lookup. exists j. exact Hb.
  - apply (IH i j); [lia|assumption|assumption].
Qed.

(** ** The order of the keys *)

Lemma str_leb_refl s : str_leb s s = true.
Proof.
  induction s as [|c s IH]; simpl; [reflexivity|].
  rewrite Z.ltb_irrefl, Z.eqb_refl. exact IH.
Qed.

Lemma str_leb_total s t : str_leb s t = false -> str_leb t s = true.
Proof.
  revert t. induction s as [|x s IH]; intros [|y t]; simpl; try discriminate; try reflexivity.
  destruct (code x <? code y) eqn:H1; [discriminate|].
  destruct (code x =? code y) eqn:H2.
  - apply Z.eqb_eq in H2. rewrite <- H2, Z.ltb_irrefl, Z.eqb_refl. apply IH.
  - intros _. apply Z.ltb_ge in H1. apply Z.eqb_neq in H2.
    destruct (code y <? code x) eqn:H3; [reflexivity|]. apply Z.ltb_ge in H3. lia.
Qed.

Lemma str_leb_trans s t u : str_leb s t = true -> str_leb t u = true -> str_leb s u = true.
Proof.
  revert t u. induction s as [|x s IH]; intros [|y t] [|z u]; simpl;
    try discriminate; try reflexivity.
  destruct (code x <? code y) eqn:H1; destruct (code y <? code z) eqn:H2;
    destruct (code x =? code y) eqn:H3; destruct (code y =? code z) eqn:H4;
    destruct (code x <? code z) eqn:H5; destruct (code x =? code z) eqn:H6;
    try discriminate; try reflexivity;
    rewrite ?Z.ltb_lt, ?Z.ltb_ge, ?Z.eqb_eq, ?Z.eqb_neq in *; try lia.
  apply IH.
Qed.

Lemma key_ltb_irrefl k : key_ltb k k = false.
Proof.
  destruct k as [i|s]; simpl; [apply Z.ltb_irrefl|]. rewrite str_leb_refl. reflexivity.
Qed.

Lemma key_ltb_asym a b : key_ltb a b = true -> key_ltb b a = false.
Proof.
  destruct a as [i|s], b as [j|t]; simpl; try discriminate; try reflexivity.
  - rewrite Z.ltb_lt, Z.ltb_ge. lia.
  - rewrite !negb_true_iff, negb_false_iff. apply str_leb_total.
Qed.

Lemma key_ltb_trans_neg a b c :
  key_ltb b a = false -> key_ltb c b = false -> key_ltb c a = false.
Proof.
  destruct a as [i|s], b as [j|t], c as [k|u]; simpl; try discriminate; try reflexivity.
  - rewrite !Z.ltb_ge. lia.
  - rewrite !negb_false_iff. intros H1 H2. exact (str_leb_trans _ _ _ H1 H2).
Qed.

(** ** The ordering rule of the program *)

Section OrderingRule.
Context `{PathLib}.

(** The order the program establishes: files with a trailing index first,
    by ascending index; files without one after them, by lower-cased
    stem. *)
Definition in_order (a b : pystr) : Prop :=
  match extract_trailing_index (path_stem a), extract_trailing_index (path_stem b) with
  | Some m, Some n => m <= n
  | Some _, None => True
  | None, Some _ => False
  | None, None => str_leb (lower (path_stem a)) (lower (path_stem b)) = true
  end.

(** The order of the claim: the index first, then, as a secondary key, the
    lower-cased stem; files without an index last. *)
Definition in_claimed_order (a b : pystr) : Prop :=
  match extract_trailing_index (path_stem a), extract_trailing_index (path_stem b) with
  | Some m, Some n =>
      m < n \/ (m = n /\ str_leb (lower (path_stem a)) (lower (path_stem b)) = true)
  | Some _, None => True
  | None, Some _ => False
  | None, None => str_leb (lower (path_stem a)) (lower (path_stem b)) = true
  end.

Lemma key_le_in_order a b : key_le key_ltb sort_key a b <-> in_order a b.
Proof.
  unfold key_le, in_order, sort_key.
  destruct (extract_trailing_index (path_stem a)) as [m|],
           (extract_trailing_index (path_stem b)) as [n|]; simpl.
  - rewrite Z.ltb_ge. reflexivity.
  - split; [intros _; exact I|reflexivity].
  - split; [discriminate|intros []].
  - rewrite negb_false_iff. reflexivity.
Qed.

(** C8 (amended). [sort_samples_by_trailing_number] returns the paths it
    was given, ordered with the files that have a trailing index first, by
    ascending index, and the files without one after all of them, by the
    lower-cased stem; files with the same index (or the same lower-cased
    stem) keep the order they had in the input. *)
Theorem sort_samples_ordering (paths : list pystr) :
  let out := sort_samples_by_trailing_number paths in
  out ≡ₚ paths
  /\ (forall i j a b, (i < j)%nat -> out !! i = Some a -> out !! j = Some b ->
        in_order a b)
  /\ (forall k, filter (fun p => sort_key p = k) out
                = filter (fun p => sort_key p = k) paths).
Proof.
  intros out. subst out. unfold sort_samples_by_trailing_number. split; [|split].
  - apply py_sorted_perm.
  - intros i j a b Hij Ha Hb. apply key_le_in_order.
    exact (strongly_sorted_lookup _ _ i j a b
             (py_sorted_sorted key_ltb sort_key key_ltb_asym key_ltb_trans_neg paths)
             Hij Ha Hb).
  - intros k. apply py_sorted_stable. exact key_ltb_irrefl.
Qed.

End OrderingRule.

Example sort_demo :
  sort_samples_by_trailing_number
    [lit "/lib/Demo/Kick 10.wav"; lit "/lib/Demo/kick b.wav"; lit "/lib/Demo/Kick 2.wav";
     lit "/lib/Demo/Kick A.wav"; lit "/lib/Demo/Kick 1.wav"]
  = [lit "/lib/Demo/Kick 1.wav"; lit "/lib/Demo/Kick 2.wav"; lit "/lib/Demo/Kick 10.wav";
     lit "/lib/Demo/Kick A.wav"; lit "/lib/Demo/kick b.wav"].
Proof. reflexivity. Qed.

Example same_index_kept :
  sort_samples_by_trailing_number same_index_files = same_index_files.
Proof. reflexivity. Qed.

(** C8 as stated fails: two files with the same index are not put in the
    alphabetical order of their lower-cased stems. *)
Lemma sort_samples_no_secondary_key :
  ~ (forall paths i j a b,
       (i < j)%nat ->
       sort_samples_by_trailing_number paths !! i = Some a ->
       sort_samples_by_trailing_number paths !! j = Some b ->
       in_claimed_order a b).
Proof.
  intros Hc.
  specialize (Hc same_index_files 0%nat 1%nat _ _ ltac:(lia) eq_refl eq_refl).
  vm_compute in Hc. destruct Hc as [Hlt|[_ Hle]]; [discriminate Hlt|discriminate Hle].
Qed.

(* ===================================================================== *)
(** * Note lists *)
(* ===================================================================== *)

Lemma range2_elem a b n : n ∈ range2 a b <-> a <= n < b.
Proof.
  unfold range2. rewrite list_elem_of_fmap. split.
  - intros (k & -> & Hk). apply elem_of_seq in Hk. lia.
  - intros Hn. exists (Z.to_nat (n - a)). split; [lia|]. apply elem_of_seq. lia.
Qed.

(** What a part of a note specification stands for. *)
Definition part_denotes (part : pystr) (n : Z) : Prop :=
  (contains "-" part = true
   /\ exists start end_ a b,
        split1 "-" part = [start; end_]
        /\ py_int start = Some a /\ py_int end_ = Some b /\ a <= n <= b)
  \/ (contains "-" part = false /\ py_int part = Some n).

Lemma parse_note_part_elem part ns n :
  parse_note_part part = Some ns -> (n ∈ ns <-> part_denotes part n).
Proof.
  unfold parse_note_part, part_denotes.
  destruct (contains "-" part) eqn:Hc.
  - destruct (split1 "-" part) as [|start [|end_ [|x r]]] eqn:Hs; try discriminate.
    destruct (py_int start) as [a|] eqn:Ha; [|discriminate].
    destruct (py_int end_) as [b|] eqn:Hb; [|discriminate].
    simpl. intros [= <-]. rewrite range2_elem. split.
    + intros Hn. left. split; [reflexivity|].
      exists start, end_, a, b. repeat split; try assumption; lia.
    + intros [[_ (s' & e' & a' & b' & [= <- <-] & Ha' & Hb' & Hn)]|[Hf _]]; [|discriminate].
      rewrite Ha in Ha'. rewrite Hb in Hb'. injection Ha' as <-. injection Hb' as <-. lia.
  - destruct (py_int part) as [m|] eqn:Hm; [|discriminate].
    simpl. intros [= <-]. rewrite list_elem_of_singleton. split.
    + intros ->. right. split; reflexivity.
    + intros [[Hf _]|[_ [= ->]]]; [discriminate|reflexivity].
Qed.

(** The set [notes] after the loop over the parts. *)
Definition collect_notes (acc : option (gset Z)) (parts : list pystr) : option (gset Z) :=
  foldl (fun acc part =>
           s ← acc; ns ← parse_note_part part; Some (s ∪ list_to_set ns))
        acc parts.

Lemma collect_notes_None parts : collect_notes None parts = None.
Proof. induction parts as [|p parts IH]; [reflexivity|exact IH]. Qed.

Lemma collect_notes_elem parts (acc notes : gset Z) n :
  collect_notes (Some acc) parts = Some notes ->
  (n ∈ notes <-> n ∈ acc \/ exists part, part ∈ parts /\ part_denotes part n).
Proof.
  revert acc. induction parts as [|p parts IH]; intros acc; unfold collect_notes; simpl.
  - intros [= <-]. split; [intros Hn; left; exact Hn|].
    intros [Hn|(part & Hin & _)]; [exact Hn|]. apply elem_of_nil in Hin. destruct Hin.
  - destruct (parse_note_part p) as [ns|] eqn:Hp; simpl.
    + intros Hf. fold (collect_notes (Some (acc ∪ list_to_set ns)) parts) in Hf.
      rewrite (IH _ Hf), elem_of_union, elem_of_list_to_set,
        (parse_note_part_elem p ns n Hp).
      split.
      * intros [[Hn|Hn]|(part & Hin & Hd)].
        -- left. exact Hn.
        -- right. exists p. split; [apply list_elem_of_here|exact Hn].
        -- right. exists part. split; [apply list_elem_of_further, Hin|exact Hd].
      * intros [Hn|(part & Hin & Hd)]; [left; left; exact Hn|].
        apply elem_of_cons in Hin as [->|Hin]; [left; right; exact Hd|].
        right. exists part. split; assumption.
    + intros Hf. fold (collect_notes None parts) in Hf.
      rewrite collect_notes_None in Hf. discriminate.
Qed.

Lemma strongly_sorted_strict (l : list Z) :
  StronglySorted (fun x y => (y <? x) = false) l -> NoDup l -> StronglySorted Z.lt l.
Proof.
  induction 1 as [|x l Hs IH Hall]; intros Hnd; [apply SSorted_nil|].
  apply NoDup_cons in Hnd as [Hx Hnd]. apply SSorted_cons; [exact (IH Hnd)|].
  rewrite Forall_forall in Hall |- *. intros y Hy.
  specialize (Hall y Hy). simpl in Hall. apply Z.ltb_ge in Hall.
  assert (x <> y) by (intros ->; contradiction). lia.
Qed.

(** Sorting a set of integers: ascending, each member once. *)
Lemma sorted_set_spec (notes : gset Z) :
  StronglySorted Z.lt (py_sorted Z.ltb id (elements notes))
  /\ forall n, n ∈ py_sorted Z.ltb id (elements notes) <-> n ∈ notes.
Proof.
  pose proof (py_sorted_perm Z.ltb id (elements notes)) as Hp. split.
  - apply strongly_sorted_strict.
    + apply (py_sorted_sorted Z.ltb id).
      * intros a b. rewrite Z.ltb_lt, Z.ltb_ge. lia.
      * intros a b c. rewrite !Z.ltb_ge. lia.
    + rewrite Hp. apply NoDup_elements.
  - intros n. rewrite Hp. apply elem_of_elements.
Qed.

(** In an integer literal a minus sign can only be the sign. *)
Lemma int_digits_no_dash s acc after n :
  0 <= acc -> int_digits acc after s = Some n ->
  0 <= n /\ Forall (fun c => c <> "-"%char) s.
Proof.
  revert acc after. induction s as [|c s IH]; intros acc after Hacc; simpl.
  - destruct after; [|discriminate]. intros [= <-]. split; [exact Hacc|apply Forall_nil; exact I].
  - destruct (is_digit c) eqn:Hd.
    + intros Hi. apply IH in Hi as [Hn Hall].
      * split; [exact Hn|]. apply Forall_cons. split; [|exact Hall].
        intros ->. discriminate Hd.
      * unfold is_digit in Hd. apply andb_true_iff in Hd as [H1 H2].
        unfold digit_val. lia.
    + destruct (Ascii.eqb c "_") eqn:Hu; simpl; [|discriminate].
      destruct after; simpl; [|discriminate].
      destruct s as [|c' s']; [discriminate|]. intros Hi.
      apply IH in Hi as [Hn Hall]; [|exact Hacc].
      split; [exact Hn|]. apply Forall_cons. split; [|exact Hall].
      apply Ascii.eqb_eq in Hu. subst. discriminate.
Qed.

Lemma contains_elem c s : contains c s = true <-> c ∈ s.
Proof.
  unfold contains. rewrite existsb_exists. split.
  - intros (x & Hin & Hx). apply Ascii.eqb_eq in Hx. subst. apply list_elem_of_In. exact Hin.
  - intros Hin. exists c. split; [apply list_elem_of_In; exact Hin|apply Ascii.eqb_refl].
Qed.

Lemma py_int_dash tok n :
  py_int tok = Some n -> contains "-" tok = true -> n <= 0.
Proof.
  unfold py_int. intros Hi Hc. apply contains_elem in Hc.
  assert (Hs : "-"%char ∈ strip tok).
  { destruct (strip_infix_blank tok) as (a & b & Ht & Ha & Hb).
    remember (strip tok) as t eqn:Et. clear Et Hi. subst tok.
    rewrite Forall_forall in Ha, Hb.
    apply elem_of_app in Hc as [Hc|Hc]; [specialize (Ha _ Hc); discriminate Ha|].
    apply elem_of_app in Hc as [Hc|Hc]; [exact Hc|specialize (Hb _ Hc); discriminate Hb]. }
  destruct (strip tok) as [|c r]; [discriminate|].
  destruct (Ascii.eqb c "-") eqn:Hm.
  - destruct (int_digits 0 false r) as [m|] eqn:Hd; [|discriminate].
    simpl in Hi. injection Hi as <-.
    apply int_digits_no_dash in Hd as [Hm0 _]; lia.
  - apply Ascii.eqb_neq in Hm. exfalso.
    assert (Hall : Forall (fun x => x <> "-"%char) (c :: r)).
    { destruct (Ascii.eqb c "+") eqn:Hp.
      - apply int_digits_no_dash in Hi as [_ Hall]; [|lia].
        apply Forall_cons. split; assumption.
      - apply int_digits_no_dash in Hi as [_ Hall]; [exact Hall|lia]. }
    rewrite Forall_forall in Hall. exact (Hall _ Hs eq_refl).
Qed.

(** C9 (amended). A note specification parsed by [parse_midi_note_list]
    (the trash-note list) is read part by part: a part [a-b] stands for
    all integers a..b inclusive, another part for one integer; duplicates
    are removed and the list is sorted ascending.  The right side of a
    line of the mapping definition is not read that way: each of its
    parts is one integer, kept in place, and a part with a minus sign is
    a literal that is not positive, never a range. *)
Theorem note_lists_parsed :
  (forall spec notes,
     parse_midi_note_list spec = Some notes ->
     StronglySorted Z.lt notes
     /\ forall n, n ∈ notes <->
                  exists part, part ∈ stripped_fields "," spec /\ part_denotes part n)
  /\ (forall right_ notes,
        right_ <> [] ->
        parse_line_notes right_ = Some notes ->
        Forall2 (fun part n =>
                   py_int part = Some n /\ (contains "-" part = true -> n <= 0))
                (stripped_fields "," right_) notes).
Proof.
  split.
  - intros spec notes. unfold parse_midi_note_list.
    fold (collect_notes (Some ∅) (stripped_fields "," spec)).
    destruct (collect_notes (Some ∅) (stripped_fields "," spec)) as [S|] eqn:Hc;
      [|discriminate].
    simpl. intros [= <-]. destruct (sorted_set_spec S) as [Hs Hm].
    split; [exact Hs|]. intros n. rewrite Hm, (collect_notes_elem _ _ _ n Hc).
    split; [intros [Hn|Hn]; [apply elem_of_empty in Hn; destruct Hn|exact Hn]|].
    intros Hn. right. exact Hn.
  - intros right_ notes Hne. unfold parse_line_notes.
    rewrite bool_decide_eq_false_2 by exact Hne.
    intros Hm. apply mapM_Some in Hm.
    eapply Forall2_impl; [exact Hm|]. intros part n Hp.
    split; [exact Hp|apply py_int_dash, Hp].
Qed.

Example trash_notes_default :
  parse_midi_note_list (lit "82-127") = Some (range2 82 128).
Proof. vm_compute. reflexivity. Qed.

Example note_list_mixed :
  parse_midi_note_list (lit " 40, 36-38 ,37,40") = Some [36; 37; 38; 40].
Proof. vm_compute. reflexivity. Qed.

Example mapping_range_rejected : parse_mapping_file [lit "kick:36-38"] = None.
Proof. reflexivity. Qed.

Example mapping_notes_kept :
  parse_mapping_file [lit "kick:38,36,36"]
  = Some [(lit "kick",
           {| canonical := lit "kick"; synonyms := [lit "kick"];
              midi_notes := Some [38; 36; 36] |})].
Proof. reflexivity. Qed.

Lemma note_lists_parsed_witness :
  StronglySorted Z.lt [36; 37; 38; 40]
  /\ Forall2 (fun part n =>
                py_int part = Some n /\ (contains "-" part = true -> n <= 0))
             (stripped_fields "," (lit "38,36,36")) [38; 36; 36].
Proof.
  destruct note_lists_parsed as [Ha Hb]. split.
  - exact (proj1 (Ha (lit " 40, 36-38 ,37,40") [36; 37; 38; 40] note_list_mixed)).
  - apply (Hb (lit "38,36,36") [38; 36; 36]); [discriminate|reflexivity].
Defined.

(** C9 as stated fails: a line of the mapping definition with the note
    token [36-38] is not parsed into the notes 36, 37, 38 (it is an error),
    and the notes of a line are neither sorted nor freed of duplicates. *)
Lemma mapping_line_no_range :
  ~ ((exists m e,
        parse_mapping_file [lit "kick:36-38"] = Some m
        /\ dict_get (lit "kick") m = Some e
        /\ midi_notes e = Some [36; 37; 38])
     \/ (exists m e,
           parse_mapping_file [lit "kick:38,36,36"] = Some m
           /\ dict_get (lit "kick") m = Some e
           /\ midi_notes e = Some [36; 38])).
Proof.
  intros [(m & e & Hp & _)|(m & e & Hp & Hg & Hn)].
  - rewrite mapping_range_rejected in Hp. discriminate Hp.
  - rewrite mapping_notes_kept in Hp. injection Hp as <-.
    vm_compute in Hg. injection Hg as <-. discriminate Hn.
Qed.

(* ===================================================================== *)
(** * Assignment *)
(* ===================================================================== *)

(** ** Notes and their samples *)

Lemma lookup_push_ne note n samples (nts : gmap Z (list pystr)) :
  note <> n -> push note samples nts !! n = nts !! n.
Proof. intros Hne. unfold push. apply lookup_insert_ne. exact Hne. Qed.

Lemma samples_at_push_eq note samples (nts : gmap Z (list pystr)) :
  samples_at (push note samples nts) note = samples_at nts note ++ samples.
Proof. unfold samples_at at 1, push. rewrite lookup_insert_eq. reflexivity. Qed.

Lemma samples_at_push_ne note n samples (nts : gmap Z (list pystr)) :
  note <> n -> samples_at (push note samples nts) n = samples_at nts n.
Proof. intros Hne. unfold samples_at. rewrite lookup_push_ne by exact Hne. reflexivity. Qed.

Lemma slice_length {A} (l : list A) i j :
  length (slice l i j) = Nat.min (j - i) (length l - i).
Proof. unfold slice. rewrite length_take, length_drop. reflexivity. Qed.

(** No note holds more than 8 files. *)
Definition bounded (nts : gmap Z (list pystr)) : Prop :=
  forall n, (length (samples_at nts n) <= 8)%nat.

Lemma bounded_lookup nts n files :
  bounded nts -> nts !! n = Some files -> (length files <= 8)%nat.
Proof. intros Hb Hn. specialize (Hb n). unfold samples_at in Hb. rewrite Hn in Hb. exact Hb. Qed.

Lemma bounded_empty : bounded ∅.
Proof. intros n. unfold samples_at. rewrite lookup_empty. simpl. lia. Qed.

(** ** The loop of [push_trash] *)

(** The loop ends within its fuel; it drops notes from the front of the
    pool only, touches no note outside the pool, and overfills none. *)
Lemma push_trash_loop_ends fuel samples idx (nts : gmap Z (list pystr)) pool :
  (length samples - idx + length pool <= fuel)%nat ->
  exists idx' nts' pool',
    push_trash_loop fuel samples idx nts pool = Some (idx', nts', pool')
    /\ pool' `suffix_of` pool
    /\ (forall n, n ∉ pool -> nts' !! n = nts !! n)
    /\ (bounded nts -> bounded nts').
Proof.
  revert idx nts pool. induction fuel as [|fuel IH]; intros idx nts pool Hm.
  - destruct pool as [|note tail]; [|simpl in Hm; lia].
    exists idx, nts, []. repeat split; try reflexivity. intros Hb; exact Hb.
  - destruct pool as [|note tail].
    { exists idx, nts, []. repeat split; try reflexivity. intros Hb; exact Hb. }
    cbn [push_trash_loop]. simpl in Hm.
    destruct (idx <? length samples)%nat eqn:Hidx.
    2:{ exists idx, nts, (note :: tail). repeat split; try reflexivity. intros Hb; exact Hb. }
    apply Nat.ltb_lt in Hidx.
    destruct (LAYER_LIMIT_PER_PAD - len (samples_at nts note) <=? 0) eqn:Hsp.
    + destruct (IH idx nts tail ltac:(lia)) as (idx' & nts' & pool' & Hl & Hsuf & Hout & Hb).
      exists idx', nts', pool'. split; [exact Hl|]. split; [apply suffix_cons_r, Hsuf|].
      split; [|exact Hb]. intros n Hn. apply Hout. intros Hin. apply Hn, list_elem_of_further, Hin.
    + apply Z.leb_gt in Hsp. unfold LAYER_LIMIT_PER_PAD, len in Hsp.
      set (space := Z.to_nat (LAYER_LIMIT_PER_PAD - len (samples_at nts note))).
      assert (Hspace : (space = 8 - length (samples_at nts note))%nat)
        by (unfold space, LAYER_LIMIT_PER_PAD, len; lia).
      set (taken := slice samples idx (idx + space)).
      assert (Htaken : (1 <= length taken <= space)%nat).
      { unfold taken. rewrite slice_length. lia. }
      assert (Hb2 : bounded nts -> bounded (push note taken nts)).
      { intros Hb n. destruct (decide (note = n)) as [<-|Hne].
        - rewrite samples_at_push_eq, length_app. lia.
        - rewrite samples_at_push_ne by exact Hne. apply Hb. }
      destruct (len (samples_at (push note taken nts) note) >=? LAYER_LIMIT_PER_PAD).
      * destruct (IH (idx + length taken)%nat (push note taken nts) tail ltac:(lia))
          as (idx' & nts' & pool' & Hl & Hsuf & Hout & Hb).
        exists idx', nts', pool'. split; [exact Hl|]. split; [apply suffix_cons_r, Hsuf|].
        split; [|intros Hbn; exact (Hb (Hb2 Hbn))].
        intros n Hn. apply not_elem_of_cons in Hn as [Hne Hn].
        rewrite (Hout n Hn). apply lookup_push_ne. congruence.
      * destruct (IH (idx + length taken)%nat (push note taken nts) (note :: tail)
                    ltac:(simpl; lia))
          as (idx' & nts' & pool' & Hl & Hsuf & Hout & Hb).
        exists idx', nts', pool'. split; [exact Hl|]. split; [exact Hsuf|].
        split; [|intros Hbn; exact (Hb (Hb2 Hbn))].
        intros n Hn. rewrite (Hout n Hn). apply not_elem_of_cons in Hn as [Hne Hn].
        apply lookup_push_ne. congruence.
Qed.

(** [push_trash] returns. *)
Lemma push_trash_ends samples st :
  exists st',
    push_trash samples st = Some st'
    /\ trash_pool st' `suffix_of` trash_pool st
    /\ (forall n, n ∉ trash_pool st -> note_to_samples st' !! n = note_to_samples st !! n)
    /\ (bounded (note_to_samples st) -> bounded (note_to_samples st')).
Proof.
  unfold push_trash.
  destruct (push_trash_loop_ends (push_trash_fuel samples (trash_pool st)) samples 0
              (note_to_samples st) (trash_pool st))
    as (idx' & nts' & pool' & Hl & Hsuf & Hout & Hb).
  { unfold push_trash_fuel. lia. }
  rewrite Hl. simpl. eexists. split; [reflexivity|]. simpl.
  split; [exact Hsuf|]. split; [exact Hout|exact Hb].
Qed.

(** ** Reserved notes *)

(** The notes of an entry. *)
Definition entry_notes (entry : MappingEntry) : list Z := default [] (midi_notes entry).

(** The notes the categories of a mapping reserve, in the order of the
    mapping. *)
Definition reserved_notes (mapping : Mapping) : list Z :=
  concat (map entry_notes (dict_values mapping)).

Lemma elem_of_concat {A} (x : A) (ls : list (list A)) :
  x ∈ concat ls <-> exists l, x ∈ l /\ l ∈ ls.
Proof.
  induction ls as [|l ls IH]; simpl.
  - split; [intros Hx; apply elem_of_nil in Hx; destruct Hx|].
    intros (l & _ & Hl). apply elem_of_nil in Hl. destruct Hl.
  - rewrite elem_of_app, IH. split.
    + intros [Hx|(l' & Hx & Hl)].
      * exists l. split; [exact Hx|apply list_elem_of_here].
      * exists l'. split; [exact Hx|apply list_elem_of_further, Hl].
    + intros (l' & Hx & Hl). apply elem_of_cons in Hl as [->|Hl]; [left; exact Hx|].
      right. exists l'. split; assumption.
Qed.

Lemma category_notes_entry (mapping : Mapping) category :
  category_notes mapping category = []
  \/ exists entry, dict_get category mapping = Some entry
                   /\ category_notes mapping category = entry_notes entry.
Proof.
  unfold category_notes. destruct (dict_get category mapping) as [e|]; [|left; reflexivity].
  right. exists e. split; reflexivity.
Qed.

Lemma entry_notes_reserved (mapping : Mapping) category entry n :
  dict_get category mapping = Some entry -> n ∈ entry_notes entry -> n ∈ reserved_notes mapping.
Proof.
  intros Hg Hn. unfold reserved_notes. apply elem_of_concat.
  exists (entry_notes entry). split; [exact Hn|].
  apply list_elem_of_fmap. exists entry. split; [reflexivity|].
  apply list_elem_of_fmap. exists (category, entry). split; [reflexivity|].
  apply dict_get_Some_elem. exact Hg.
Qed.

Lemma category_notes_reserved (mapping : Mapping) category n :
  n ∈ category_notes mapping category -> n ∈ reserved_notes mapping.
Proof.
  destruct (category_notes_entry mapping category) as [->|(e & Hg & ->)].
  - intros Hn. apply elem_of_nil in Hn. destruct Hn.
  - apply entry_notes_reserved with category. exact Hg.
Qed.

Lemma category_notes_NoDup (mapping : Mapping) category :
  NoDup (reserved_notes mapping) -> NoDup (category_notes mapping category).
Proof.
  unfold category_notes, reserved_notes, dict_values.
  induction mapping as [|[k v] m IH]; simpl; intros Hnd; [apply NoDup_nil; exact I|].
  apply NoDup_app in Hnd as (Hv & _ & Hm).
  destruct (decide (k = category)); [exact Hv|exact (IH Hm)].
Qed.

(** Two categories share no note when no note is reserved twice. *)
Lemma category_notes_disjoint (mapping : Mapping) c c' n :
  NoDup (reserved_notes mapping) -> c <> c' ->
  n ∈ category_notes mapping c -> n ∈ category_notes mapping c' -> False.
Proof.
  unfold reserved_notes, dict_values.
  induction mapping as [|[k v] m IH]; intros Hnd Hne Hc Hc'.
  - apply elem_of_nil in Hc. destruct Hc.
  - simpl in Hnd. apply NoDup_app in Hnd as (_ & Hdis & Hm).
    unfold category_notes in Hc, Hc'. simpl in Hc, Hc'.
    destruct (decide (k = c)) as [Hk|Hk]; destruct (decide (k = c')) as [Hk'|Hk'].
    + congruence.
    + apply (Hdis n Hc). apply (category_notes_reserved m c'). exact Hc'.
    + apply (Hdis n Hc'). apply (category_notes_reserved m c). exact Hc.
    + exact (IH Hm Hne Hc Hc').
Qed.

Lemma mapped_notes_fold (entries : list MappingEntry) (acc : gset Z) n :
  n ∈ foldl (fun acc entry =>
               match midi_notes entry with
               | Some ((_ :: _) as notes) => acc ∪ list_to_set notes
               | _ => acc
               end) acc entries
  <-> n ∈ acc \/ n ∈ concat (map entry_notes entries).
Proof.
  revert acc. induction entries as [|e entries IH]; intros acc; simpl.
  - split; [intros Hn; left; exact Hn|intros [Hn|Hn]; [exact Hn|]].
    apply elem_of_nil in Hn. destruct Hn.
  - rewrite IH, elem_of_app. unfold entry_notes at 2.
    destruct (midi_notes e) as [[|x notes]|]; cbn [default];
      rewrite ?elem_of_union, ?elem_of_list_to_set, ?elem_of_nil; tauto.
Qed.

Lemma mapped_notes_reserved (mapping : Mapping) n :
  n ∈ mapped_notes mapping <-> n ∈ reserved_notes mapping.
Proof.
  unfold mapped_notes, reserved_notes. rewrite mapped_notes_fold.
  split; [intros [Hn|Hn]; [apply elem_of_empty in Hn; destruct Hn|exact Hn]|].
  intros Hn. right. exact Hn.
Qed.

(** The trash pool: the trash notes no category reserves. *)
Lemma initial_pool_elem (mapping : Mapping) trash n :
  n ∈ trash_pool (initial_state mapping trash)
  <-> n ∈ trash /\ n ∉ reserved_notes mapping.
Proof.
  unfold initial_state. simpl. rewrite list_elem_of_filter, mapped_notes_reserved. tauto.
Qed.

(** ** The notes of a category *)

Lemma fill_notes_spec notes files idx (nts : gmap Z (list pystr)) :
  (forall n, n ∉ notes -> (fill_notes notes files idx nts).1 !! n = nts !! n)
  /\ (bounded nts -> NoDup notes -> (forall n, n ∈ notes -> samples_at nts n = []) ->
      bounded (fill_notes notes files idx nts).1).
Proof.
  revert idx nts. induction notes as [|note rest IH]; intros idx nts; simpl.
  - split; [reflexivity|intros Hb _ _; exact Hb].
  - set (chunk := slice files idx (idx + Z.to_nat LAYER_LIMIT_PER_PAD)).
    assert (Hlen : (length chunk <= 8)%nat).
    { unfold chunk. rewrite slice_length. unfold LAYER_LIMIT_PER_PAD. lia. }
    destruct chunk as [|f chunk'] eqn:Hchunk.
    { split; [reflexivity|intros Hb _ _; exact Hb]. }
    rewrite <- Hchunk in *. clear Hchunk.
    destruct (IH (idx + length chunk)%nat (push note chunk nts)) as [Hout Hbnd]. split.
    + intros n Hn. apply not_elem_of_cons in Hn as [Hne Hn].
      rewrite (Hout n Hn). apply lookup_push_ne. congruence.
    + intros Hb Hnd Hfresh. apply NoDup_cons in Hnd as [Hnote Hnd]. apply Hbnd.
      * intros n. destruct (decide (note = n)) as [<-|Hne].
        -- rewrite samples_at_push_eq, (Hfresh note) by apply list_elem_of_here.
           exact Hlen.
        -- rewrite samples_at_push_ne by exact Hne. apply Hb.
      * exact Hnd.
      * intros n Hn. rewrite samples_at_push_ne by (intros ->; contradiction).
        apply Hfresh, list_elem_of_further, Hn.
Qed.

(** ** One category, then all of them *)

Lemma assign_category_spec (mapping : Mapping) policy st category files :
  exists st',
    assign_category mapping policy st (category, files) = Some st'
    /\ trash_pool st' `suffix_of` trash_pool st
    /\ (forall n, n ∉ trash_pool st -> n ∉ category_notes mapping category ->
          note_to_samples st' !! n = note_to_samples st !! n)
    /\ (bounded (note_to_samples st) ->
        NoDup (category_notes mapping category) ->
        (forall n, n ∈ category_notes mapping category ->
           samples_at (note_to_samples st) n = []) ->
        bounded (note_to_samples st')).
Proof.
  unfold assign_category.
  assert (Hsame : exists st', Some st = Some st'
    /\ trash_pool st' `suffix_of` trash_pool st
    /\ (forall n, n ∉ trash_pool st -> n ∉ category_notes mapping category ->
          note_to_samples st' !! n = note_to_samples st !! n)
    /\ (bounded (note_to_samples st) ->
        NoDup (category_notes mapping category) ->
        (forall n, n ∈ category_notes mapping category ->
           samples_at (note_to_samples st) n = []) ->
        bounded (note_to_samples st'))).
  { exists st. repeat split; try reflexivity. intros Hb _ _. exact Hb. }
  destruct (bool_decide (category = lit "other")).
  - destruct (to_trash policy); [|exact Hsame].
    destruct (push_trash_ends files st) as (st' & Hp & Hsuf & Hout & Hb).
    exists st'. split; [exact Hp|]. split; [exact Hsuf|].
    split; [intros n Hn _; exact (Hout n Hn)|intros Hbn _ _; exact (Hb Hbn)].
  - clear Hsame.
    destruct (fill_notes_spec (category_notes mapping category) files 0 (note_to_samples st))
      as [Hfout Hfb].
    destruct (fill_notes (category_notes mapping category) files 0 (note_to_samples st))
      as [nts idx] eqn:Hfill. simpl in Hfout, Hfb.
    set (st1 := {| note_to_samples := nts; trash_pool := trash_pool st;
                   warnings := warnings st |}).
    assert (Hst1 : forall st2,
      trash_pool st2 `suffix_of` trash_pool st1 ->
      (forall n, n ∉ trash_pool st1 -> note_to_samples st2 !! n = note_to_samples st1 !! n) ->
      (bounded (note_to_samples st1) -> bounded (note_to_samples st2)) ->
      trash_pool st2 `suffix_of` trash_pool st
      /\ (forall n, n ∉ trash_pool st -> n ∉ category_notes mapping category ->
            note_to_samples st2 !! n = note_to_samples st !! n)
      /\ (bounded (note_to_samples st) ->
          NoDup (category_notes mapping category) ->
          (forall n, n ∈ category_notes mapping category ->
             samples_at (note_to_samples st) n = []) ->
          bounded (note_to_samples st2))).
    { intros st2 Hsuf Hout Hb. split; [exact Hsuf|]. split.
      - intros n Hn Hc. rewrite (Hout n Hn). exact (Hfout n Hc).
      - intros Hbn Hnd Hfresh. apply Hb. exact (Hfb Hbn Hnd Hfresh). }
    destruct (drop idx files) as [|o overflow] eqn:Hover.
    { exists st1. split; [reflexivity|]. apply Hst1; [reflexivity|reflexivity|tauto]. }
    destruct (bool_decide (policy = lit "truncate")).
    { eexists. split; [reflexivity|]. apply Hst1; [reflexivity|reflexivity|tauto]. }
    destruct (to_trash policy).
    + destruct (push_trash_ends (o :: overflow) st1) as (st' & Hp & Hsuf & Hout & Hb).
      exists st'. split; [exact Hp|]. apply Hst1; assumption.
    + exists st1. split; [reflexivity|]. apply Hst1; [reflexivity|reflexivity|tauto].
Qed.

(** The loop over the categories of a kit, from any state. *)
Definition assign_from (mapping : Mapping) (policy : pystr) (st : AssignState)
    (items : Elements) : option AssignState :=
  foldl (fun acc item => acc ≫= fun st => assign_category mapping policy st item)
        (Some st) items.

Lemma assign_from_spec (mapping : Mapping) policy (items : Elements) st :
  exists st',
    assign_from mapping policy st items = Some st'
    /\ trash_pool st' `suffix_of` trash_pool st
    /\ (forall n, n ∉ trash_pool st ->
          (forall c, c ∈ dict_keys items -> n ∉ category_notes mapping c) ->
          note_to_samples st' !! n = note_to_samples st !! n)
    /\ (bounded (note_to_samples st) ->
        dict_wf items -> NoDup (reserved_notes mapping) ->
        (forall n, n ∈ trash_pool st -> n ∉ reserved_notes mapping) ->
        (forall c n, c ∈ dict_keys items -> n ∈ category_notes mapping c ->
           samples_at (note_to_samples st) n = []) ->
        bounded (note_to_samples st')).
Proof.
  revert st. induction items as [|[c files] items IH]; intros st.
  - exists st. repeat split; try reflexivity. intros Hb _ _ _ _. exact Hb.
  - unfold assign_from. cbn [foldl mbind option_bind].
    destruct (assign_category_spec mapping policy st c files)
      as (st1 & Hc & Hsuf1 & Hout1 & Hb1).
    rewrite Hc. fold (assign_from mapping policy st1 items).
    destruct (IH st1) as (st' & Hl & Hsuf & Hout & Hb).
    assert (Hpool : forall n, n ∉ trash_pool st -> n ∉ trash_pool st1).
    { intros n Hn Hin. apply Hn. destruct Hsuf1 as [k ->].
      apply elem_of_app. right. exact Hin. }
    exists st'. split; [exact Hl|]. split; [etransitivity; eassumption|]. split.
    + intros n Hn Hcat. rewrite (Hout n (Hpool n Hn)).
      * apply Hout1; [exact Hn|]. apply Hcat, list_elem_of_here.
      * intros c' Hc'. apply Hcat, list_elem_of_further, Hc'.
    + intros Hbn Hwf Hnd Hdis Hfresh. unfold dict_wf in Hwf. cbn [dict_keys map fst] in Hwf.
      apply NoDup_cons in Hwf as [Hcnew Hwf]. apply Hb.
      * apply Hb1; [exact Hbn|apply category_notes_NoDup, Hnd|].
        intros n Hn. apply (Hfresh c n); [apply list_elem_of_here|exact Hn].
      * exact Hwf.
      * exact Hnd.
      * intros n Hn. apply Hdis. destruct Hsuf1 as [k ->].
        apply elem_of_app. right. exact Hn.
      * intros c' n Hc' Hn. unfold samples_at. rewrite Hout1.
        -- apply (Hfresh c' n); [apply list_elem_of_further, Hc'|exact Hn].
        -- intros Hin. apply (Hdis n Hin). apply (category_notes_reserved mapping c'), Hn.
        -- intros Hin. apply (category_notes_disjoint mapping c c' n Hnd); try assumption.
           intros ->. contradiction.
Qed.

(** C2 (amended). [assign_samples_to_notes] returns for every kit,
    mapping and trash-note list, and every note key of its assignment is
    a note reserved by a category of the mapping or a member of the trash
    pool; when no note is reserved twice in the mapping, no note receives
    more than 8 files. *)
Theorem assign_notes_invariant (kit_elements : Elements) (mapping : Mapping)
    (overflow_policy : pystr) (trash_notes : list Z) :
  exists nts warns,
    assign_samples_to_notes kit_elements mapping overflow_policy trash_notes
      = Some (nts, warns)
    /\ (forall note files,
          nts !! note = Some files ->
          note ∈ reserved_notes mapping
          \/ note ∈ trash_pool (initial_state mapping trash_notes))
    /\ (dict_wf kit_elements -> NoDup (reserved_notes mapping) ->
        forall note files, nts !! note = Some files -> (length files <= 8)%nat).
Proof.
  unfold assign_samples_to_notes, assign_loop.
  destruct (assign_from_spec mapping overflow_policy kit_elements
              (initial_state mapping trash_notes)) as (st & Hl & _ & Hout & Hb).
  unfold assign_from in Hl. rewrite Hl. simpl.
  exists (note_to_samples st), (warnings st). split; [reflexivity|]. split.
  - intros note files Hn.
    destruct (decide (note ∈ trash_pool (initial_state mapping trash_notes)))
      as [Hin|Hnin]; [right; exact Hin|].
    left. destruct (decide (note ∈ reserved_notes mapping)) as [Hr|Hr]; [exact Hr|].
    exfalso. rewrite Hout in Hn.
    + simpl in Hn. rewrite lookup_empty in Hn. discriminate Hn.
    + exact Hnin.
    + intros c _ Hc. apply Hr. apply (category_notes_reserved mapping c), Hc.
  - intros Hwf Hnd note files Hn. apply (bounded_lookup (note_to_samples st) note files); [|exact Hn].
    apply Hb; try assumption.
    + apply bounded_empty.
    + intros n Hin. apply initial_pool_elem in Hin. tauto.
    + intros c n _ _. unfold samples_at. simpl. rewrite lookup_empty. reflexivity.
Qed.

(** The scenario of the specification under [trash]: 10 files for one
    note, the trash note 90 takes the last two. *)
Example ten_kicks_assigned :
  exists nts warns,
    assign_samples_to_notes (sorted_elements ten_kicks) demo_mapping (lit "trash") [90]
      = Some (nts, warns)
    /\ nts !! 36 = Some (take 8 (kick_files 10))
    /\ nts !! 90 = Some (drop 8 (kick_files 10))
    /\ warns = [].
Proof. eexists _, _. split; [vm_compute; reflexivity|]. repeat split. Qed.

Example ten_kicks_truncated :
  exists nts,
    assign_samples_to_notes (sorted_elements ten_kicks) demo_mapping (lit "truncate") []
      = Some (nts, [lit "Overflow in kick, truncated 2"])
    /\ nts !! 36 = Some (take 8 (kick_files 10)).
Proof. eexists. split; [vm_compute; reflexivity|]. reflexivity. Qed.

Lemma demo_mapping_reserved : NoDup (reserved_notes demo_mapping).
Proof. apply NoDup_singleton. Qed.

Lemma assign_notes_invariant_witness :
  exists nts warns,
    assign_samples_to_notes ten_kicks demo_mapping (lit "trash") [90] = Some (nts, warns)
    /\ forall note files, nts !! note = Some files -> (length files <= 8)%nat.
Proof.
  destruct (assign_notes_invariant ten_kicks demo_mapping (lit "trash") [90])
    as (nts & warns & Ha & _ & Hb).
  exists nts, warns. split; [exact Ha|].
  apply Hb; [apply NoDup_singleton|exact demo_mapping_reserved].
Defined.

Lemma shared_note_kit_wf : dict_wf shared_note_kit.
Proof.
  apply NoDup_cons. split; [|apply NoDup_singleton].
  intros Hin. apply list_elem_of_singleton in Hin. discriminate Hin.
Qed.

(** C2 as stated fails: when two categories reserve note 36, a kit with 8
    kick files and one snare file puts 9 files under note 36. *)
Lemma assign_notes_shared_note_overfull :
  ~ (forall (kit_elements : Elements) (mapping : Mapping) overflow_policy trash_notes
            nts warns note files,
       dict_wf kit_elements ->
       assign_samples_to_notes kit_elements mapping overflow_policy trash_notes
         = Some (nts, warns) ->
       nts !! note = Some files -> (length files <= 8)%nat).
Proof.
  intros Hc.
  specialize (Hc shared_note_kit shared_note_mapping (lit "trash") [90]
                 _ _ 36 (kick_files 8 ++ [lit "/lib/Demo/Snare 1.wav"])
                 shared_note_kit_wf eq_refl).
  specialize (Hc ltac:(vm_compute; reflexivity)). vm_compute in Hc. lia.
Qed.

(** ** The trash pool *)

Lemma slice_from {A} (l : list A) i k : slice l i (i + k) = take k (drop i l).
Proof. unfold slice. replace (i + k - i)%nat with k by lia. reflexivity. Qed.

Lemma take_extend {A} (l : list A) i k :
  take (i + length (take k (drop i l))) l = take i l ++ take k (drop i l).
Proof.
  rewrite length_take, length_drop.
  destruct (le_lt_dec k (length l - i)) as [Hk|Hk].
  - rewrite Nat.min_l by exact Hk. symmetry. apply take_take_drop.
  - rewrite Nat.min_r by lia. rewrite (take_ge (drop i l)) by (rewrite length_drop; lia).
    rewrite take_drop. apply take_ge. lia.
Qed.

Lemma map_samples_at_push note samples (nts : gmap Z (list pystr)) (l : list Z) :
  note ∉ l -> map (samples_at (push note samples nts)) l = map (samples_at nts) l.
Proof.
  intros Hn. apply map_ext_in. intros n Hin. apply samples_at_push_ne.
  intros ->. apply Hn, list_elem_of_In, Hin.
Qed.

Lemma concat_all_empty (nts : gmap Z (list pystr)) (l : list Z) :
  Forall (fun n => samples_at nts n = []) l -> concat (map (samples_at nts) l) = [].
Proof.
  induction 1 as [|n l Hn _ IH]; simpl; [reflexivity|]. rewrite Hn, IH. reflexivity.
Qed.

Lemma concat_all_full (nts : gmap Z (list pystr)) (l : list Z) :
  Forall (fun n => length (samples_at nts n) = 8%nat) l ->
  length (concat (map (samples_at nts) l)) = (8 * length l)%nat.
Proof.
  induction 1 as [|n l Hn _ IH]; simpl; [reflexivity|]. rewrite length_app, Hn, IH. lia.
Qed.

(** The state of the trash pool [pool0] that holds the files [placed]:
    the notes in front of the remaining pool are full, the head of the
    remaining pool is not, the notes behind it are empty, and the notes of
    [pool0] read in order give [placed]. *)
Definition trash_ledger (pool0 : list Z) (placed : list pystr)
    (nts : gmap Z (list pystr)) (pool : list Z) : Prop :=
  exists full,
    pool0 = full ++ pool
    /\ Forall (fun n => length (samples_at nts n) = 8%nat) full
    /\ match pool with
       | [] => True
       | head :: behind =>
           (length (samples_at nts head) < 8)%nat
           /\ Forall (fun n => samples_at nts n = []) behind
       end
    /\ concat (map (samples_at nts) pool0) = placed.

Lemma trash_ledger_length pool0 placed nts pool :
  trash_ledger pool0 placed nts pool ->
  (length placed <= 8 * length pool0)%nat
  /\ (pool = [] -> length placed = (8 * length pool0)%nat).
Proof.
  intros (full & -> & Hfull & Hpool & <-).
  rewrite map_app, concat_app, !length_app, (concat_all_full nts full Hfull).
  destruct pool as [|h t]; simpl.
  - split; [lia|intros _; lia].
  - destruct Hpool as [Hh Ht]. rewrite length_app, (concat_all_empty nts t Ht). simpl.
    split; [lia|discriminate].
Qed.

(** One turn of the loop on a ledger: the files taken go behind the files
    placed before. *)
Lemma trash_ledger_push pool0 placed nts head behind taken :
  NoDup pool0 ->
  trash_ledger pool0 placed nts (head :: behind) ->
  (length (samples_at nts head) + length taken <= 8)%nat ->
  trash_ledger pool0 (placed ++ taken) (push head taken nts)
    (if len (samples_at (push head taken nts) head) >=? LAYER_LIMIT_PER_PAD
     then behind else head :: behind).
Proof.
  intros Hnd (full & -> & Hfull & [Hh Hb] & <-) Hroom.
  apply NoDup_app in Hnd as (_ & Hdis & Hnd). apply NoDup_cons in Hnd as [Hhb _].
  assert (Hhf : head ∉ full).
  { intros Hin. apply (Hdis head Hin), list_elem_of_here. }
  assert (Hfull2 : Forall (fun n => length (samples_at (push head taken nts) n) = 8%nat) full).
  { rewrite Forall_forall in Hfull |- *. intros n Hn.
    rewrite samples_at_push_ne by (intros ->; contradiction). exact (Hfull n Hn). }
  assert (Hb2 : Forall (fun n => samples_at (push head taken nts) n = []) behind).
  { rewrite Forall_forall in Hb |- *. intros n Hn.
    rewrite samples_at_push_ne by (intros ->; contradiction). exact (Hb n Hn). }
  assert (Hcat : concat (map (samples_at (push head taken nts)) (full ++ head :: behind))
                 = concat (map (samples_at nts) (full ++ head :: behind)) ++ taken).
  { rewrite !map_app, !concat_app. cbn [map concat].
    rewrite samples_at_push_eq, !map_samples_at_push by assumption.
    rewrite (concat_all_empty nts behind Hb), !app_nil_r, <- app_assoc. reflexivity. }
  pose proof (samples_at_push_eq head taken nts) as Hnew.
  destruct (len (samples_at (push head taken nts) head) >=? LAYER_LIMIT_PER_PAD) eqn:Hge.
  - exists (full ++ [head]). split; [rewrite <- app_assoc; reflexivity|]. split; [|split].
    + apply Forall_app. split; [exact Hfull2|]. apply Forall_singleton.
      apply Z.geb_le in Hge. unfold LAYER_LIMIT_PER_PAD, len in Hge.
      rewrite Hnew, length_app in Hge |- *. lia.
    + destruct behind as [|h2 t2]; [exact I|]. apply Forall_cons in Hb2 as [Hh2 Ht2].
      split; [rewrite Hh2; simpl; lia|exact Ht2].
    + exact Hcat.
  - exists full. split; [reflexivity|]. split; [exact Hfull2|]. split; [|exact Hcat].
    split; [|exact Hb2].
    assert (Hlt : len (samples_at (push head taken nts) head) < LAYER_LIMIT_PER_PAD).
    { destruct (Z.geb_spec (len (samples_at (push head taken nts) head)) LAYER_LIMIT_PER_PAD);
        [discriminate|lia]. }
    unfold LAYER_LIMIT_PER_PAD, len in Hlt. lia.
Qed.

(** The loop of [push_trash] on a ledger: it ends when the files are all
    placed or the pool is empty, and has placed what it took, in order. *)
Lemma push_trash_loop_ledger pool0 before samples :
  NoDup pool0 ->
  forall fuel idx (nts : gmap Z (list pystr)) pool,
    (idx <= length samples)%nat ->
    trash_ledger pool0 (before ++ take idx samples) nts pool ->
    (length samples - idx + length pool <= fuel)%nat ->
    exists idx' nts' pool',
      push_trash_loop fuel samples idx nts pool = Some (idx', nts', pool')
      /\ (idx' <= length samples)%nat
      /\ trash_ledger pool0 (before ++ take idx' samples) nts' pool'
      /\ (idx' = length samples \/ pool' = [])
      /\ (forall n, n ∉ pool0 -> nts' !! n = nts !! n).
Proof.
  intros Hnd fuel. induction fuel as [|fuel IH]; intros idx nts pool Hidx Hled Hm.
  - destruct pool as [|head behind]; [|simpl in Hm; lia].
    exists idx, nts, []. repeat split; try assumption; try reflexivity. right. reflexivity.
  - destruct pool as [|head behind].
    { exists idx, nts, []. repeat split; try assumption; try reflexivity. right. reflexivity. }
    cbn [push_trash_loop]. simpl in Hm.
    destruct (idx <? length samples)%nat eqn:Hlt.
    2:{ apply Nat.ltb_ge in Hlt. exists idx, nts, (head :: behind).
        repeat split; try assumption; try reflexivity. left. lia. }
    apply Nat.ltb_lt in Hlt.
    assert (Hhead : (length (samples_at nts head) < 8)%nat).
    { destruct Hled as (full & _ & _ & [Hh _] & _). exact Hh. }
    assert (Hin0 : head ∈ pool0).
    { destruct Hled as (full & -> & _). apply elem_of_app. right. apply list_elem_of_here. }
    destruct (LAYER_LIMIT_PER_PAD - len (samples_at nts head) <=? 0) eqn:Hsp.
    { apply Z.leb_le in Hsp. unfold LAYER_LIMIT_PER_PAD, len in Hsp. lia. }
    set (space := Z.to_nat (LAYER_LIMIT_PER_PAD - len (samples_at nts head))).
    assert (Hspace : (space = 8 - length (samples_at nts head))%nat)
      by (unfold space, LAYER_LIMIT_PER_PAD, len; lia).
    rewrite slice_from.
    set (taken := take space (drop idx samples)).
    assert (Htaken : (1 <= length taken <= space)%nat
                     /\ (idx + length taken <= length samples)%nat).
    { unfold taken. rewrite length_take, length_drop. lia. }
    pose proof (trash_ledger_push pool0 _ nts head behind taken Hnd Hled ltac:(lia)) as Hled2.
    rewrite <- app_assoc in Hled2. unfold taken in Hled2 at 1.
    rewrite <- take_extend in Hled2. fold taken in Hled2.
    assert (Hout : forall n, n ∉ pool0 -> push head taken nts !! n = nts !! n).
    { intros n Hn. apply lookup_push_ne. intros ->. contradiction. }
    destruct (len (samples_at (push head taken nts) head) >=? LAYER_LIMIT_PER_PAD).
    + destruct (IH (idx + length taken)%nat (push head taken nts) behind
                  ltac:(lia) Hled2 ltac:(lia))
        as (idx' & nts' & pool' & Hl & Hi & Hled' & Hend & Hout').
      exists idx', nts', pool'. repeat split; try assumption.
      intros n Hn. rewrite (Hout' n Hn). exact (Hout n Hn).
    + destruct (IH (idx + length taken)%nat (push head taken nts) (head :: behind)
                  ltac:(lia) Hled2 ltac:(simpl; lia))
        as (idx' & nts' & pool' & Hl & Hi & Hled' & Hend & Hout').
      exists idx', nts', pool'. repeat split; try assumption.
      intros n Hn. rewrite (Hout' n Hn). exact (Hout n Hn).
Qed.

(** The warnings expected from a sequence of pushes into a pool with room
    for [cap] files that holds [placed] of them: a push warns when its
    files do not all fit, with the number that do not. *)
Fixpoint expected_warnings (cap placed : nat) (pushes : list (list pystr))
  : list pystr :=
  match pushes with
  | [] => []
  | samples :: rest =>
      let fit := Nat.min (length samples) (cap - placed) in
      (if (fit <? length samples)%nat
       then [dropped_warning (len samples - Z.of_nat fit)] else [])
      ++ expected_warnings cap (placed + fit) rest
  end.

Lemma take_take_app {A} (n : nat) (l k : list A) :
  take n (take n l ++ k) = take n (l ++ k).
Proof.
  destruct (le_lt_dec n (length l)) as [Hn|Hn].
  - rewrite !take_app_le by (rewrite ?length_take; lia).
    rewrite take_take, Nat.min_id. reflexivity.
  - rewrite (take_ge l) by lia. reflexivity.
Qed.

(** One [push_trash] on a ledger. *)
Lemma push_trash_ledger pool0 before samples st :
  NoDup pool0 ->
  trash_ledger pool0 before (note_to_samples st) (trash_pool st) ->
  exists st',
    push_trash samples st = Some st'
    /\ trash_ledger pool0 (take (8 * length pool0) (before ++ samples))
         (note_to_samples st') (trash_pool st')
    /\ (forall n, n ∉ pool0 -> note_to_samples st' !! n = note_to_samples st !! n)
    /\ warnings st' =
         warnings st ++ expected_warnings (8 * length pool0) (length before) [samples].
Proof.
  intros Hnd Hled. unfold push_trash.
  destruct (push_trash_loop_ledger pool0 before samples Hnd
              (push_trash_fuel samples (trash_pool st)) 0 (note_to_samples st)
              (trash_pool st))
    as (idx' & nts' & pool' & Hl & Hi & Hled' & Hend & Hout).
  { lia. }
  { rewrite take_0, app_nil_r. exact Hled. }
  { unfold push_trash_fuel. lia. }
  rewrite Hl. cbn [mbind option_bind]. eexists. split; [reflexivity|].
  cbn [note_to_samples trash_pool warnings expected_warnings].
  destruct (trash_ledger_length _ _ _ _ Hled) as [Hb _].
  destruct (trash_ledger_length _ _ _ _ Hled') as [Hcap Hfull].
  rewrite length_app, length_take in Hcap, Hfull.
  assert (Hfit : Nat.min (length samples) (8 * length pool0 - length before) = idx').
  { destruct Hend as [->| ->]; [lia|]. specialize (Hfull eq_refl). lia. }
  assert (Hplaced : take (8 * length pool0) (before ++ samples) = before ++ take idx' samples).
  { rewrite take_app_ge by lia. f_equal.
    destruct Hend as [->| ->].
    - rewrite !take_ge by lia. reflexivity.
    - specialize (Hfull eq_refl). f_equal. lia. }
  rewrite Hplaced. split; [exact Hled'|]. split; [exact Hout|].
  rewrite Hfit, app_nil_r. destruct (idx' <? length samples)%nat; [reflexivity|].
  rewrite app_nil_r. reflexivity.
Qed.

(** A sequence of calls of [push_trash]. *)
Definition push_all (pushes : list (list pystr)) (st : AssignState)
  : option AssignState :=
  foldl (fun acc samples => acc ≫= push_trash samples) (Some st) pushes.

Lemma push_all_ledger pool0 pushes :
  NoDup pool0 ->
  forall before st,
    trash_ledger pool0 before (note_to_samples st) (trash_pool st) ->
    exists st',
      push_all pushes st = Some st'
      /\ trash_ledger pool0 (take (8 * length pool0) (before ++ concat pushes))
           (note_to_samples st') (trash_pool st')
      /\ (forall n, n ∉ pool0 -> note_to_samples st' !! n = note_to_samples st !! n)
      /\ warnings st' =
           warnings st ++ expected_warnings (8 * length pool0) (length before) pushes.
Proof.
  intros Hnd. induction pushes as [|samples rest IH]; intros before st Hled.
  - exists st. split; [reflexivity|]. simpl. rewrite !app_nil_r.
    destruct (trash_ledger_length _ _ _ _ Hled) as [Hb _].
    rewrite take_ge by lia. repeat split; try assumption; reflexivity.
  - destruct (push_trash_ledger pool0 before samples st Hnd Hled)
      as (st1 & Hp & Hled1 & Hout1 & Hw1).
    destruct (IH _ st1 Hled1) as (st' & Hall & Hled' & Hout' & Hw').
    exists st'. unfold push_all. cbn [foldl mbind option_bind]. rewrite Hp.
    split; [exact Hall|]. split; [|split].
    + cbn [concat]. rewrite take_take_app, <- app_assoc in Hled'. exact Hled'.
    + intros n Hn. rewrite (Hout' n Hn). exact (Hout1 n Hn).
    + rewrite Hw', Hw1. cbn [expected_warnings]. rewrite app_nil_r, <- app_assoc.
      destruct (trash_ledger_length _ _ _ _ Hled) as [Hb _].
      rewrite length_take, length_app.
      replace (Nat.min (8 * length pool0) (length before + length samples))
        with (length before
              + Nat.min (length samples) (8 * length pool0 - length before))%nat by lia.
      reflexivity.
Qed.

Lemma push_all_ends pushes st :
  exists st',
    push_all pushes st = Some st'
    /\ trash_pool st' `suffix_of` trash_pool st
    /\ (forall n, n ∉ trash_pool st -> note_to_samples st' !! n = note_to_samples st !! n).
Proof.
  revert st. induction pushes as [|samples rest IH]; intros st.
  - exists st. repeat split; reflexivity.
  - destruct (push_trash_ends samples st) as (st1 & Hp & Hsuf1 & Hout1 & _).
    destruct (IH st1) as (st' & Hall & Hsuf & Hout).
    exists st'. unfold push_all. cbn [foldl mbind option_bind]. rewrite Hp.
    split; [exact Hall|]. split; [etransitivity; eassumption|].
    intros n Hn. rewrite Hout; [exact (Hout1 n Hn)|].
    intros Hin. apply Hn. destruct Hsuf1 as [k ->]. apply elem_of_app. right. exact Hin.
Qed.

(** C6. Files pushed to a fresh trash pool (distinct notes, none of them
    used yet), in any number of pushes: the trash notes read in the order
    of the pool hold the pushed files in the order they were pushed, as far
    as the pool has room (8 per note); the notes in front of the remaining
    pool hold 8 files each, the head of the remaining pool fewer, the notes
    behind it none; a note that left the pool is not touched by later
    pushes; no other note is touched; and each push whose files do not all
    fit adds a warning with the number of files dropped. *)
Theorem trash_placement (pushes : list (list pystr)) (st : AssignState) :
  NoDup (trash_pool st) ->
  (forall n, n ∈ trash_pool st -> samples_at (note_to_samples st) n = []) ->
  exists st',
    push_all pushes st = Some st'
    /\ concat (map (samples_at (note_to_samples st')) (trash_pool st))
       = take (8 * length (trash_pool st)) (concat pushes)
    /\ (exists full,
          trash_pool st = full ++ trash_pool st'
          /\ Forall (fun n => length (samples_at (note_to_samples st') n) = 8%nat) full
          /\ match trash_pool st' with
             | [] => True
             | head :: behind =>
                 (length (samples_at (note_to_samples st') head) < 8)%nat
                 /\ Forall (fun n => samples_at (note_to_samples st') n = []) behind
             end
          /\ forall more st'',
               push_all more st' = Some st'' ->
               Forall (fun n => samples_at (note_to_samples st'') n
                                = samples_at (note_to_samples st') n) full)
    /\ (forall n, n ∉ trash_pool st ->
          note_to_samples st' !! n = note_to_samples st !! n)
    /\ warnings st' =
         warnings st ++ expected_warnings (8 * length (trash_pool st)) 0 pushes.
Proof.
  intros Hnd Hfresh.
  assert (Hled : trash_ledger (trash_pool st) [] (note_to_samples st) (trash_pool st)).
  { exists []. split; [reflexivity|]. split; [apply Forall_nil; exact I|].
    assert (Hall : Forall (fun n => samples_at (note_to_samples st) n = []) (trash_pool st))
      by (apply Forall_forall; exact Hfresh).
    split; [|apply concat_all_empty, Hall].
    destruct (trash_pool st) as [|h t]; [exact I|].
    apply Forall_cons in Hall as [Hh Ht]. split; [rewrite Hh; simpl; lia|exact Ht]. }
  destruct (push_all_ledger (trash_pool st) pushes Hnd [] st Hled)
    as (st' & Hall & Hled' & Hout & Hw).
  exists st'. split; [exact Hall|].
  destruct Hled' as (full & Hsplit & Hfull & Hpool & Hcat).
  split; [exact Hcat|]. split; [|split; [exact Hout|exact Hw]].
  exists full. split; [exact Hsplit|]. split; [exact Hfull|]. split; [exact Hpool|].
  intros more st'' Hmore.
  destruct (push_all_ends more st') as (st2 & Hmore' & _ & Hkeep).
  rewrite Hmore in Hmore'. injection Hmore' as <-.
  apply Forall_forall. intros n Hn. unfold samples_at. rewrite Hkeep; [reflexivity|].
  intros Hin. rewrite Hsplit in Hnd. apply NoDup_app in Hnd as (_ & Hdis & _).
  exact (Hdis n Hn Hin).
Qed.

Lemma two_note_pool_fresh :
  NoDup (trash_pool two_note_pool)
  /\ forall n, n ∈ trash_pool two_note_pool ->
               samples_at (note_to_samples two_note_pool) n = [].
Proof.
  split.
  - vm_compute. apply NoDup_cons. split; [|apply NoDup_singleton].
    intros Hin. apply list_elem_of_singleton in Hin. discriminate Hin.
  - intros n _. reflexivity.
Qed.

Lemma trash_placement_witness :
  exists st',
    push_all [kick_files 10; kick_files 9] two_note_pool = Some st'
    /\ concat (map (samples_at (note_to_samples st')) [90; 91])
       = kick_files 10 ++ take 6 (kick_files 9)
    /\ warnings st' = [lit "Dropped 3 samples (trash full)"].
Proof.
  destruct two_note_pool_fresh as [Hnd Hfresh].
  destruct (trash_placement [kick_files 10; kick_files 9] two_note_pool Hnd Hfresh)
    as (st' & Hall & Hcat & _ & _ & Hw).
  exists st'. split; [exact Hall|]. split; [exact Hcat|exact Hw].
Defined.

(** ** The trash pool inside the assignment *)

(** A trash list read by [parse_midi_note_list] names each note once. *)
Lemma strictly_sorted_NoDup (l : list Z) : StronglySorted Z.lt l -> NoDup l.
Proof.
  induction 1 as [|x l _ IH Hall]; [apply NoDup_nil; exact I|].
  apply NoDup_cons. split; [|exact IH]. intros Hin.
  rewrite Forall_forall in Hall. specialize (Hall x Hin). lia.
Qed.

Lemma initial_state_fresh (mapping : Mapping) (trash_notes : list Z) :
  NoDup trash_notes ->
  NoDup (trash_pool (initial_state mapping trash_notes))
  /\ forall n, samples_at (note_to_samples (initial_state mapping trash_notes)) n = [].
Proof.
  intros Hnd. split; [apply NoDup_filter, Hnd|].
  intros n. unfold samples_at. simpl. rewrite lookup_empty. reflexivity.
Qed.

(** The index the loop over the notes of a category ends at. *)
Lemma fill_notes_index notes files idx (nts : gmap Z (list pystr)) :
  (idx <= length files)%nat ->
  (fill_notes notes files idx nts).2
  = Nat.min (length files) (idx + 8 * length notes).
Proof.
  assert (H8 : Z.to_nat LAYER_LIMIT_PER_PAD = 8%nat) by reflexivity.
  revert idx nts. induction notes as [|note rest IH]; intros idx nts Hidx;
    cbn [fill_notes length].
  - cbn [snd]. lia.
  - rewrite slice_from, H8.
    assert (Hlen : length (take 8 (drop idx files)) = Nat.min 8 (length files - idx))
      by (rewrite length_take, length_drop; reflexivity).
    destruct (take 8 (drop idx files)) as [|f chunk] eqn:Hchunk.
    + cbn [snd length] in *. lia.
    + rewrite IH by lia. lia.
Qed.

(** What a category sends to the trash pool under the policies [trash]
    and [ignore]: its files for [other], else the files its notes have no
    room for. *)
Definition trash_share (mapping : Mapping) (item : pystr * list pystr) : list pystr :=
  if bool_decide (item.1 = lit "other") then item.2
  else drop (Nat.min (length item.2) (8 * length (category_notes mapping item.1))) item.2.

Lemma trash_ledger_ext pool0 placed (nts nts' : gmap Z (list pystr)) pool :
  (forall n, n ∈ pool0 -> nts' !! n = nts !! n) ->
  trash_ledger pool0 placed nts pool -> trash_ledger pool0 placed nts' pool.
Proof.
  intros Hsame (full & Hsplit & Hfull & Hpool & Hcat).
  assert (Hsa : forall n, n ∈ pool0 -> samples_at nts' n = samples_at nts n).
  { intros n Hn. unfold samples_at. rewrite (Hsame n Hn). reflexivity. }
  exists full. split; [exact Hsplit|]. split; [|split].
  - rewrite Forall_forall in Hfull |- *. intros n Hn. rewrite Hsa; [exact (Hfull n Hn)|].
    rewrite Hsplit. apply elem_of_app. left. exact Hn.
  - destruct pool as [|h t]; [exact I|]. destruct Hpool as [Hh Ht]. split.
    + rewrite Hsa; [exact Hh|]. rewrite Hsplit. apply elem_of_app. right. apply list_elem_of_here.
    + rewrite Forall_forall in Ht |- *. intros n Hn. rewrite Hsa; [exact (Ht n Hn)|].
      rewrite Hsplit. apply elem_of_app. right. apply list_elem_of_further, Hn.
  - rewrite <- Hcat. apply f_equal, map_ext_in. intros n Hn. apply Hsa, list_elem_of_In, Hn.
Qed.

Lemma to_trash_not_truncate policy :
  to_trash policy = true -> bool_decide (policy = lit "truncate") = false.
Proof.
  unfold to_trash. intros Ht. apply bool_decide_eq_false. intros ->. discriminate Ht.
Qed.

Lemma push_trash_nil st : push_trash [] st = Some st.
Proof.
  unfold push_trash, push_trash_fuel. destruct st as [nts pool w].
  destruct pool; reflexivity.
Qed.

(** One category on a ledger. *)
Lemma assign_category_ledger (mapping : Mapping) policy pool0 before st item :
  NoDup pool0 -> (forall n, n ∈ pool0 -> n ∉ reserved_notes mapping) ->
  to_trash policy = true ->
  trash_ledger pool0 before (note_to_samples st) (trash_pool st) ->
  exists st',
    assign_category mapping policy st item = Some st'
    /\ trash_ledger pool0 (take (8 * length pool0) (before ++ trash_share mapping item))
         (note_to_samples st') (trash_pool st')
    /\ warnings st' =
         warnings st
         ++ expected_warnings (8 * length pool0) (length before) [trash_share mapping item].
Proof.
  intros Hnd Hdis Ht Hled. destruct item as [category files].
  unfold assign_category, trash_share. cbn [fst snd].
  destruct (bool_decide (category = lit "other")).
  - rewrite Ht. destruct (push_trash_ledger pool0 before files st Hnd Hled)
      as (st' & Hp & Hled' & _ & Hw).
    exists st'. repeat split; assumption.
  - pose proof (fill_notes_index (category_notes mapping category) files 0
                  (note_to_samples st) ltac:(lia)) as Hidx.
    destruct (fill_notes_spec (category_notes mapping category) files 0 (note_to_samples st))
      as [Hout _].
    destruct (fill_notes (category_notes mapping category) files 0 (note_to_samples st))
      as [nts idx]. cbn [fst snd] in Hidx, Hout. rewrite Nat.add_0_l in Hidx. subst idx.
    set (st1 := {| note_to_samples := nts; trash_pool := trash_pool st;
                   warnings := warnings st |}).
    assert (Hled1 : trash_ledger pool0 before (note_to_samples st1) (trash_pool st1)).
    { apply (trash_ledger_ext pool0 before (note_to_samples st)); [|exact Hled].
      intros n Hn. apply Hout. intros Hin.
      exact (Hdis n Hn (category_notes_reserved mapping category n Hin)). }
    destruct (push_trash_ledger pool0 before
                (drop (Nat.min (length files) (8 * length (category_notes mapping category)))
                      files) st1 Hnd Hled1)
      as (st' & Hp & Hled' & _ & Hw).
    destruct (drop (Nat.min (length files) (8 * length (category_notes mapping category)))
                   files) as [|o overflow] eqn:Hover.
    + rewrite push_trash_nil in Hp. injection Hp as <-.
      exists st1. repeat split; assumption.
    + rewrite (to_trash_not_truncate policy Ht), Ht.
      exists st'. repeat split; assumption.
Qed.

(** All the categories of a kit on a ledger. *)
Lemma assign_from_ledger (mapping : Mapping) policy pool0 :
  NoDup pool0 -> (forall n, n ∈ pool0 -> n ∉ reserved_notes mapping) ->
  to_trash policy = true ->
  forall (items : Elements) before st,
    trash_ledger pool0 before (note_to_samples st) (trash_pool st) ->
    exists st',
      assign_from mapping policy st items = Some st'
      /\ trash_ledger pool0
           (take (8 * length pool0) (before ++ concat (map (trash_share mapping) items)))
           (note_to_samples st') (trash_pool st')
      /\ warnings st' =
           warnings st
           ++ expected_warnings (8 * length pool0) (length before)
                (map (trash_share mapping) items).
Proof.
  intros Hnd Hdis Ht items. induction items as [|item rest IH]; intros before st Hled.
  - exists st. split; [reflexivity|]. simpl. rewrite !app_nil_r.
    destruct (trash_ledger_length _ _ _ _ Hled) as [Hb _].
    rewrite take_ge by lia. split; [exact Hled|reflexivity].
  - destruct (assign_category_ledger mapping policy pool0 before st item Hnd Hdis Ht Hled)
      as (st1 & Hc & Hled1 & Hw1).
    destruct (IH _ st1 Hled1) as (st' & Hall & Hled' & Hw').
    exists st'. unfold assign_from. cbn [foldl mbind option_bind]. rewrite Hc.
    split; [exact Hall|]. split.
    + cbn [map concat]. rewrite take_take_app, <- app_assoc in Hled'. exact Hled'.
    + rewrite Hw', Hw1. cbn [map expected_warnings]. rewrite app_nil_r, <- app_assoc.
      destruct (trash_ledger_length _ _ _ _ Hled) as [Hb _].
      rewrite length_take, length_app.
      replace (Nat.min (8 * length pool0) (length before + length (trash_share mapping item)))
        with (length before
              + Nat.min (length (trash_share mapping item))
                        (8 * length pool0 - length before))%nat by lia.
      reflexivity.
Qed.

(** X22. Under the policies [trash] and [ignore], with a trash list that names
    each note once: after the assignment the notes of the trash pool, read
    in order, hold what the categories sent there, in the order of the kit,
    as far as the pool has room; the warnings are those of the pushes that
    did not fit. *)
Theorem assign_trash_in_order (kit_elements : Elements) (mapping : Mapping)
    (overflow_policy : pystr) (trash_notes : list Z) :
  NoDup trash_notes -> to_trash overflow_policy = true ->
  let pool0 := trash_pool (initial_state mapping trash_notes) in
  exists nts warns,
    assign_samples_to_notes kit_elements mapping overflow_policy trash_notes
      = Some (nts, warns)
    /\ concat (map (samples_at nts) pool0)
       = take (8 * length pool0) (concat (map (trash_share mapping) kit_elements))
    /\ warns = expected_warnings (8 * length pool0) 0
                 (map (trash_share mapping) kit_elements).
Proof.
  intros Hnd Ht pool0.
  destruct (initial_state_fresh mapping trash_notes Hnd) as [Hnd0 Hfresh].
  assert (Hled : trash_ledger pool0 [] (note_to_samples (initial_state mapping trash_notes))
                   (trash_pool (initial_state mapping trash_notes))).
  { exists []. split; [reflexivity|]. split; [apply Forall_nil; exact I|].
    assert (Hall : Forall (fun n => samples_at
                             (note_to_samples (initial_state mapping trash_notes)) n = [])
                          pool0) by (apply Forall_forall; intros n _; apply Hfresh).
    split; [|apply concat_all_empty, Hall].
    fold pool0. destruct pool0 as [|h t]; [exact I|].
    apply Forall_cons in Hall as [Hh Ht']. split; [rewrite Hh; simpl; lia|exact Ht']. }
  destruct (assign_from_ledger mapping overflow_policy pool0 Hnd0
              ltac:(intros n Hn; apply initial_pool_elem in Hn; tauto) Ht
              kit_elements [] _ Hled) as (st & Hl & (full & _ & _ & _ & Hcat) & Hw).
  unfold assign_samples_to_notes, assign_loop. unfold assign_from in Hl. rewrite Hl.
  exists (note_to_samples st), (warnings st). split; [reflexivity|].
  split; [exact Hcat|exact Hw].
Qed.

(* ===================================================================== *)
(** * Detection and scan *)
(* ===================================================================== *)

(** ** Stripped strings *)

Lemma lstrip_fixed s :
  (forall c, head s = Some c -> is_space c = false) -> lstrip s = s.
Proof.
  destruct s as [|c s]; [reflexivity|]. intros Hc. simpl.
  rewrite (Hc c eq_refl). reflexivity.
Qed.

Lemma rstrip_fixed s :
  (forall c, last s = Some c -> is_space c = false) -> rstrip s = s.
Proof.
  intros Hc. unfold rstrip. rewrite lstrip_fixed; [apply rev_involutive|].
  intros c Hh. apply Hc. rewrite <- last_rev_head, rev_involutive in Hh. exact Hh.
Qed.

Lemma strip_fixed s :
  (forall c, head s = Some c -> is_space c = false) ->
  (forall c, last s = Some c -> is_space c = false) ->
  strip s = s.
Proof.
  intros Hh Hl. unfold strip. rewrite (lstrip_fixed s Hh). apply rstrip_fixed, Hl.
Qed.

Lemma strip_idemp s : strip (strip s) = strip s.
Proof. apply strip_fixed; [apply (strip_head s)|apply (strip_last s)]. Qed.

Lemma lstrip_app_blank a s :
  Forall (fun c => is_space c = true) a -> lstrip (a ++ s) = lstrip s.
Proof.
  induction 1 as [|c a Hc _ IH]; [reflexivity|]. simpl. rewrite Hc. exact IH.
Qed.

Lemma rstrip_app_blank s b :
  Forall (fun c => is_space c = true) b -> rstrip (s ++ b) = rstrip s.
Proof.
  intros Hb. unfold rstrip. rewrite rev_app_distr, lstrip_app_blank; [reflexivity|].
  apply Forall_forall. intros c Hc. rewrite Forall_forall in Hb.
  apply Hb, list_elem_of_In, in_rev, list_elem_of_In, Hc.
Qed.

(** A stripped string between two blank strings. *)
Lemma strip_between a s b :
  Forall (fun c => is_space c = true) a -> Forall (fun c => is_space c = true) b ->
  strip s = s -> strip (a ++ s ++ b) = s.
Proof.
  intros Ha Hb Hs.
  assert (Hh : forall c, head s = Some c -> is_space c = false).
  { intros c Hc. apply (strip_head s). rewrite Hs. exact Hc. }
  assert (Hl : forall c, last s = Some c -> is_space c = false).
  { intros c Hc. apply (strip_last s). rewrite Hs. exact Hc. }
  destruct s as [|x s'].
  - apply strip_blank. apply Forall_app. split; assumption.
  - unfold strip. rewrite lstrip_app_blank by exact Ha.
    rewrite (lstrip_fixed ((x :: s') ++ b)) by exact Hh.
    rewrite rstrip_app_blank by exact Hb. apply rstrip_fixed, Hl.
Qed.

Lemma lower_char_idemp c : lower_char (lower_char c) = lower_char c.
Proof.
  destruct c as [[] [] [] [] [] [] [] []]; vm_compute; reflexivity.
Qed.

Lemma lower_idemp s : lower (lower s) = lower s.
Proof.
  unfold lower. rewrite map_map. apply map_ext. intros c. apply lower_char_idemp.
Qed.

Lemma span_all (p : ascii -> bool) a s :
  Forall (fun c => p c = true) a ->
  (forall c, head s = Some c -> p c = false) ->
  span p (a ++ s) = (a, s).
Proof.
  intros Ha Hs. induction Ha as [|c a Hc _ IH]; simpl.
  - destruct s as [|c s]; [reflexivity|]. simpl. rewrite (Hs c eq_refl). reflexivity.
  - rewrite Hc, IH. reflexivity.
Qed.

(** ** Whole words *)

(** [word] stands in [name] between two word boundaries. *)
Definition whole_word (word name : pystr) : Prop :=
  exists pre post,
    name = pre ++ word ++ post
    /\ at_boundary (last pre) (head (word ++ post)) = true
    /\ at_boundary (last (pre ++ word)) (head post) = true.

(** The last character of [l], or [prev] in front of an empty [l]. *)
Definition last_or (prev : option ascii) (l : pystr) : option ascii :=
  match last l with Some c => Some c | None => prev end.

Lemma last_or_cons prev c l : last_or prev (c :: l) = last_or (Some c) l.
Proof.
  unfold last_or. destruct l as [|x l]; [reflexivity|].
  change (last (c :: x :: l)) with (last (x :: l)).
  destruct (last (x :: l)) eqn:Hl; [reflexivity|].
  apply last_None in Hl. discriminate.
Qed.

Lemma last_or_None l : last_or None l = last l.
Proof. unfold last_or. destruct (last l); reflexivity. Qed.

Lemma match_literal_spec word s rest :
  match_literal word s = Some rest <-> s = word ++ rest.
Proof.
  revert s. induction word as [|a word IH]; intros s; simpl.
  - split; [intros [= ->]; reflexivity|intros ->; reflexivity].
  - destruct s as [|b s]; [split; discriminate|].
    destruct (Ascii.eqb_spec a b) as [->|Hne].
    + rewrite IH. split; [intros ->; reflexivity|intros [= ->]; reflexivity].
    + split; [discriminate|intros [= Hab _]; congruence].
Qed.

Lemma search_word_unfold word prev s :
  search_word word prev s =
    (at_boundary prev (head s)
     && match match_literal word s with
        | Some rest => at_boundary (last_or prev word) (head rest)
        | None => false
        end)
    || match s with
       | c :: r => search_word word (Some c) r
       | [] => false
       end.
Proof. destruct s; reflexivity. Qed.

Lemma search_word_spec word prev s :
  search_word word prev s = true <->
  exists pre post,
    s = pre ++ word ++ post
    /\ at_boundary (last_or prev pre) (head (word ++ post)) = true
    /\ at_boundary (last_or prev (pre ++ word)) (head post) = true.
Proof.
  revert prev. induction s as [|c s IH]; intros prev;
    rewrite search_word_unfold, orb_true_iff, andb_true_iff.
  - split.
    + intros [[Hb Hm]|Hf]; [|discriminate].
      destruct (match_literal word []) as [rest|] eqn:Hl; [|discriminate].
      apply match_literal_spec in Hl. exists [], rest. rewrite <- Hl. auto.
    + intros (pre & post & Hs & Hb1 & Hb2). left.
      symmetry in Hs. apply app_eq_nil in Hs as [-> Hs].
      apply app_eq_nil in Hs as [-> ->]. split; [exact Hb1|]. exact Hb2.
  - split.
    + intros [[Hb Hm]|Hr].
      * destruct (match_literal word (c :: s)) as [rest|] eqn:Hl; [|discriminate].
        apply match_literal_spec in Hl. exists [], rest. rewrite <- Hl. auto.
      * apply IH in Hr as (pre & post & -> & Hb1 & Hb2).
        exists (c :: pre), post. cbn [app]. rewrite !last_or_cons. auto.
    + intros (pre & post & Hs & Hb1 & Hb2). destruct pre as [|x pre].
      * left. simpl in Hs. rewrite Hs. split; [exact Hb1|].
        rewrite (proj2 (match_literal_spec word (word ++ post) post) eq_refl). exact Hb2.
      * right. injection Hs as -> ->. apply IH. exists pre, post.
        cbn [app] in Hb1, Hb2. rewrite !last_or_cons in *. auto.
Qed.

Lemma search_word_whole word name :
  search_word word None name = true <-> whole_word word name.
Proof.
  rewrite search_word_spec. unfold whole_word.
  split; intros (pre & post & Hs & Hb1 & Hb2); exists pre, post;
    rewrite ?last_or_None in *; auto.
Qed.

(** Some synonym of the list is a whole word of the name. *)
Definition names (synonyms : list pystr) (name : pystr) : Prop :=
  exists word, word ∈ synonyms /\ whole_word word name.

Lemma existsb_names synonyms name :
  existsb (fun word => search_word word None name) synonyms = true
  <-> names synonyms name.
Proof.
  rewrite existsb_exists. unfold names.
  split; intros (w & Hin & Hw); exists w; split;
    try (apply list_elem_of_In; exact Hin); apply search_word_whole; exact Hw.
Qed.

(** X1. [detect_category] returns the canonical name of the first entry of
    the nomenclature (in its order) one of whose synonyms stands as a whole
    word in the lower-cased file name, and [other] when no entry has one. *)
Theorem detect_category_first_match (filename : pystr) (nomenclature : Nomenclature) :
  (exists before canonical synonyms after,
     nomenclature = before ++ (canonical, synonyms) :: after
     /\ detect_category filename nomenclature = canonical
     /\ names synonyms (lower filename)
     /\ Forall (fun entry => ~ names entry.2 (lower filename)) before)
  \/ (detect_category filename nomenclature = lit "other"
      /\ Forall (fun entry => ~ names entry.2 (lower filename)) nomenclature).
Proof.
  unfold detect_category. generalize (lower filename) as name. intros name.
  induction nomenclature as [|[canonical synonyms] rest IH]; simpl.
  - right. split; [reflexivity|apply Forall_nil; exact I].
  - destruct (existsb _ synonyms) eqn:He.
    + left. exists [], canonical, synonyms, rest.
      split; [reflexivity|]. split; [reflexivity|].
      split; [apply existsb_names, He|apply Forall_nil; exact I].
    + assert (Hno : ~ names synonyms name).
      { intros Hn. apply existsb_names in Hn. congruence. }
      destruct IH as [(before & c & syns & after & -> & Hd & Hn & Hb)|[Hd Hall]].
      * left. exists ((canonical, synonyms) :: before), c, syns, after.
        split; [reflexivity|]. split; [exact Hd|]. split; [exact Hn|].
        apply Forall_cons. split; assumption.
      * right. split; [exact Hd|]. apply Forall_cons. split; assumption.
Qed.

(** A synonym that starts and ends with a word character stands as a
    whole word exactly where no word character touches it. *)
Lemma whole_word_free (word name : pystr) :
  (exists c, head word = Some c /\ is_word c = true) ->
  (exists c, last word = Some c /\ is_word c = true) ->
  whole_word word name
  <-> exists pre post,
        name = pre ++ word ++ post
        /\ from_option is_word false (last pre) = false
        /\ from_option is_word false (head post) = false.
Proof.
  intros (h & Hh & Hhw) (l & Hl & Hlw). unfold whole_word.
  assert (Hhead : forall post, head (word ++ post) = Some h).
  { intros post. destruct word as [|x w]; [discriminate|]. exact Hh. }
  assert (Hlast : forall pre, last (pre ++ word) = Some l).
  { intros pre. apply last_Some in Hl as [w ->]. rewrite app_assoc. apply last_snoc. }
  split; intros (pre & post & Hn & H1 & H2); exists pre, post; (split; [exact Hn|]).
  - rewrite Hhead in H1. rewrite Hlast in H2. unfold at_boundary in H1, H2.
    cbn [from_option] in H1, H2. rewrite Hhw in H1. rewrite Hlw in H2.
    split; [destruct (from_option is_word false (last pre)); [discriminate|reflexivity]|].
    destruct (from_option is_word false (head post)); [discriminate|reflexivity].
  - rewrite Hhead, Hlast. unfold at_boundary. cbn [from_option].
    rewrite H1, H2, Hhw, Hlw. split; reflexivity.
Qed.

(** X28. With one category of one synonym that starts and ends with a
    letter, a digit or an underscore, [detect_category] finds the category
    exactly when the synonym occurs in the lower-cased file name with no
    letter, digit or underscore right in front of it or right behind it:
    so [kick] is found in [Kick 1.wav] and in [my-kick.wav], and neither
    in [kick_01.wav] nor in [kick1.wav]. *)
Theorem detect_category_single (filename canonical word : pystr) :
  canonical <> lit "other" ->
  (exists c, head word = Some c /\ is_word c = true) ->
  (exists c, last word = Some c /\ is_word c = true) ->
  detect_category filename [(canonical, [word])] = canonical
  <-> exists pre post,
        lower filename = pre ++ word ++ post
        /\ from_option is_word false (last pre) = false
        /\ from_option is_word false (head post) = false.
Proof.
  intros Hc Hh Hl. rewrite <- (whole_word_free word (lower filename) Hh Hl).
  rewrite <- search_word_whole. unfold detect_category. cbn [detect_category_loop existsb].
  rewrite orb_false_r.
  destruct (search_word word None (lower filename)).
  - split; reflexivity.
  - split; [intros Ho; congruence|discriminate].
Qed.

Lemma detect_category_single_witness :
  detect_category (lit "my-Kick.wav") [(lit "kick", [lit "kick"])] = lit "kick"
  /\ detect_category (lit "Kick_01.wav") [(lit "kick", [lit "kick"])] <> lit "kick".
Proof.
  assert (Hw : exists c, head (lit "kick") = Some c /\ is_word c = true)
    by (eexists; split; reflexivity).
  assert (Hl : exists c, last (lit "kick") = Some c /\ is_word c = true)
    by (eexists; split; reflexivity).
  split.
  - apply (detect_category_single (lit "my-Kick.wav") (lit "kick") (lit "kick")
             ltac:(discriminate) Hw Hl).
    exists (lit "my-"), (lit ".wav"). repeat split.
  - intros Hd. vm_compute in Hd. discriminate Hd.
Defined.

(** ** Kit names *)

Lemma match_literal_ignorecase_app category prefix rest :
  lower prefix = lower category ->
  match_literal_ignorecase category (prefix ++ rest) = Some rest.
Proof.
  revert prefix. induction category as [|a category IH]; intros [|b prefix] Hl;
    try discriminate; [reflexivity|].
  injection Hl as Hab Hl. cbn [app match_literal_ignorecase].
  rewrite Hab, Ascii.eqb_refl. exact (IH prefix Hl).
Qed.

Lemma space_not_digit c : is_space c = true -> is_digit c = false.
Proof. destruct c as [[] [] [] [] [] [] [] []]; vm_compute; congruence. Qed.

Lemma digit_not_newline c : is_digit c = true -> Ascii.eqb c "010" = false.
Proof. destruct c as [[] [] [] [] [] [] [] []]; vm_compute; congruence. Qed.

Lemma newline_space c : Ascii.eqb c "010" = true -> is_space c = true.
Proof. intros Hc. apply Ascii.eqb_eq in Hc. subst c. reflexivity. Qed.

Lemma Forall_rev_iff {A} (P : A -> Prop) (l : list A) : Forall P l -> Forall P (rev l).
Proof.
  rewrite !Forall_forall. intros Hl x Hx.
  apply Hl, list_elem_of_In, in_rev, list_elem_of_In, Hx.
Qed.

(** A trailing index goes, with the whitespace in front of it. *)
Lemma strip_trailing_number_index body ws ds :
  (forall c, last body = Some c -> is_space c = false /\ is_digit c = false) ->
  Forall (fun c => is_space c = true) ws ->
  Forall (fun c => is_digit c = true) ds -> ds <> [] ->
  strip_trailing_number (body ++ ws ++ ds) = body.
Proof.
  intros Hlast Hws Hds Hne. unfold strip_trailing_number.
  rewrite !rev_app_distr, <- app_assoc.
  assert (Hrd : Forall (fun c => is_digit c = true) (rev ds)) by exact (Forall_rev_iff _ _ Hds).
  assert (Hrw : Forall (fun c => is_space c = true) (rev ws)) by exact (Forall_rev_iff _ _ Hws).
  assert (Hhead : forall c, head (rev body) = Some c ->
                            is_space c = false /\ is_digit c = false).
  { intros c Hc. apply Hlast. rewrite <- last_rev_head, rev_involutive in Hc. exact Hc. }
  destruct (rev ds) as [|d ds'] eqn:Ed.
  { apply (f_equal (@rev ascii)) in Ed. rewrite rev_involutive in Ed. contradiction. }
  cbn [app]. apply Forall_cons in Hrd as Hd. destruct Hd as [Hd _].
  rewrite (digit_not_newline d Hd).
  change (d :: ds' ++ rev ws ++ rev body) with ((d :: ds') ++ rev ws ++ rev body).
  rewrite (span_all is_digit (d :: ds') (rev ws ++ rev body) Hrd).
  - rewrite (span_all is_space (rev ws) (rev body) Hrw).
    + cbn [snd]. rewrite rev_involutive, app_nil_r. reflexivity.
    + intros c Hc. apply (Hhead c Hc).
  - intros c Hc. destruct (rev ws) as [|w ws'].
    + apply (Hhead c Hc).
    + injection Hc as <-. apply Forall_cons in Hrw as [Hw _]. apply space_not_digit, Hw.
Qed.

(** Without a trailing index nothing goes. *)
Lemma strip_trailing_number_none body ws :
  (forall c, last body = Some c -> is_space c = false /\ is_digit c = false) ->
  Forall (fun c => is_space c = true) ws ->
  strip_trailing_number (body ++ ws) = body ++ ws.
Proof.
  intros Hlast Hws. unfold strip_trailing_number. rewrite rev_app_distr.
  assert (Hrw : Forall (fun c => is_space c = true) (rev ws)) by exact (Forall_rev_iff _ _ Hws).
  assert (Hhead : forall c, head (rev body) = Some c ->
                            is_space c = false /\ is_digit c = false).
  { intros c Hc. apply Hlast. rewrite <- last_rev_head, rev_involutive in Hc. exact Hc. }
  assert (Hnd : forall l, Forall (fun c => is_space c = true) l ->
                  span is_digit (l ++ rev body) = ([], l ++ rev body)).
  { intros l Hl. apply (span_all is_digit []); [apply Forall_nil; exact I|].
    intros c Hc. destruct l as [|w l'].
    - apply (Hhead c Hc).
    - injection Hc as <-. apply Forall_cons in Hl as [Hw _]. apply space_not_digit, Hw. }
  destruct (rev ws) as [|w ws'] eqn:Ew.
  - cbn [app]. destruct (rev body) as [|c r] eqn:Eb; [reflexivity|].
    destruct (Hhead c eq_refl) as [Hs Hd].
    destruct (Ascii.eqb c "010") eqn:Hn.
    { apply newline_space in Hn. congruence. }
    cbn [span]. rewrite Hd. reflexivity.
  - cbn [app]. apply Forall_cons in Hrw as [Hw Hrw'].
    destruct (Ascii.eqb w "010").
    + rewrite (Hnd ws' Hrw'). reflexivity.
    + change (w :: ws' ++ rev body) with ((w :: ws') ++ rev body).
      rewrite (Hnd (w :: ws')); [reflexivity|].
      apply Forall_cons. split; assumption.
Qed.

Section KitName.
Context `{PathLib}.

(** X2. For a file whose stem is the category name in any letter case,
    whitespace, a kit name, whitespace and a run of digits (each but the
    first possibly empty), [extract_kit_name] returns the kit name, and
    [UNKNOWN] when the kit name is empty.  The kit name is taken without
    surrounding whitespace and not ending in a digit. *)
Theorem extract_kit_name_structured (filename category prefix ws1 kit ws2 digits : pystr) :
  path_stem filename = prefix ++ ws1 ++ kit ++ ws2 ++ digits ->
  lower prefix = lower category ->
  Forall (fun c => is_space c = true) ws1 ->
  Forall (fun c => is_space c = true) ws2 ->
  Forall (fun c => is_digit c = true) digits ->
  strip kit = kit ->
  (forall c, last kit = Some c -> is_digit c = false) ->
  extract_kit_name filename category
  = match kit with [] => lit "UNKNOWN" | _ => kit end.
Proof.
  intros Hstem Hpre Hw1 Hw2 Hds Hkit Hnd.
  assert (Hh : forall c, head kit = Some c -> is_space c = false).
  { intros c Hc. apply (strip_head kit). rewrite Hkit. exact Hc. }
  assert (Hl : forall c, last kit = Some c -> is_space c = false /\ is_digit c = false).
  { intros c Hc. split; [|exact (Hnd c Hc)]. apply (strip_last kit). rewrite Hkit. exact Hc. }
  unfold extract_kit_name, strip_category.
  rewrite Hstem, (match_literal_ignorecase_app category prefix _ Hpre).
  rewrite lstrip_app_blank by exact Hw1.
  assert (Hbody : strip (strip_trailing_number (lstrip (kit ++ ws2 ++ digits))) = kit).
  { destruct kit as [|k kit'] eqn:Ek.
    - cbn [app]. destruct digits as [|d ds].
      + rewrite app_nil_r.
        assert (E : lstrip ws2 = []).
        { rewrite <- (app_nil_r ws2), lstrip_app_blank by exact Hw2. reflexivity. }
        rewrite E. reflexivity.
      + rewrite lstrip_app_blank by exact Hw2.
        rewrite lstrip_fixed.
        2:{ intros c [= <-]. apply Forall_cons in Hds as [Hd _].
            destruct (is_space d) eqn:Hs; [|reflexivity].
            apply space_not_digit in Hs. congruence. }
        pose proof (strip_trailing_number_index [] [] (d :: ds)) as Hi.
        cbn [app] in Hi. rewrite Hi;
          [reflexivity|discriminate|apply Forall_nil; exact I|exact Hds|discriminate].
    - rewrite <- Ek in *. rewrite lstrip_fixed.
      2:{ intros c Hc. apply Hh. rewrite Ek in Hc |- *. exact Hc. }
      destruct digits as [|d ds].
      + rewrite app_nil_r, (strip_trailing_number_none kit ws2 Hl Hw2).
        rewrite <- (app_nil_l (kit ++ ws2)).
        apply strip_between; [apply Forall_nil; exact I|exact Hw2|exact Hkit].
      + rewrite (strip_trailing_number_index kit ws2 (d :: ds) Hl Hw2 Hds); [exact Hkit|discriminate]. }
  rewrite Hbody. destruct kit; reflexivity.
Qed.

(** A kit name is never empty and carries no whitespace at either end. *)
Lemma extract_kit_name_clean (filename category : pystr) :
  extract_kit_name filename category <> []
  /\ strip (extract_kit_name filename category) = extract_kit_name filename category.
Proof.
  unfold extract_kit_name.
  destruct (strip (strip_trailing_number (strip_category category (path_stem filename))))
    as [|c s] eqn:Es.
  - split; [discriminate|reflexivity].
  - split; [discriminate|]. rewrite <- Es. apply strip_idemp.
Qed.

End KitName.

Lemma extract_kit_name_structured_witness :
  extract_kit_name (lit "/lib/808/KICK  Foo Bar 12.wav") (lit "kick") = lit "Foo Bar".
Proof.
  apply (extract_kit_name_structured _ (lit "kick") (lit "KICK") (lit "  ")
           (lit "Foo Bar") (lit " ") (lit "12"));
    try reflexivity; try (repeat constructor).
  intros c [= <-]. reflexivity.
Defined.

(** Files named by category and index alone fall into the kit [UNKNOWN]. *)
Example kit_name_unknown :
  extract_kit_name (lit "/lib/Kick 1.wav") (lit "kick") = lit "UNKNOWN".
Proof. reflexivity. Qed.

(** Only the canonical name is taken off: a file named by a synonym keeps
    it in its kit name. *)
Example kit_name_keeps_synonym :
  extract_kit_name (lit "/lib/BD Foo 3.wav") (lit "kick") = lit "BD Foo".
Proof. reflexivity. Qed.

(** ** The scan *)

Section DictAll.
Context {K V : Type} `{EqDecision K}.

Lemma dict_set_Forall (P : K * V -> Prop) (d : list (K * V)) k v :
  Forall P d -> P (k, v) -> Forall P (dict_set k v d).
Proof.
  intros Hd Hv. induction Hd as [|[k' v'] d Hk Hd' IH]; simpl.
  - apply Forall_cons. split; [exact Hv|apply Forall_nil; exact I].
  - destruct (decide (k' = k)) as [->|Hne]; apply Forall_cons; split; assumption.
Qed.

Lemma dict_get_Forall (P : K * V -> Prop) (d : list (K * V)) k v :
  Forall P d -> dict_get k d = Some v -> P (k, v).
Proof.
  intros Hd Hg. rewrite Forall_forall in Hd. apply Hd, dict_get_Some_elem, Hg.
Qed.

End DictAll.

Lemma detect_category_known filename (nomenclature : Nomenclature) :
  detect_category filename nomenclature = lit "other"
  \/ detect_category filename nomenclature ∈ dict_keys nomenclature.
Proof.
  unfold detect_category. generalize (lower filename) as name. intros name.
  induction nomenclature as [|[c syns] rest IH]; simpl; [left; reflexivity|].
  destruct (existsb _ syns).
  - right. apply list_elem_of_here.
  - destruct IH as [IH|IH]; [left; exact IH|right; apply list_elem_of_further, IH].
Qed.

Section Scan.
Context `{PathLib} `{OsPath}.

(** The files of a walk, each with its directory, in the order of the
    walk. *)
Definition walk_entries (walk : list (pystr * list pystr)) : list (pystr * pystr) :=
  flat_map (fun '(root, files) => map (fun file => (root, file)) files) walk.

Definition is_audio (file : pystr) : bool :=
  bool_decide (lower (path_suffix file) ∈ AUDIO_EXTS).

Definition entry_category (nomenclature : Nomenclature) (e : pystr * pystr) : pystr :=
  detect_category e.2 nomenclature.

Definition entry_kit (nomenclature : Nomenclature) (e : pystr * pystr) : pystr :=
  extract_kit_name e.2 (entry_category nomenclature e).

(** [kits[kit_name][category]], empty where a key is missing. *)
Definition files_of (kits : list (pystr * Elements)) (kit_name category : pystr)
  : list pystr :=
  default [] (dict_get category (default [] (dict_get kit_name kits))).

(** The scan as one loop over the entries. *)
Definition scan_entries (nomenclature : Nomenclature)
    (kits : list (pystr * Elements)) (entries : list (pystr * pystr))
  : list (pystr * Elements) :=
  foldl (fun kits e => scan_file nomenclature e.1 kits e.2) kits entries.

Lemma scan_samples_entries walk nomenclature :
  scan_samples walk nomenclature = scan_entries nomenclature [] (walk_entries walk).
Proof.
  unfold scan_samples, scan_entries. generalize ([] : list (pystr * Elements)) as kits.
  induction walk as [|[root files] walk IH]; intros kits; [reflexivity|].
  cbn [foldl walk_entries flat_map]. rewrite foldl_app, IH. f_equal.
  clear IH. revert kits. induction files as [|f files IHf]; intros kits; [reflexivity|].
  cbn [foldl map]. apply IHf.
Qed.

Lemma files_of_add_sample kits k c p k' c' :
  files_of (add_sample kits k c p) k' c'
  = if decide (k = k' /\ c = c') then files_of kits k c ++ [p]
    else files_of kits k' c'.
Proof.
  unfold files_of, add_sample.
  destruct (decide (k = k')) as [<-|Hk].
  - rewrite dict_get_set_eq. cbn [default from_option id].
    destruct (decide (c = c')) as [<-|Hc].
    + rewrite dict_get_set_eq. rewrite decide_True by auto. reflexivity.
    + rewrite dict_get_set_ne by exact Hc. rewrite decide_False by tauto. reflexivity.
  - rewrite dict_get_set_ne by exact Hk. rewrite decide_False by tauto. reflexivity.
Qed.

Lemma scan_entries_files nomenclature entries kits k c :
  files_of (scan_entries nomenclature kits entries) k c
  = files_of kits k c
    ++ map (fun e => os_join e.1 e.2)
         (filter (fun e => is_audio e.2 = true
                           /\ entry_kit nomenclature e = k
                           /\ entry_category nomenclature e = c) entries).
Proof.
  revert kits. induction entries as [|[root file] entries IH]; intros kits.
  - simpl. rewrite app_nil_r. reflexivity.
  - unfold scan_entries in *. cbn [foldl fst snd]. rewrite IH. clear IH.
    rewrite filter_cons. unfold scan_file, is_audio, entry_kit, entry_category.
    cbn [fst snd].
    destruct (bool_decide (lower (path_suffix file) ∈ AUDIO_EXTS)) eqn:Ha.
    + rewrite files_of_add_sample.
      destruct (decide (extract_kit_name file (detect_category file nomenclature) = k
                        /\ detect_category file nomenclature = c)) as [[Hk Hc]|Hn].
      * rewrite decide_True by auto. cbn [map fst snd].
        rewrite Hk, Hc, <- app_assoc. reflexivity.
      * rewrite decide_False by tauto. reflexivity.
    + rewrite decide_False; [reflexivity|]. intros [Hf _]. discriminate.
Qed.

(** X3. [scan_samples] lists under a kit and a category exactly the audio
    files of the walk (those whose lower-cased suffix is an audio
    extension) that [detect_category] puts in the category and
    [extract_kit_name] in the kit, each joined to its directory, in the
    order of the walk. *)
Theorem scan_samples_lists (walk : list (pystr * list pystr))
    (nomenclature : Nomenclature) (kit_name category : pystr) :
  files_of (scan_samples walk nomenclature) kit_name category
  = map (fun e => os_join e.1 e.2)
      (filter (fun e => is_audio e.2 = true
                        /\ entry_kit nomenclature e = kit_name
                        /\ entry_category nomenclature e = category)
              (walk_entries walk)).
Proof.
  rewrite scan_samples_entries, scan_entries_files. reflexivity.
Qed.

(** What holds of the kits of a scan. *)
Definition scanned (nomenclature : Nomenclature) (kits : list (pystr * Elements)) : Prop :=
  dict_wf kits
  /\ Forall (fun kv =>
       kv.1 <> [] /\ strip kv.1 = kv.1
       /\ dict_wf kv.2 /\ kv.2 <> []
       /\ Forall (fun cf =>
            cf.2 <> []
            /\ (cf.1 = lit "other" \/ cf.1 ∈ dict_keys nomenclature)) kv.2) kits.

Lemma add_sample_scanned nomenclature kits file root :
  scanned nomenclature kits ->
  scanned nomenclature
    (add_sample kits (extract_kit_name file (detect_category file nomenclature))
                (detect_category file nomenclature) (os_join root file)).
Proof.
  intros [Hwf Hall]. unfold add_sample. split; [apply dict_set_wf, Hwf|].
  apply dict_set_Forall; [exact Hall|]. cbn [fst snd].
  destruct (extract_kit_name_clean file (detect_category file nomenclature)) as [Hne Hs].
  split; [exact Hne|]. split; [exact Hs|].
  set (k := extract_kit_name file (detect_category file nomenclature)).
  assert (He : dict_wf (default [] (dict_get k kits))
               /\ Forall (fun cf : pystr * list pystr =>
                    cf.2 <> []
                    /\ (cf.1 = lit "other" \/ cf.1 ∈ dict_keys nomenclature))
                    (default [] (dict_get k kits))).
  { destruct (dict_get k kits) as [e|] eqn:Hg; cbn [default].
    - pose proof (dict_get_Forall _ _ _ _ Hall Hg) as Hp. cbn [fst snd] in Hp. tauto.
    - split; [apply NoDup_nil; exact I|apply Forall_nil; exact I]. }
  destruct He as [Hwe Hfe]. split; [apply dict_set_wf, Hwe|]. split.
  - destruct (default [] (dict_get k kits)) as [|[c0 f0] e0]; simpl; [discriminate|].
    destruct (decide (c0 = detect_category file nomenclature)); discriminate.
  - apply dict_set_Forall; [exact Hfe|]. cbn [fst snd]. split.
    + intros Hnil. apply app_eq_nil in Hnil as [_ Hnil]. discriminate.
    + apply detect_category_known.
Qed.

Lemma scan_entries_scanned nomenclature entries kits :
  scanned nomenclature kits -> scanned nomenclature (scan_entries nomenclature kits entries).
Proof.
  unfold scan_entries. revert kits.
  induction entries as [|[root file] entries IH]; intros kits Hk; [exact Hk|].
  cbn [foldl fst snd]. apply IH. unfold scan_file.
  destruct (bool_decide _); [apply add_sample_scanned, Hk|exact Hk].
Qed.

Lemma scanned_nil nomenclature : scanned nomenclature [].
Proof. split; [apply NoDup_nil; exact I|apply Forall_nil; exact I]. Qed.

(** X4. The kits of a scan form a proper dictionary of proper
    dictionaries: no kit name and no category occurs twice, a kit name is
    not empty and has no whitespace at its ends, no kit is empty, no
    category has an empty list, and a category is [other] or a canonical
    name of the nomenclature. *)
Theorem scan_samples_scanned (walk : list (pystr * list pystr))
    (nomenclature : Nomenclature) :
  scanned nomenclature (scan_samples walk nomenclature).
Proof.
  rewrite scan_samples_entries. apply scan_entries_scanned, scanned_nil.
Qed.

End Scan.

(** ** Sorting twice *)

Lemma py_sorted_fixed {A K} (ltb : K -> K -> bool) (key : A -> K) (l : list A) :
  StronglySorted (key_le ltb key) l -> py_sorted ltb key l = l.
Proof.
  induction 1 as [|x l Hs IH Hall]; [reflexivity|].
  cbn [py_sorted foldr]. fold (py_sorted ltb key l). rewrite IH.
  destruct l as [|y r]; [reflexivity|]. simpl.
  apply Forall_cons in Hall as [Hy _]. unfold key_le in Hy. rewrite Hy. reflexivity.
Qed.

Lemma sort_samples_fixed `{PathLib} (paths : list pystr) :
  sort_samples_by_trailing_number (sort_samples_by_trailing_number paths)
  = sort_samples_by_trailing_number paths.
Proof.
  unfold sort_samples_by_trailing_number. apply py_sorted_fixed.
  apply py_sorted_sorted; [exact key_ltb_asym|exact key_ltb_trans_neg].
Qed.

(** X5. A list of paths that is in the order of the rule comes out of
    [sort_samples_by_trailing_number] unchanged; so sorting a sorted list
    again changes nothing. *)
Theorem sort_samples_idempotent `{PathLib} (paths : list pystr) :
  (StronglySorted (key_le key_ltb sort_key) paths ->
   sort_samples_by_trailing_number paths = paths)
  /\ sort_samples_by_trailing_number (sort_samples_by_trailing_number paths)
     = sort_samples_by_trailing_number paths.
Proof.
  split; [apply py_sorted_fixed|apply sort_samples_fixed].
Qed.

(** ** The two dictionaries of the filter *)

Section FilterLists.
Context `{PathLib}.

(** The kit passes: no reason was reached. *)
Definition accepted (cfg : FilterConfig) (kv : pystr * Elements) : bool :=
  negb (truthy (kit_verdict cfg kv.2).1).

Definition valid_of (cfg : FilterConfig) (kits : list (pystr * Elements))
  : list (pystr * Elements) :=
  map (fun kv => (kv.1, sorted_elements kv.2))
      (filter (fun kv => accepted cfg kv = true) kits).

Definition rejected_of (cfg : FilterConfig) (kits : list (pystr * Elements))
  : list (pystr * Rejection) :=
  map (fun kv => (kv.1, rejection_of cfg kv.2))
      (filter (fun kv => accepted cfg kv = false) kits).

Lemma filter_fold_lists cfg (l : list (pystr * Elements)) valid rejected :
  NoDup (dict_keys l) ->
  (forall k, k ∈ dict_keys l -> (k ∉ dict_keys valid) /\ (k ∉ dict_keys rejected)) ->
  foldl (filter_step cfg) (valid, rejected) l
  = (valid ++ valid_of cfg l, rejected ++ rejected_of cfg l).
Proof.
  unfold valid_of, rejected_of, dict_keys.
  revert valid rejected. induction l as [|[k e] l IH]; intros valid rejected Hnd Hfresh.
  - simpl. rewrite !app_nil_r. reflexivity.
  - cbn [foldl]. cbn [map fst] in Hnd, Hfresh. apply NoDup_cons in Hnd as [Hk Hnd].
    destruct (Hfresh k (list_elem_of_here _ _)) as [Hkv Hkr].
    rewrite filter_step_unfold, !filter_cons.
    assert (Hacc : accepted cfg (k, e) = negb (truthy (kit_verdict cfg e).1)) by reflexivity.
    destruct (truthy (kit_verdict cfg e).1) eqn:Ht; cbn [negb] in Hacc.
    + rewrite decide_False by (rewrite Hacc; discriminate).
      rewrite decide_True by exact Hacc.
      rewrite dict_set_fresh by exact Hkr. rewrite IH.
      * cbn [map fst snd]. rewrite <- app_assoc. reflexivity.
      * exact Hnd.
      * intros k' Hk'. destruct (Hfresh k' (list_elem_of_further _ _ _ Hk')) as [Hv Hr].
        split; [exact Hv|]. rewrite map_app. cbn [map fst].
        intros Hin. apply elem_of_app in Hin as [Hin|Hin]; [exact (Hr Hin)|].
        apply list_elem_of_singleton in Hin. subst k'. exact (Hk Hk').
    + rewrite decide_True by exact Hacc.
      rewrite decide_False by (rewrite Hacc; discriminate).
      rewrite dict_set_fresh by exact Hkv. rewrite IH.
      * cbn [map fst snd]. rewrite <- app_assoc. reflexivity.
      * exact Hnd.
      * intros k' Hk'. destruct (Hfresh k' (list_elem_of_further _ _ _ Hk')) as [Hv Hr].
        split; [|exact Hr]. rewrite map_app. cbn [map fst].
        intros Hin. apply elem_of_app in Hin as [Hin|Hin]; [exact (Hv Hin)|].
        apply list_elem_of_singleton in Hin. subst k'. exact (Hk Hk').
Qed.

Lemma filter_kits_lists kits cfg :
  dict_wf kits -> filter_kits kits cfg = (valid_of cfg kits, rejected_of cfg kits).
Proof.
  intros Hwf. unfold filter_kits. rewrite filter_fold_lists; [reflexivity|exact Hwf|].
  intros k _. split; apply not_elem_of_nil.
Qed.

(** X6. [filter_kits] keeps the order of its input: [valid] holds the kits
    that reach no reason, in the order of the input, their lists sorted;
    [rejected] holds the others, in the order of the input, with the
    reason and details of their verdict and their elements as they came. *)
Theorem filter_kits_in_order (kits : list (pystr * Elements)) (cfg : FilterConfig) :
  dict_wf kits ->
  (filter_kits kits cfg).1
  = map (fun kv => (kv.1, sorted_elements kv.2))
        (filter (fun kv => truthy (kit_verdict cfg kv.2).1 = false) kits)
  /\ (filter_kits kits cfg).2
     = map (fun kv =>
              (kv.1, {| rej_reason := default [] (kit_verdict cfg kv.2).1;
                        rej_details := (kit_verdict cfg kv.2).2;
                        rej_elements := kv.2 |}))
           (filter (fun kv => truthy (kit_verdict cfg kv.2).1 = true) kits).
Proof.
  intros Hwf. rewrite (filter_kits_lists kits cfg Hwf). unfold valid_of, rejected_of.
  cbn [fst snd]. split.
  - f_equal. apply list_filter_iff. intros kv. unfold accepted.
    destruct (truthy _); simpl; split; congruence.
  - f_equal. apply list_filter_iff. intros kv. unfold accepted.
    destruct (truthy _); simpl; split; congruence.
Qed.

(** ** The verdict of a sorted kit *)

Lemma sum_list_from (l : list Z) a : fold_left Z.add l a = a + sum_list l.
Proof.
  unfold sum_list. revert a. induction l as [|x l IH]; intros a; simpl; [lia|].
  rewrite (IH (a + x)), (IH (0 + x)). lia.
Qed.

Section SameLengths.
Variable g : list pystr -> list pystr.
Hypothesis g_length : forall l, length (g l) = length l.

Definition relist (elems : Elements) : Elements :=
  map (fun kv => (kv.1, g kv.2)) elems.

Lemma relist_len l : len (g l) = len l.
Proof. unfold len. rewrite g_length. reflexivity. Qed.

Lemma kit_stats_relist elems : kit_stats (relist elems) = kit_stats elems.
Proof.
  unfold kit_stats, relist, dict_mem, dict_values.
  rewrite (dict_get_map g).
  assert (Hl : map len (map snd (map (fun kv : pystr * list pystr => (kv.1, g kv.2)) elems))
               = map len (map snd elems)).
  { rewrite !map_map. apply map_ext. intros kv. apply relist_len. }
  assert (Hn : len (map (fun kv : pystr * list pystr => (kv.1, g kv.2)) elems) = len elems).
  { unfold len. rewrite length_map. reflexivity. }
  assert (Hm : bool_decide (is_Some (g <$> dict_get (lit "other") elems))
               = bool_decide (is_Some (dict_get (lit "other") elems))).
  { apply bool_decide_ext. rewrite fmap_is_Some. reflexivity. }
  rewrite Hl, Hn, Hm. reflexivity.
Qed.

Lemma overflow_entries_relist cfg elems :
  overflow_entries cfg (relist elems) = overflow_entries cfg elems.
Proof.
  unfold overflow_entries, relist. destruct (mapping cfg) as [[|m0 m]|]; try reflexivity.
  induction elems as [|[cat files] elems IH]; [reflexivity|].
  cbn [map flat_map fst snd]. rewrite IH, relist_len. reflexivity.
Qed.

Lemma count_other_relist elems : count_other (relist elems) = count_other elems.
Proof.
  unfold count_other, relist. rewrite (dict_get_map g).
  destruct (dict_get (lit "other") elems) as [fs|]; [apply relist_len|reflexivity].
Qed.

Lemma kit_verdict_relist cfg elems :
  kit_verdict cfg (relist elems) = kit_verdict cfg elems.
Proof.
  unfold kit_verdict.
  rewrite kit_stats_relist, overflow_entries_relist, count_other_relist. reflexivity.
Qed.

End SameLengths.

Lemma sort_samples_length (paths : list pystr) :
  length (sort_samples_by_trailing_number paths) = length paths.
Proof. apply Permutation_length, py_sorted_perm. Qed.

Lemma kit_verdict_sorted cfg elems :
  dict_wf elems -> kit_verdict cfg (sorted_elements elems) = kit_verdict cfg elems.
Proof.
  intros Hwf. rewrite (sorted_elements_map elems Hwf).
  apply (kit_verdict_relist sort_samples_by_trailing_number sort_samples_length).
Qed.

Lemma sorted_elements_idemp elems :
  dict_wf elems -> sorted_elements (sorted_elements elems) = sorted_elements elems.
Proof.
  intros Hwf. rewrite (sorted_elements_map (sorted_elements elems)).
  - rewrite (sorted_elements_map elems Hwf), map_map. apply map_ext.
    intros [c fs]. cbn [fst snd]. rewrite sort_samples_fixed. reflexivity.
  - unfold dict_wf. rewrite (sorted_elements_keys elems Hwf). exact Hwf.
Qed.

Lemma valid_of_keys cfg kits :
  dict_keys (valid_of cfg kits)
  = dict_keys (filter (fun kv => accepted cfg kv = true) kits).
Proof. unfold valid_of, dict_keys. rewrite map_map. reflexivity. Qed.

Lemma filter_keys_NoDup {V} (P : pystr * V -> Prop) `{forall x, Decision (P x)}
    (d : list (pystr * V)) :
  NoDup (dict_keys d) -> NoDup (dict_keys (filter P d)).
Proof.
  unfold dict_keys. induction d as [|[k v] d IH]; intros Hnd; [exact Hnd|].
  cbn [map fst] in Hnd. apply NoDup_cons in Hnd as [Hk Hnd]. rewrite filter_cons.
  destruct (decide (P (k, v))); [|exact (IH Hnd)].
  cbn [map fst]. apply NoDup_cons. split; [|exact (IH Hnd)].
  intros Hin. apply Hk. apply list_elem_of_fmap in Hin as ([k' v'] & -> & Hin).
  apply list_elem_of_filter in Hin as [_ Hin].
  apply list_elem_of_fmap. exists (k', v'). split; [reflexivity|exact Hin].
Qed.

Lemma valid_of_again cfg (l : list (pystr * Elements)) :
  Forall (fun kv => dict_wf kv.2) l ->
  valid_of cfg (valid_of cfg l) = valid_of cfg l
  /\ rejected_of cfg (valid_of cfg l) = [].
Proof.
  unfold valid_of, rejected_of.
  induction 1 as [|[k e] l He _ [IH1 IH2]]; [split; reflexivity|].
  rewrite filter_cons. cbn [snd] in He.
  destruct (decide (accepted cfg (k, e) = true)) as [Ha|Ha]; [|split; assumption].
  cbn [map fst snd]. rewrite !filter_cons.
  assert (Ha' : accepted cfg (k, sorted_elements e) = true).
  { unfold accepted in *. cbn [snd] in *. rewrite (kit_verdict_sorted cfg e He). exact Ha. }
  rewrite decide_True by exact Ha'. rewrite decide_False by congruence.
  cbn [map fst snd]. rewrite (sorted_elements_idemp e He), IH1, IH2.
  split; reflexivity.
Qed.

(** X7. The kits [filter_kits] accepts are a fixed point of the filter:
    filtered again with the same settings, every one of them is accepted
    and comes out as it went in, and nothing is rejected. *)
Theorem filter_kits_again (kits : list (pystr * Elements)) (cfg : FilterConfig) :
  dict_wf kits ->
  Forall (fun kv => dict_wf kv.2) kits ->
  filter_kits (filter_kits kits cfg).1 cfg = ((filter_kits kits cfg).1, []).
Proof.
  intros Hwf Hall. rewrite (filter_kits_lists kits cfg Hwf). cbn [fst].
  rewrite filter_kits_lists.
  2:{ unfold dict_wf. rewrite valid_of_keys. apply filter_keys_NoDup, Hwf. }
  destruct (valid_of_again cfg kits Hall) as [-> ->]. reflexivity.
Qed.

End FilterLists.

(** ** No file is lost between the folder and the listing *)

(** The files of a kit, and of a dictionary of kits. *)
Definition kit_files (elems : Elements) : list pystr :=
  concat (map (fun cf => cf.2) elems).

Definition all_files (kits : list (pystr * Elements)) : list pystr :=
  concat (map (fun kv => kit_files kv.2) kits).

Definition rejected_files (rejected : list (pystr * Rejection)) : list pystr :=
  concat (map (fun kv => kit_files (rej_elements kv.2)) rejected).

Lemma dict_set_files {V} (f : V -> list pystr) (d : list (pystr * V)) k v' p dflt :
  f dflt = [] ->
  f v' ≡ₚ p :: f (default dflt (dict_get k d)) ->
  concat (map (fun kv => f kv.2) (dict_set k v' d))
  ≡ₚ p :: concat (map (fun kv => f kv.2) d).
Proof.
  intros Hd. induction d as [|[k0 v0] d IH]; intros Hv; simpl in *.
  - rewrite Hd in Hv. rewrite app_nil_r. exact Hv.
  - destruct (decide (k0 = k)) as [->|Hne]; cbn [map concat snd].
    + cbn [default from_option id] in Hv. rewrite Hv. reflexivity.
    + rewrite (IH Hv). symmetry. apply Permutation_middle.
Qed.

Lemma add_sample_files kits k c p :
  all_files (add_sample kits k c p) ≡ₚ p :: all_files kits.
Proof.
  unfold add_sample, all_files.
  apply (dict_set_files kit_files kits k _ p []); [reflexivity|].
  unfold kit_files.
  apply (dict_set_files (fun x => x) (default [] (dict_get k kits)) c _ p []);
    [reflexivity|].
  rewrite Permutation_app_comm. reflexivity.
Qed.

Section Pipeline.
Context `{PathLib} `{OsPath}.

Lemma scan_entries_all_files nomenclature entries kits :
  all_files (scan_entries nomenclature kits entries)
  ≡ₚ all_files kits
     ++ map (fun e => os_join e.1 e.2) (filter (fun e => is_audio e.2 = true) entries).
Proof.
  unfold scan_entries. revert kits.
  induction entries as [|[root file] entries IH]; intros kits.
  - simpl. rewrite app_nil_r. reflexivity.
  - cbn [foldl fst snd]. rewrite IH, filter_cons. unfold scan_file.
    fold (is_audio file). cbn [snd]. destruct (is_audio file) eqn:Ha.
    + rewrite decide_True by reflexivity. rewrite add_sample_files.
      cbn [map fst snd app]. apply Permutation_middle.
    + rewrite decide_False by discriminate. reflexivity.
Qed.

Lemma kit_files_sorted elems :
  dict_wf elems -> kit_files (sorted_elements elems) ≡ₚ kit_files elems.
Proof.
  intros Hwf. rewrite (sorted_elements_map elems Hwf). unfold kit_files. clear Hwf.
  induction elems as [|[c fs] elems IH]; [reflexivity|].
  cbn [map concat fst snd]. rewrite IH.
  apply Permutation_app_tail. unfold sort_samples_by_trailing_number. apply py_sorted_perm.
Qed.

Lemma valid_rejected_files cfg (l : list (pystr * Elements)) :
  Forall (fun kv => dict_wf kv.2) l ->
  all_files (valid_of cfg l) ++ rejected_files (rejected_of cfg l) ≡ₚ all_files l.
Proof.
  unfold valid_of, rejected_of, all_files, rejected_files.
  induction 1 as [|[k e] l He _ IH]; [reflexivity|].
  rewrite !filter_cons. cbn [snd] in He.
  destruct (accepted cfg (k, e)) eqn:Ha.
  - rewrite decide_True by reflexivity. rewrite decide_False by discriminate.
    cbn [map concat fst snd]. rewrite <- app_assoc, IH.
    apply Permutation_app_tail, kit_files_sorted, He.
  - rewrite decide_False by discriminate. rewrite decide_True by reflexivity.
    cbn [map concat fst snd]. rewrite <- IH.
    rewrite !app_assoc. apply Permutation_app_tail, Permutation_app_comm.
Qed.

Lemma scanned_wf nomenclature kits :
  scanned nomenclature kits -> dict_wf kits /\ Forall (fun kv => dict_wf kv.2) kits.
Proof.
  intros [Hwf Hall]. split; [exact Hwf|].
  eapply Forall_impl; [exact Hall|]. intros kv (_ & _ & Hw & _). exact Hw.
Qed.

(** X8. When [create_listing] ends without an exception, the audio files
    of the samples folder are, up to their order, the files of the valid
    kits together with the files of the rejected kits: the listing loses
    no file, invents none and lists none twice. *)
Theorem create_listing_keeps_files (mapping_lines : list pystr)
    (walk : list (pystr * list pystr)) (args : ListingArgs)
    (valid : list (pystr * Elements)) (rejected : list (pystr * Rejection)) :
  create_listing mapping_lines walk args = Some (valid, rejected) ->
  all_files valid ++ rejected_files rejected
  ≡ₚ map (fun e => os_join e.1 e.2)
         (filter (fun e => is_audio e.2 = true) (walk_entries walk)).
Proof.
  unfold create_listing. intros Hc.
  destruct (parse_mapping_file mapping_lines) as [mapping|]; [|discriminate].
  cbn [mbind option_bind] in Hc.
  destruct (listing_trash_notes args) as [trash|]; [|discriminate].
  cbn [mbind option_bind] in Hc. injection Hc as Hc.
  rewrite scan_samples_entries in Hc.
  destruct (scanned_wf _ _ (scan_entries_scanned (mapping_to_nomenclature mapping)
                              (walk_entries walk) [] (scanned_nil _))) as [Hwf Hall].
  rewrite (filter_kits_lists _ _ Hwf) in Hc. injection Hc as <- <-.
  rewrite (valid_rejected_files _ _ Hall), scan_entries_all_files. reflexivity.
Qed.

End Pipeline.

(** ** The samples folder of the examples *)

Example drum_kits_found :
  drum_kits
  = [(lit "808",
      [(lit "kick", [lit "/lib/808/Kick 808 2.wav"; lit "/lib/808/Kick 808 1.wav"]);
       (lit "snare", [lit "/lib/808/Snare 808 1.WAV"])]);
     (lit "Hat", [(lit "other", [lit "/lib/808/Hat 808.wav"])]);
     (lit "909", [(lit "kick", [lit "/lib/909/kick 909 1.flac"])])].
Proof. vm_compute. reflexivity. Qed.

Lemma drum_kits_wf : dict_wf drum_kits /\ Forall (fun kv => dict_wf kv.2) drum_kits.
Proof.
  rewrite drum_kits_found. unfold dict_wf. split.
  - apply (bool_decide_unpack _). vm_compute. reflexivity.
  - repeat (apply Forall_cons; split; [apply (bool_decide_unpack _); vm_compute; reflexivity|]).
    apply Forall_nil. exact I.
Qed.

Lemma sort_samples_idempotent_witness :
  sort_samples_by_trailing_number
    [lit "/lib/808/Kick 808 1.wav"; lit "/lib/808/Kick 808 2.wav"]
  = [lit "/lib/808/Kick 808 1.wav"; lit "/lib/808/Kick 808 2.wav"].
Proof.
  apply (proj1 (sort_samples_idempotent
                  [lit "/lib/808/Kick 808 1.wav"; lit "/lib/808/Kick 808 2.wav"])).
  repeat constructor.
Defined.

Lemma filter_kits_in_order_witness :
  dict_keys (filter_kits drum_kits (drum_config (lit "reject"))).1 = [lit "808"; lit "909"]
  /\ dict_keys (filter_kits drum_kits (drum_config (lit "reject"))).2 = [lit "Hat"].
Proof.
  destruct (filter_kits_in_order drum_kits (drum_config (lit "reject")) (proj1 drum_kits_wf))
    as [-> ->].
  vm_compute. split; reflexivity.
Defined.

Lemma filter_kits_again_witness :
  filter_kits (filter_kits drum_kits (drum_config (lit "reject"))).1
              (drum_config (lit "reject"))
  = ((filter_kits drum_kits (drum_config (lit "reject"))).1, []).
Proof.
  exact (filter_kits_again drum_kits (drum_config (lit "reject"))
           (proj1 drum_kits_wf) (proj2 drum_kits_wf)).
Defined.

Lemma create_listing_keeps_files_witness :
  exists valid rejected,
    drum_listing (lit "reject") = Some (valid, rejected)
    /\ all_files valid ++ rejected_files rejected
       ≡ₚ [lit "/lib/808/Kick 808 2.wav"; lit "/lib/808/Kick 808 1.wav";
           lit "/lib/808/Snare 808 1.WAV"; lit "/lib/808/Hat 808.wav";
           lit "/lib/909/kick 909 1.flac"].
Proof.
  eexists. eexists. split; [vm_compute; reflexivity|].
  apply (create_listing_keeps_files (H := posix_paths) (H0 := posix_os)
           drum_mapping_lines drum_walk (listing_args (lit "reject"))).
  vm_compute. reflexivity.
Defined.

(* ===================================================================== *)
(** * Numbers written and read *)
(* ===================================================================== *)

Lemma pretty_N_go_app (x : N) (s : string) :
  lit (pretty_N_go x s) = lit (pretty_N_go x "") ++ lit s.
Proof.
  revert s. induction (N.lt_wf_0 x) as [x _ IH]. intros s.
  destruct (decide (x = 0%N)) as [->|Hx]; [reflexivity|].
  assert (Hpos : (0 < x)%N) by lia.
  rewrite !(pretty_N_go_step x) by exact Hpos.
  assert (Hlt : (x `div` 10 < x)%N) by (apply N.div_lt; lia).
  rewrite (IH _ Hlt (String _ s)), (IH _ Hlt (String _ "")).
  rewrite <- app_assoc. reflexivity.
Qed.

Lemma pretty_N_char_digit (d : N) :
  (d < 10)%N ->
  is_digit (pretty_N_char d) = true /\ digit_val (pretty_N_char d) = Z.of_N d.
Proof.
  intros Hd.
  assert (d = 0 \/ d = 1 \/ d = 2 \/ d = 3 \/ d = 4 \/ d = 5 \/ d = 6 \/ d = 7
          \/ d = 8 \/ d = 9)%N as Hc by lia.
  repeat (destruct Hc as [->|Hc]); try subst d; split; reflexivity.
Qed.

Lemma decimal_value_snoc ds c :
  decimal_value (ds ++ [c]) = decimal_value ds * 10 + digit_val c.
Proof. unfold decimal_value. rewrite fold_left_app. reflexivity. Qed.

(** The digits [str] writes for a positive number: decimal digits, at
    least one, whose value is the number. *)
Lemma pretty_N_go_digits (x : N) :
  (0 < x)%N ->
  let ds := lit (pretty_N_go x "") in
  Forall (fun c => is_digit c = true) ds /\ ds <> [] /\ decimal_value ds = Z.of_N x.
Proof.
  induction (N.lt_wf_0 x) as [x _ IH]. intros Hpos ds. subst ds.
  rewrite (pretty_N_go_step x) by exact Hpos.
  rewrite pretty_N_go_app.
  destruct (pretty_N_char_digit (x `mod` 10)) as [Hd Hv]; [apply N.mod_lt; lia|].
  change (lit (String (pretty_N_char (x `mod` 10)) "")) with [pretty_N_char (x `mod` 10)].
  destruct (decide (x `div` 10 = 0)%N) as [Hz|Hz].
  - rewrite Hz. cbn [app]. change (lit (pretty_N_go 0 "")) with (@nil ascii). cbn [app].
    split; [apply Forall_cons; split; [exact Hd|apply Forall_nil; exact I]|].
    split; [discriminate|].
    unfold decimal_value. simpl. rewrite Hv.
    pose proof (N.div_mod x 10 ltac:(lia)) as Hdm. lia.
  - destruct (IH (x `div` 10)%N) as (Hall & Hne & Hval);
      [apply N.div_lt; lia|apply N.neq_0_lt_0; exact Hz|].
    split; [apply Forall_app; split;
            [exact Hall|apply Forall_cons; split; [exact Hd|apply Forall_nil; exact I]]|].
    split; [intros Hnil; apply app_eq_nil in Hnil as [_ Hnil]; discriminate|].
    rewrite decimal_value_snoc, Hval, Hv.
    pose proof (N.div_mod x 10 ltac:(lia)) as Hdm. lia.
Qed.

(** [str(n)] for [n >= 0] is a non-empty run of digits of value [n]. *)
Lemma str_of_Z_digits (n : Z) :
  0 <= n ->
  Forall (fun c => is_digit c = true) (str_of_Z n)
  /\ str_of_Z n <> [] /\ decimal_value (str_of_Z n) = n.
Proof.
  intros Hn. unfold str_of_Z. destruct n as [|p|p]; [| |lia].
  - split; [repeat constructor|]. split; [discriminate|reflexivity].
  - change (pretty (Z.pos p)) with (pretty_N_go (N.pos p) "").
    exact (pretty_N_go_digits (N.pos p) ltac:(lia)).
Qed.

Lemma str_of_Z_neg (p : positive) :
  str_of_Z (Z.neg p) = "-"%char :: str_of_Z (Z.pos p).
Proof. reflexivity. Qed.

Lemma int_digits_run ds acc after :
  Forall (fun c => is_digit c = true) ds -> (ds <> [] \/ after = true) ->
  int_digits acc after ds = Some (fold_left (fun a c => a * 10 + digit_val c) ds acc).
Proof.
  intros Hds. revert acc after. induction Hds as [|c ds Hc _ IH]; intros acc after Hne.
  - destruct Hne as [Hne| ->]; [contradiction|reflexivity].
  - simpl. rewrite Hc. apply IH. right. reflexivity.
Qed.

Lemma digit_not_space c : is_digit c = true -> is_space c = false.
Proof.
  intros Hd. destruct (is_space c) eqn:Hs; [|reflexivity].
  apply space_not_digit in Hs. congruence.
Qed.

Lemma digit_not_sign c :
  is_digit c = true -> Ascii.eqb c "-" = false /\ Ascii.eqb c "+" = false.
Proof. destruct c as [[] [] [] [] [] [] [] []]; vm_compute; intros; split; congruence. Qed.

Lemma Forall_last {A} (P : A -> Prop) (l : list A) x :
  Forall P l -> last l = Some x -> P x.
Proof.
  intros Hl Hx. rewrite Forall_forall in Hl. apply Hl.
  apply last_Some in Hx as [l' ->]. apply elem_of_app. right. apply list_elem_of_here.
Qed.

(** [int] reads a run of digits as its value, also behind a minus sign. *)
Lemma py_int_digits ds :
  Forall (fun c => is_digit c = true) ds -> ds <> [] ->
  py_int ds = Some (decimal_value ds)
  /\ py_int ("-"%char :: ds) = Some (- decimal_value ds).
Proof.
  intros Hds Hne.
  assert (Hs : strip ds = ds).
  { apply strip_fixed; intros c Hc; apply digit_not_space.
    - destruct ds as [|d ds']; [discriminate|]. injection Hc as <-.
      apply Forall_cons in Hds as [Hd _]. exact Hd.
    - exact (Forall_last _ _ _ Hds Hc). }
  assert (Hs' : strip ("-"%char :: ds) = "-"%char :: ds).
  { apply strip_fixed.
    - intros c [= <-]. reflexivity.
    - intros c Hc. apply digit_not_space.
      destruct ds as [|d ds']; [contradiction|].
      change (last ("-"%char :: d :: ds')) with (last (d :: ds')) in Hc.
      exact (Forall_last _ _ _ Hds Hc). }
  unfold py_int. rewrite Hs, Hs'. split.
  - destruct ds as [|d ds'] eqn:Ed; [contradiction|]. rewrite <- Ed in *.
    assert (Hd : is_digit d = true).
    { rewrite Ed in Hds. apply Forall_cons in Hds as [Hd _]. exact Hd. }
    destruct (digit_not_sign d Hd) as [-> ->].
    apply int_digits_run; [exact Hds|left; exact Hne].
  - rewrite Ascii.eqb_refl.
    rewrite (int_digits_run ds 0 false Hds (or_introl Hne)). reflexivity.
Qed.

Lemma py_int_str_core (n : Z) :
  py_int (str_of_Z n) = Some n /\ strip (str_of_Z n) = str_of_Z n.
Proof.
  destruct n as [|p|p].
  - split; reflexivity.
  - destruct (str_of_Z_digits (Z.pos p) ltac:(lia)) as (Hds & Hne & Hv).
    destruct (py_int_digits _ Hds Hne) as [Hi _]. rewrite Hv in Hi. split; [exact Hi|].
    apply strip_fixed; intros c Hc; apply digit_not_space.
    + destruct (str_of_Z (Z.pos p)) as [|d ds']; [discriminate|]. injection Hc as <-.
      apply Forall_cons in Hds as [Hd _]. exact Hd.
    + exact (Forall_last _ _ _ Hds Hc).
  - destruct (str_of_Z_digits (Z.pos p) ltac:(lia)) as (Hds & Hne & Hv).
    destruct (py_int_digits _ Hds Hne) as [_ Hi]. rewrite Hv in Hi.
    rewrite str_of_Z_neg. split; [exact Hi|].
    apply strip_fixed.
    + intros c [= <-]. reflexivity.
    + intros c Hc. apply digit_not_space.
      destruct (str_of_Z (Z.pos p)) as [|d ds'] eqn:Ed; [contradiction|].
      change (last ("-"%char :: d :: ds')) with (last (d :: ds')) in Hc.
      exact (Forall_last _ _ _ Hds Hc).
Qed.

(** Reading back what was written: [int(str(n))] is [n] for every
    integer [n], also with whitespace around the digits. *)
Lemma py_int_str_of_Z (n : Z) (a b : pystr) :
  Forall (fun c => is_space c = true) a -> Forall (fun c => is_space c = true) b ->
  py_int (a ++ str_of_Z n ++ b) = Some n.
Proof.
  intros Ha Hb. destruct (py_int_str_core n) as [Hi Hs]. unfold py_int in *.
  rewrite (strip_between a (str_of_Z n) b Ha Hb Hs). rewrite Hs in Hi. exact Hi.
Qed.

Lemma py_int_str_of_Z_witness : py_int (lit " " ++ str_of_Z (-127) ++ lit "  ") = Some (-127).
Proof. apply py_int_str_of_Z; repeat constructor. Defined.

(** ** The trailing index *)

Lemma extract_trailing_index_digits stem w ds :
  is_space w = true -> Forall (fun c => is_digit c = true) ds -> ds <> [] ->
  extract_trailing_index (stem ++ w :: ds) = Some (decimal_value ds).
Proof.
  intros Hw Hds Hne. unfold extract_trailing_index.
  rewrite rev_app_distr. cbn [rev]. rewrite <- !app_assoc. cbn [app].
  assert (Hrd : Forall (fun c => is_digit c = true) (rev ds)) by exact (Forall_rev_iff _ _ Hds).
  destruct (rev ds) as [|d ds'] eqn:Ed.
  { apply (f_equal (@rev ascii)) in Ed. rewrite rev_involutive in Ed. contradiction. }
  cbn [app]. apply Forall_cons in Hrd as Hd. destruct Hd as [Hd _].
  rewrite (digit_not_newline d Hd).
  change (d :: ds' ++ w :: rev stem) with ((d :: ds') ++ w :: rev stem).
  rewrite (span_all is_digit (d :: ds') (w :: rev stem) Hrd).
  - rewrite Hw. rewrite <- Ed, rev_involutive. reflexivity.
  - intros c [= <-]. apply space_not_digit, Hw.
Qed.

(** X9. A stem that ends in a whitespace character and the decimal
    writing of [n >= 0] has the trailing index [n]; more generally a run
    of digits behind a whitespace character is read as its value, leading
    zeros included.  A run of digits (or none) behind a character that is
    neither whitespace nor a digit gives no trailing index. *)
Theorem extract_trailing_index_reads (stem : pystr) :
  (forall w n, is_space w = true -> 0 <= n ->
     extract_trailing_index (stem ++ w :: str_of_Z n) = Some n)
  /\ (forall w ds, is_space w = true ->
        Forall (fun c => is_digit c = true) ds -> ds <> [] ->
        extract_trailing_index (stem ++ w :: ds) = Some (decimal_value ds))
  /\ (forall ds,
        (forall c, last stem = Some c -> is_space c = false /\ is_digit c = false) ->
        Forall (fun c => is_digit c = true) ds ->
        extract_trailing_index (stem ++ ds) = None).
Proof.
  split; [|split].
  - intros w n Hw Hn. destruct (str_of_Z_digits n Hn) as (Hds & Hne & Hv).
    rewrite (extract_trailing_index_digits stem w _ Hw Hds Hne), Hv. reflexivity.
  - intros w ds. apply extract_trailing_index_digits.
  - intros ds Hlast Hds. unfold extract_trailing_index. rewrite rev_app_distr.
    assert (Hrd : Forall (fun c => is_digit c = true) (rev ds)) by exact (Forall_rev_iff _ _ Hds).
    assert (Hhead : forall c, head (rev stem) = Some c ->
                              is_space c = false /\ is_digit c = false).
    { intros c Hc. apply Hlast. rewrite <- last_rev_head, rev_involutive in Hc. exact Hc. }
    destruct (rev ds) as [|d ds'].
    + cbn [app]. destruct (rev stem) as [|c r]; [reflexivity|].
      destruct (Hhead c eq_refl) as [Hs Hd].
      destruct (Ascii.eqb c "010") eqn:Hn.
      { apply newline_space in Hn. congruence. }
      cbn [span]. rewrite Hd. reflexivity.
    + cbn [app]. apply Forall_cons in Hrd as Hd. destruct Hd as [Hd _].
      rewrite (digit_not_newline d Hd).
      change (d :: ds' ++ rev stem) with ((d :: ds') ++ rev stem).
      rewrite (span_all is_digit (d :: ds') (rev stem) Hrd).
      * destruct (rev stem) as [|c r]; [reflexivity|].
        destruct (Hhead c eq_refl) as [Hs _]. rewrite Hs. reflexivity.
      * intros c Hc. apply (Hhead c Hc).
Qed.

Lemma extract_trailing_index_reads_witness :
  extract_trailing_index (lit "Kick 808" ++ " "%char :: str_of_Z 12) = Some 12
  /\ extract_trailing_index (lit "Kick" ++ lit "01") = None.
Proof.
  destruct (extract_trailing_index_reads (lit "Kick 808")) as (H1 & _ & _).
  split; [apply H1; [reflexivity|lia]|].
  destruct (extract_trailing_index_reads (lit "Kick")) as (_ & _ & H3).
  apply H3; [|repeat constructor]. intros c [= <-]. split; reflexivity.
Defined.

(** ** Note lists written out *)












(* ===================================================================== *)
(** * The mapping table *)
(* ===================================================================== *)

Lemma split_fields c s f :
  f ∈ split c s -> (c ∉ f) /\ forall x, x ∈ f -> x ∈ s.
Proof.
  revert f. induction s as [|x s IH]; intros f Hf; simpl in Hf.
  - apply list_elem_of_singleton in Hf. subst f.
    split; [apply not_elem_of_nil|intros x Hx; exact Hx].
  - destruct (Ascii.eqb_spec x c) as [->|Hne].
    + apply elem_of_cons in Hf as [->|Hf].
      * split; [apply not_elem_of_nil|]. intros y Hy. apply elem_of_nil in Hy. destruct Hy.
      * destruct (IH f Hf) as [Hc Hs]. split; [exact Hc|].
        intros y Hy. apply list_elem_of_further, Hs, Hy.
    + destruct (split c s) as [|f0 fs] eqn:Es.
      * apply list_elem_of_singleton in Hf. subst f. split.
        -- intros Hc. apply list_elem_of_singleton in Hc. congruence.
        -- intros y Hy. apply list_elem_of_singleton in Hy. subst y. apply list_elem_of_here.
      * apply elem_of_cons in Hf as [->|Hf].
        -- destruct (IH f0 (list_elem_of_here _ _)) as [Hc Hs]. split.
           ++ intros Hin. apply elem_of_cons in Hin as [Hin|Hin]; [congruence|exact (Hc Hin)].
           ++ intros y Hy. apply elem_of_cons in Hy as [->|Hy];
                [apply list_elem_of_here|apply list_elem_of_further, Hs, Hy].
        -- destruct (IH f (list_elem_of_further _ _ _ Hf)) as [Hc Hs]. split; [exact Hc|].
           intros y Hy. apply list_elem_of_further, Hs, Hy.
Qed.

Lemma split1_left c s l r : split1 c s = [l; r] -> (c ∉ l) /\ s = l ++ c :: r.
Proof.
  revert l. induction s as [|x s IH]; intros l Hs; simpl in Hs; [discriminate|].
  destruct (Ascii.eqb_spec x c) as [->|Hne].
  - injection Hs as <- <-. split; [apply not_elem_of_nil|reflexivity].
  - destruct (split1 c s) as [|f [|f' [|f'' fs]]] eqn:Es; try discriminate.
    injection Hs as <- <-. destruct (IH f eq_refl) as [Hc ->].
    split; [|reflexivity].
    intros Hin. apply elem_of_cons in Hin as [Hin|Hin]; [congruence|exact (Hc Hin)].
Qed.

Lemma stripped_fields_good c s f :
  f ∈ stripped_fields c s ->
  f <> [] /\ strip f = f /\ (c ∉ f) /\ forall x, x ∈ f -> x ∈ s.
Proof.
  unfold stripped_fields. intros Hf.
  apply list_elem_of_fmap in Hf as (g & -> & Hg).
  apply list_elem_of_filter in Hg as [Hne Hg].
  destruct (split_fields c s g Hg) as [Hc Hs].
  split; [exact Hne|]. split; [apply strip_idemp|]. split.
  - intros Hin. apply Hc, (strip_elem g c Hin).
  - intros x Hx. apply Hs, (strip_elem g x Hx).
Qed.

Lemma lower_char_colon y : lower_char y = ":"%char -> y = ":"%char.
Proof. destruct y as [[] [] [] [] [] [] [] []]; vm_compute; congruence. Qed.

Lemma lower_fixed s : Forall (fun c => lower_char c = c) s -> lower s = s.
Proof.
  unfold lower. induction 1 as [|c s Hc _ IH]; [reflexivity|].
  simpl. rewrite Hc, IH. reflexivity.
Qed.

(** A name of the table: not empty, no whitespace at its ends, in lower
    case, without slash and without colon. *)
Definition table_name (s : pystr) : Prop :=
  s <> [] /\ strip s = s /\ lower s = s /\ ("/"%char ∉ s) /\ (":"%char ∉ s).

(** An entry of the table is filed under its first synonym. *)
Definition table_entry (kv : pystr * MappingEntry) : Prop :=
  canonical kv.2 = kv.1
  /\ head (synonyms kv.2) = Some kv.1
  /\ Forall table_name (synonyms kv.2).

Lemma left_side_names (l0 : pystr) :
  (":"%char ∉ l0) -> Forall table_name (stripped_fields "/" (lower (strip l0))).
Proof.
  intros Hcolon. apply Forall_forall. intros f Hf.
  destruct (stripped_fields_good _ _ _ Hf) as (Hne & Hs & Hsl & Hsub).
  split; [exact Hne|]. split; [exact Hs|]. split; [|split; [exact Hsl|]].
  - apply lower_fixed, Forall_forall. intros x Hx.
    specialize (Hsub x Hx). unfold lower in Hsub.
    apply list_elem_of_fmap in Hsub as (y & -> & _). apply lower_char_idemp.
  - intros Hin. specialize (Hsub _ Hin). unfold lower in Hsub.
    apply list_elem_of_fmap in Hsub as (y & Hy & Hin').
    symmetry in Hy. apply lower_char_colon in Hy. subst y.
    apply Hcolon, (strip_elem l0 _ Hin').
Qed.

(** What a line does to the table: nothing, or one entry set. *)
Lemma parse_mapping_line_cases (m m' : Mapping) raw :
  parse_mapping_line m raw = Some m' ->
  m' = m
  \/ exists e, m' = dict_set (canonical e) e m /\ table_entry (canonical e, e).
Proof.
  unfold parse_mapping_line.
  destruct (bool_decide (strip raw = []) || startswith (lit "#") (strip raw));
    [intros [= <-]; left; reflexivity|].
  intros Hp. right.
  assert (Hl : exists l0 right_,
             (":"%char ∉ l0)
             /\ (if contains ":" (strip raw)
                 then match split1 ":" (strip raw) with
                      | [l; r] => Some (lower (strip l), Some (strip r))
                      | _ => None
                      end
                 else Some (lower (strip (strip raw)), None))
                = Some (lower (strip l0), right_)).
  { destruct (contains ":" (strip raw)) eqn:Hc.
    - destruct (split1 ":" (strip raw)) as [|l [|r [|x xs]]] eqn:Es;
        try (cbn in Hp; discriminate).
      exists l, (Some (strip r)). split; [exact (proj1 (split1_left _ _ _ _ Es))|reflexivity].
    - exists (strip raw), None. split; [|reflexivity].
      intros Hin. apply contains_elem in Hin. congruence. }
  destruct Hl as (l0 & right_ & Hcolon & Hl). rewrite Hl in Hp.
  cbn [mbind option_bind] in Hp.
  pose proof (left_side_names l0 Hcolon) as Hnames.
  destruct (stripped_fields "/" (lower (strip l0))) as [|c syns] eqn:Es;
    [cbn in Hp; discriminate|].
  cbn [head mbind option_bind] in Hp.
  destruct (match right_ with
            | Some r => Some <$> parse_line_notes r
            | None => Some None
            end) as [notes|]; [|cbn in Hp; discriminate].
  cbn [mbind option_bind] in Hp. injection Hp as <-.
  exists {| canonical := c; synonyms := c :: syns; midi_notes := notes |}.
  split; [reflexivity|].
  split; [reflexivity|]. split; [reflexivity|exact Hnames].
Qed.

Definition table (m : Mapping) : Prop := dict_wf m /\ Forall table_entry m.

Lemma parse_mapping_fold lines (m m' : Mapping) :
  table m ->
  foldl (fun acc raw => acc ≫= fun m => parse_mapping_line m raw) (Some m) lines
    = Some m' ->
  table m'.
Proof.
  revert m. induction lines as [|raw lines IH]; intros m Hm; cbn [foldl].
  - intros [= <-]. exact Hm.
  - cbn [mbind option_bind].
    destruct (parse_mapping_line m raw) as [m1|] eqn:Hl.
    + apply IH. destruct Hm as [Hwf Hall].
      destruct (parse_mapping_line_cases _ _ _ Hl) as [->|(e & -> & He)];
        [split; assumption|].
      split; [apply dict_set_wf, Hwf|apply dict_set_Forall; assumption].
    + intros Hf. exfalso. clear -Hf.
      induction lines as [|r ls IHl]; [discriminate|]. exact (IHl Hf).
Qed.

(** X11. A mapping table read by [parse_mapping_file] has no canonical
    name twice; every entry is filed under its canonical name, which is
    the first of its synonyms; and every synonym is a non-empty name in
    lower case, without whitespace at its ends, without slash and without
    colon. *)
Theorem parse_mapping_file_table (lines : list pystr) (m : Mapping) :
  parse_mapping_file lines = Some m ->
  dict_wf m
  /\ Forall (fun kv =>
       canonical kv.2 = kv.1
       /\ head (synonyms kv.2) = Some kv.1
       /\ Forall (fun s => s <> [] /\ strip s = s /\ lower s = s
                           /\ ("/"%char ∉ s) /\ (":"%char ∉ s)) (synonyms kv.2)) m.
Proof.
  intros Hp. apply (parse_mapping_fold lines [] m); [|exact Hp].
  split; [apply NoDup_nil; exact I|apply Forall_nil; exact I].
Qed.

Lemma parse_mapping_file_table_witness :
  exists m, parse_mapping_file drum_mapping_lines = Some m
            /\ dict_keys m = [lit "kick"; lit "snare"]
            /\ dict_wf m.
Proof.
  eexists. split; [vm_compute; reflexivity|]. split; [reflexivity|].
  apply (parse_mapping_file_table drum_mapping_lines). vm_compute. reflexivity.
Defined.

(* ===================================================================== *)
(** * Velocity bands for any number of layers *)
(* ===================================================================== *)

(** Band [i] of [n], as the first loop of [velocity_ranges] computes it
    for every band but the last. *)
Definition band (n i : Z) : Z * Z := (i * 127 / n + 1, (i + 1) * 127 / n).

Lemma raw_band_band n i : 1 <= n -> raw_band n i = band n i.
Proof.
  intros Hn. unfold raw_band, band. destruct (Z.eqb_spec i (n - 1)) as [->|_]; [|reflexivity].
  replace ((n - 1 + 1) * 127) with (127 * n) by lia.
  rewrite Z.div_mul by lia. reflexivity.
Qed.

Lemma bands_lookup n (i : nat) :
  (i < Z.to_nat n)%nat ->
  map (band n) (range n) !! i = Some (band n (Z.of_nat i)).
Proof.
  intros Hi. unfold range. rewrite !list_lookup_fmap, lookup_seq_lt by exact Hi.
  reflexivity.
Qed.

Lemma contiguous_fold (ranges : list (Z * Z)) (idxs : list nat) :
  (forall i ps pe cs ce, i ∈ idxs ->
     ranges !! (i - 1)%nat = Some (ps, pe) -> ranges !! i = Some (cs, ce) ->
     cs = pe + 1) ->
  foldl contiguous_step ranges idxs = ranges.
Proof.
  induction idxs as [|i idxs IH]; intros Hc; [reflexivity|].
  cbn [foldl].
  assert (Hs : contiguous_step ranges i = ranges).
  { unfold contiguous_step.
    destruct (ranges !! (i - 1)%nat) as [[ps pe]|] eqn:Hp; [|reflexivity].
    destruct (ranges !! i) as [[cs ce]|] eqn:Hi; [|reflexivity].
    rewrite (Hc i ps pe cs ce (list_elem_of_here _ _) Hp Hi), Z.eqb_refl. reflexivity. }
  rewrite Hs. apply IH. intros j ps pe cs ce Hj. apply Hc, list_elem_of_further, Hj.
Qed.

(** The pass that makes the bands contiguous finds them contiguous. *)
Lemma velocity_ranges_bands n : 1 <= n -> velocity_ranges n = map (band n) (range n).
Proof.
  intros Hn. unfold velocity_ranges.
  destruct (Z.leb_spec n 0) as [Hle|_]; [lia|].
  assert (Hraw : map (raw_band n) (range n) = map (band n) (range n)).
  { apply map_ext. intros i. apply raw_band_band, Hn. }
  rewrite Hraw. apply contiguous_fold.
  intros i ps pe cs ce Hi Hp Hc. apply elem_of_seq in Hi.
  assert (Hlen : length (map (band n) (range n)) = Z.to_nat n).
  { unfold range. rewrite !length_map, length_seq. reflexivity. }
  rewrite Hlen in Hi.
  rewrite bands_lookup in Hp by lia. rewrite bands_lookup in Hc by lia.
  injection Hp as _ <-. injection Hc as <- _.
  replace (Z.of_nat (i - 1) + 1) with (Z.of_nat i) by lia. reflexivity.
Qed.

Lemma velocity_ranges_length n : length (velocity_ranges n) = Z.to_nat n.
Proof.
  destruct (Z_le_gt_dec n 0) as [Hle|Hgt].
  - unfold velocity_ranges. destruct (Z.leb_spec n 0); [|lia].
    replace (Z.to_nat n) with 0%nat by lia. reflexivity.
  - rewrite velocity_ranges_bands by lia. unfold range.
    rewrite !length_map, length_seq. reflexivity.
Qed.

Lemma velocity_ranges_lookup n (i : nat) :
  (i < Z.to_nat n)%nat -> velocity_ranges n !! i = Some (band n (Z.of_nat i)).
Proof.
  intros Hi. rewrite velocity_ranges_bands by lia. apply bands_lookup, Hi.
Qed.

Lemma band_not_empty n k :
  1 <= n <= 127 -> 0 <= k -> k * 127 / n + 1 <= (k + 1) * 127 / n.
Proof.
  intros Hn Hk.
  replace (k * 127 / n + 1) with ((k * 127 + 1 * n) / n) by (rewrite Z.div_add; lia).
  apply Z.div_le_mono; lia.
Qed.

Lemma tiles_cons lo hi s e b rest :
  s = lo -> s <= e -> tiles (e + 1) hi (b :: rest) -> tiles lo hi ((s, e) :: b :: rest).
Proof. intros Hs He Ht. cbn [tiles]. destruct b. auto. Qed.

Lemma bands_tile n (m k : nat) :
  1 <= n <= 127 -> (k + S m)%nat = Z.to_nat n ->
  tiles (Z.of_nat k * 127 / n + 1) 127 (map (band n) (map Z.of_nat (seq k (S m)))).
Proof.
  intros Hn. revert k. induction m as [|m IH]; intros k Hk.
  - cbn [seq map tiles band]. split; [reflexivity|].
    assert (He : (Z.of_nat k + 1) * 127 / n = 127).
    { replace ((Z.of_nat k + 1) * 127) with (127 * n) by lia. apply Z.div_mul. lia. }
    rewrite He. split; [|reflexivity].
    pose proof (band_not_empty n (Z.of_nat k) Hn ltac:(lia)). lia.
  - specialize (IH (S k) ltac:(lia)).
    change (seq k (S (S m))) with (k :: seq (S k) (S m)).
    cbn [seq map] in IH |- *. unfold band at 1.
    apply tiles_cons; [reflexivity|apply band_not_empty; lia|].
    replace (Z.of_nat (S k)) with (Z.of_nat k + 1) in * by lia. exact IH.
Qed.

(** X12. [velocity_ranges] for any number of layers: none for [n <= 0];
    for [n >= 1] exactly the [n] bands
    [(floor(127 i / n) + 1, floor(127 (i + 1) / n))], [i = 0..n-1], so the
    pass that enforces contiguity never changes a band; these tile 1..127
    with non-empty bands whenever [n <= 127], and with more layers than
    velocities the first band, [(1, 0)], is empty. *)
Theorem velocity_ranges_closed_form (n : Z) :
  (n <= 0 -> velocity_ranges n = [])
  /\ (1 <= n ->
      velocity_ranges n
      = map (fun i => (i * 127 / n + 1, (i + 1) * 127 / n)) (range n))
  /\ (1 <= n <= 127 -> tiles 1 127 (velocity_ranges n))
  /\ (127 < n -> head (velocity_ranges n) = Some (1, 0)).
Proof.
  split; [|split; [|split]].
  - intros Hn. unfold velocity_ranges. destruct (Z.leb_spec n 0); [reflexivity|lia].
  - intros Hn. exact (velocity_ranges_bands n Hn).
  - intros Hn. rewrite velocity_ranges_bands by lia. unfold range.
    destruct (Z.to_nat n) as [|m] eqn:Em; [lia|].
    exact (bands_tile n m 0 Hn ltac:(lia)).
  - intros Hn. rewrite velocity_ranges_bands by lia. unfold range.
    destruct (Z.to_nat n) as [|m] eqn:Em; [lia|].
    cbn [seq map head]. unfold band.
    assert (H1 : Z.of_nat 0 * 127 / n + 1 = 1) by (simpl; rewrite Zdiv_0_l; lia).
    assert (H2 : (Z.of_nat 0 + 1) * 127 / n = 0) by (simpl; apply Z.div_small; lia).
    rewrite H1, H2. reflexivity.
Qed.

Lemma velocity_ranges_closed_form_witness :
  tiles 1 127 (velocity_ranges 100) /\ head (velocity_ranges 128) = Some (1, 0).
Proof.
  split.
  - apply (velocity_ranges_closed_form 100). lia.
  - apply (velocity_ranges_closed_form 128). lia.
Defined.

(* ===================================================================== *)
(** * Pad layers for any list of files *)
(* ===================================================================== *)

Section DictSet.
Context {K V : Type} `{EqDecision K}.

Lemma dict_set_set (d : list (K * V)) k v1 v2 :
  dict_set k v2 (dict_set k v1 d) = dict_set k v2 d.
Proof.
  induction d as [|[k' v'] d IH]; simpl.
  - destruct (decide (k = k)); [reflexivity|congruence].
  - destruct (decide (k' = k)) as [->|Hne]; simpl.
    + destruct (decide (k = k)); [reflexivity|congruence].
    + destruct (decide (k' = k)); [congruence|]. rewrite IH. reflexivity.
Qed.

End DictSet.

Section Layers.
Context `{PathLib}.
Variables (wavs : list pystr) (preset_dir global_base : pystr).

(** The number of layers [set_pad_layers] writes. *)
Definition layer_count : nat := Nat.min (length wavs) 8.

Lemma layer_count_Z :
  Z.min (len wavs) LAYER_LIMIT_PER_PAD = Z.of_nat layer_count.
Proof. unfold layer_count, len, LAYER_LIMIT_PER_PAD. lia. Qed.

(** Layer [i] as it is written for a file with the two relative paths
    [rel] and [fold]. *)
Definition layer (i : nat) (rel fold : pystr) : Attrib :=
  set_velocity (Z.of_nat layer_count) (Z.of_nat i)
    (Z.of_nat i * 127 / Z.of_nat layer_count + 1)
    ((Z.of_nat i + 1) * 127 / Z.of_nat layer_count)
    [(lit "path", fold); (lit "pathrelative", rel)].

(** The file of a layer has no relative path. *)
Definition unplaced (i : nat) : Prop :=
  exists wav, wavs !! i = Some wav
              /\ (wav_to_pathrelative wav global_base = None
                  \/ wav_to_path_foldback wav preset_dir = None).

(** The mappings after the first [k] turns of the second loop. *)
Definition layers_after (slots k : nat) : option (list Attrib) :=
  foldl (fun acc i => acc ≫= fun ms =>
           set_layer wavs preset_dir global_base (Z.of_nat layer_count)
                     (velocity_ranges (Z.of_nat layer_count)) ms i)
        (Some (replicate slots empty_mapping)) (seq 0 k).

Lemma layers_after_S slots k :
  layers_after slots (S k)
  = layers_after slots k ≫= fun ms =>
      set_layer wavs preset_dir global_base (Z.of_nat layer_count)
                (velocity_ranges (Z.of_nat layer_count)) ms k.
Proof. unfold layers_after. rewrite seq_S, foldl_app. reflexivity. Qed.

Lemma layers_after_spec slots k :
  (k <= layer_count)%nat ->
  match layers_after slots k with
  | Some ms =>
      length ms = slots /\ (k <= slots)%nat
      /\ (forall i, (k <= i < slots)%nat -> ms !! i = Some empty_mapping)
      /\ (forall i wav, (i < k)%nat -> wavs !! i = Some wav ->
            exists rel fold,
              wav_to_pathrelative wav global_base = Some rel
              /\ wav_to_path_foldback wav preset_dir = Some fold
              /\ ms !! i = Some (layer i rel fold))
  | None => (slots < k)%nat \/ exists i, (i < k)%nat /\ unplaced i
  end.
Proof.
  induction k as [|k IH]; intros Hk.
  - unfold layers_after. cbn [seq foldl]. rewrite length_replicate.
    split; [reflexivity|]. split; [lia|]. split.
    + intros i Hi. apply lookup_replicate_2. lia.
    + intros i wav Hi. lia.
  - rewrite layers_after_S. specialize (IH ltac:(lia)).
    destruct (layers_after slots k) as [ms|]; cbn [mbind option_bind].
    2:{ destruct IH as [Hs|(i & Hi & Hu)]; [left; lia|right; exists i; split; [lia|exact Hu]]. }
    destruct IH as (Hlen & Hks & Hrest & Hdone).
    assert (Hw : is_Some (wavs !! k)).
    { apply lookup_lt_is_Some. unfold layer_count in Hk. lia. }
    destruct Hw as [wav Hw]. unfold set_layer. rewrite Hw. cbn [mbind option_bind].
    destruct (ms !! k) as [m|] eqn:Hm; cbn [mbind option_bind].
    2:{ left. apply lookup_ge_None in Hm. lia. }
    assert (Hkl : (k < slots)%nat).
    { rewrite <- Hlen. apply lookup_lt_is_Some. exists m. exact Hm. }
    rewrite (Hrest k ltac:(lia)) in Hm. injection Hm as <-.
    destruct (wav_to_pathrelative wav global_base) as [rel|] eqn:Hrel;
      cbn [mbind option_bind].
    2:{ right. exists k. split; [lia|]. exists wav. split; [exact Hw|left; exact Hrel]. }
    destruct (wav_to_path_foldback wav preset_dir) as [fold|] eqn:Hfold;
      cbn [mbind option_bind].
    2:{ right. exists k. split; [lia|]. exists wav. split; [exact Hw|right; exact Hfold]. }
    rewrite (velocity_ranges_lookup (Z.of_nat layer_count) k) by lia.
    unfold band. cbn [mbind option_bind].
    split; [rewrite length_insert; exact Hlen|]. split; [lia|]. split.
    + intros i Hi. rewrite list_lookup_insert_ne by lia. apply Hrest. lia.
    + intros i wav' Hi Hw'. destruct (decide (i = k)) as [->|Hne].
      * rewrite Hw in Hw'. injection Hw' as <-. exists rel, fold.
        split; [exact Hrel|]. split; [exact Hfold|].
        rewrite list_lookup_insert_eq by lia. reflexivity.
      * rewrite list_lookup_insert_ne by lia. apply Hdone; [lia|exact Hw'].
Qed.

Lemma set_pad_layers_unfold (pad : Pad) :
  set_pad_layers pad wavs preset_dir global_base
  = layers_after (length (pad_mappings pad)) layer_count ≫= fun ms =>
      Some {| pad_attrib := dict_set (lit "activemappings")
                              (str_of_Z (Z.of_nat layer_count)) (pad_attrib pad);
              pad_mappings := ms |}.
Proof.
  unfold set_pad_layers, layers_after. rewrite layer_count_Z, Nat2Z.id.
  assert (Hm : map (fun _ : Attrib => empty_mapping) (pad_mappings pad)
               = replicate (length (pad_mappings pad)) empty_mapping).
  { induction (pad_mappings pad) as [|a l IH]; [reflexivity|]. simpl. rewrite IH. reflexivity. }
  rewrite Hm. reflexivity.
Qed.

(** X13. What [set_pad_layers] writes when it returns.  With [n] the
    number of files, 8 at most: [activemappings] becomes [n] and the other
    attributes of the pad stay; the pad keeps its number of mappings, at
    least [n]; each mapping from [n] on holds the two empty paths and
    nothing else; and mapping [i < n] holds the two relative paths of file
    [i] and the velocity bounds of band [i] of [n] that the place of the
    layer asks for: nothing else, whatever the mapping held before. *)
Theorem set_pad_layers_layers (pad pad' : Pad) :
  set_pad_layers pad wavs preset_dir global_base = Some pad' ->
  pad_attrib pad'
    = dict_set (lit "activemappings") (str_of_Z (Z.of_nat layer_count)) (pad_attrib pad)
  /\ length (pad_mappings pad') = length (pad_mappings pad)
  /\ (layer_count <= length (pad_mappings pad))%nat
  /\ (forall i, (layer_count <= i < length (pad_mappings pad))%nat ->
        pad_mappings pad' !! i = Some empty_mapping)
  /\ (forall i wav, (i < layer_count)%nat -> wavs !! i = Some wav ->
        exists rel fold,
          wav_to_pathrelative wav global_base = Some rel
          /\ wav_to_path_foldback wav preset_dir = Some fold
          /\ pad_mappings pad' !! i = Some (layer i rel fold)).
Proof.
  rewrite set_pad_layers_unfold.
  pose proof (layers_after_spec (length (pad_mappings pad)) layer_count (le_n _)) as Hs.
  destruct (layers_after (length (pad_mappings pad)) layer_count) as [ms|];
    cbn [mbind option_bind]; [|discriminate].
  intros [= <-]. cbn [pad_attrib pad_mappings].
  destruct Hs as (Hlen & Hk & Hrest & Hdone). repeat split; assumption.
Qed.

(** X14. [set_pad_layers] raises exactly when the pad has fewer mappings
    than there are layers to write, or when one of the files written has
    no relative path: it lies outside the global base, or the platform
    cannot relate the two paths. *)
Theorem set_pad_layers_fails (pad : Pad) :
  set_pad_layers pad wavs preset_dir global_base = None
  <-> (length (pad_mappings pad) < layer_count)%nat
      \/ exists i, (i < layer_count)%nat /\ unplaced i.
Proof.
  rewrite set_pad_layers_unfold.
  pose proof (layers_after_spec (length (pad_mappings pad)) layer_count (le_n _)) as Hs.
  destruct (layers_after (length (pad_mappings pad)) layer_count) as [ms|];
    cbn [mbind option_bind].
  - destruct Hs as (Hlen & Hk & Hrest & Hdone). split; [discriminate|].
    intros [Hlt|(i & Hi & wav & Hw & Hbad)]; [lia|].
    destruct (Hdone i wav Hi Hw) as (rel & fold & Hrel & Hfold & _).
    destruct Hbad; congruence.
  - split; [intros _; exact Hs|reflexivity].
Qed.

End Layers.

Section LayersTwice.
Context `{PathLib}.

(** X15. Setting the layers of a pad a second time leaves nothing of the
    first: the result is the one of setting the second files on the pad as
    it was before the first. *)
Theorem set_pad_layers_overwrites (pad pad1 : Pad)
    (wavs1 wavs2 : list pystr) (dir1 base1 dir2 base2 : pystr) :
  set_pad_layers pad wavs1 dir1 base1 = Some pad1 ->
  set_pad_layers pad1 wavs2 dir2 base2 = set_pad_layers pad wavs2 dir2 base2.
Proof.
  intros H1. rewrite !set_pad_layers_unfold.
  rewrite set_pad_layers_unfold in H1.
  pose proof (layers_after_spec wavs1 dir1 base1 (length (pad_mappings pad))
                (layer_count wavs1) (le_n _)) as Hs.
  destruct (layers_after wavs1 dir1 base1 (length (pad_mappings pad)) (layer_count wavs1))
    as [ms|]; cbn [mbind option_bind] in H1; [|discriminate].
  injection H1 as <-. cbn [pad_attrib pad_mappings].
  destruct Hs as (Hlen & _). rewrite Hlen, dict_set_set. reflexivity.
Qed.

End LayersTwice.

Lemma set_pad_layers_layers_witness :
  exists pad',
    demo_pad = Some pad'
    /\ length (pad_mappings pad') = 8%nat
    /\ pad_mappings pad' !! 2%nat = Some empty_mapping.
Proof.
  destruct demo_pad_defined as [pad' Hp]. exists pad'. split; [exact Hp|].
  destruct (set_pad_layers_layers (H := posix_paths) _ _ _ _ _ Hp)
    as (_ & Hlen & _ & Hrest & _).
  split; [exact Hlen|]. apply Hrest. vm_compute. lia.
Defined.

Lemma set_pad_layers_overwrites_witness :
  exists pad',
    demo_pad = Some pad'
    /\ set_pad_layers (H := posix_paths) pad' [] (lit "/lib/out") (lit "/lib")
       = set_pad_layers (H := posix_paths) (make_pad 0 36) [] (lit "/lib/out") (lit "/lib").
Proof.
  destruct demo_pad_defined as [pad' Hp]. exists pad'. split; [exact Hp|].
  exact (set_pad_layers_overwrites (H := posix_paths) _ _ _ _ _ _ _ _ Hp).
Defined.

(** A file outside the global base stops the pad. *)
Example set_pad_layers_outside :
  set_pad_layers (H := posix_paths) (make_pad 0 36)
                 [lit "/lib/Demo/Kick 1.wav"; lit "/elsewhere/Kick 2.wav"]
                 (lit "/lib/out") (lit "/lib") = None.
Proof. reflexivity. Qed.

(* ===================================================================== *)
(** * Pad colours *)
(* ===================================================================== *)









(* ===================================================================== *)
(** * The pads of a preset *)
(* ===================================================================== *)

(** ** The base pads *)

(** The loop of [build_base_pads] over the first [k] indices. *)
Definition pads_after (root : Root) (base_midi : Z) (k : nat) : Root * list (Z * nat) :=
  foldl (fun '(root, midi_to_pad) i =>
           let note := base_midi + i in
           let pad_el := make_pad i note in
           ({| root_attrib := root_attrib root;
               root_pads := root_pads root ++ [pad_el] |},
            dict_set note (length (root_pads root)) midi_to_pad))
        (root, []) (map Z.of_nat (seq 0 k)).

Lemma pads_after_spec (root : Root) (base_midi : Z) (k : nat) :
  pads_after root base_midi k
  = ({| root_attrib := root_attrib root;
        root_pads := root_pads root
                     ++ map (fun i => make_pad (Z.of_nat i) (base_midi + Z.of_nat i))
                            (seq 0 k) |},
     map (fun i => (base_midi + Z.of_nat i, (length (root_pads root) + i)%nat))
         (seq 0 k)).
Proof.
  unfold pads_after. induction k as [|k IH].
  - cbn [seq map foldl]. rewrite app_nil_r. destruct root. reflexivity.
  - rewrite seq_S, !map_app, foldl_app, IH. cbn [map foldl root_attrib root_pads].
    rewrite length_app, length_map, length_seq, <- app_assoc. f_equal.
    rewrite Nat.add_0_l.
    apply dict_set_fresh. unfold dict_keys. rewrite map_map. cbn [fst].
    intros Hin. apply list_elem_of_fmap in Hin as (j & Hj & Hin).
    apply elem_of_seq in Hin. lia.
Qed.

Lemma build_base_pads_after root base_midi pad_count :
  build_base_pads root base_midi pad_count
  = pads_after root base_midi (Z.to_nat pad_count).
Proof. reflexivity. Qed.

Lemma dict_get_notes (base_midi : Z) (off k : nat) (note : Z) :
  dict_get note (map (fun i => (base_midi + Z.of_nat i, (off + i)%nat)) (seq 0 k))
  = if decide (base_midi <= note < base_midi + Z.of_nat k)
    then Some (off + Z.to_nat (note - base_midi))%nat else None.
Proof.
  revert note. induction k as [|k IH]; intros note.
  - cbn [seq map dict_get]. rewrite decide_False by lia. reflexivity.
  - assert (Hfresh : base_midi + Z.of_nat k
                     ∉ dict_keys (map (fun i => (base_midi + Z.of_nat i, (off + i)%nat))
                                      (seq 0 k))).
    { apply dict_get_None. rewrite IH, decide_False by lia. reflexivity. }
    rewrite seq_S, map_app. cbn [map]. rewrite Nat.add_0_l.
    rewrite <- (dict_set_fresh _ _ _ Hfresh).
    destruct (decide (note = base_midi + Z.of_nat k)) as [->|Hne].
    + rewrite dict_get_set_eq, decide_True by lia. f_equal. lia.
    + rewrite dict_get_set_ne by congruence. rewrite IH.
      destruct (decide (base_midi <= note < base_midi + Z.of_nat k)) as [Hin|Hout].
      * rewrite decide_True by lia. reflexivity.
      * rewrite decide_False by lia. reflexivity.
Qed.

(** X17. [build_base_pads] appends [pad_count] pads to the root, pad [i]
    named [Pad i+1] with the MIDI key [base_midi + i] and eight empty
    mappings; [midi_to_pad] knows exactly the notes from [base_midi] to
    [base_midi + pad_count - 1], each with the pad of its key, and no
    other note. *)
Theorem build_base_pads_notes (root : Root) (base_midi pad_count : Z) :
  let out := build_base_pads root base_midi pad_count in
  root_attrib out.1 = root_attrib root
  /\ root_pads out.1
     = root_pads root ++ map (fun i => make_pad i (base_midi + i)) (range pad_count)
  /\ (forall note,
        base_midi <= note < base_midi + pad_count ->
        exists i, dict_get note out.2 = Some i
                  /\ root_pads out.1 !! i = Some (make_pad (note - base_midi) note))
  /\ (forall note,
        ~ (base_midi <= note < base_midi + pad_count) -> dict_get note out.2 = None).
Proof.
  intros out. subst out. rewrite build_base_pads_after, pads_after_spec.
  cbn [fst snd root_attrib root_pads]. split; [reflexivity|]. split.
  { unfold range. rewrite map_map. reflexivity. }
  split.
  - intros note Hn. rewrite dict_get_notes, decide_True by lia.
    eexists. split; [reflexivity|].
    rewrite lookup_app_r by lia.
    replace (length (root_pads root) + Z.to_nat (note - base_midi) - length (root_pads root))%nat
      with (Z.to_nat (note - base_midi)) by lia.
    rewrite list_lookup_fmap, lookup_seq_lt by lia. cbn [fmap option_fmap option_map].
    f_equal. f_equal; lia.
  - intros note Hn. rewrite dict_get_notes, decide_False by lia. reflexivity.
Qed.

(** ** The notes of a kit on the pads *)

Section Render.
Context `{PathLib}.
Variables (midi_to_pad : list (Z * nat)) (preset_dir global_base : pystr).

Definition render_from (acc : option (list Pad * list Z))
    (items : list (Z * list pystr)) : option (list Pad * list Z) :=
  foldl (fun acc item => acc ≫= fun st =>
           render_note midi_to_pad preset_dir global_base st item) acc items.

Lemma render_from_None items : render_from None items = None.
Proof. induction items as [|it items IH]; [reflexivity|exact IH]. Qed.

Lemma render_from_skips acc items :
  render_from acc items
  = render_from acc (filter (fun it => is_Some (dict_get it.1 midi_to_pad)) items).
Proof.
  revert acc. induction items as [|[note files] items IH]; intros acc; [reflexivity|].
  rewrite filter_cons. cbn [fst].
  destruct (dict_get note midi_to_pad) as [i|] eqn:Hg.
  - rewrite decide_True by (eexists; reflexivity).
    unfold render_from. cbn [foldl]. apply IH.
  - rewrite decide_False by (intros [x Hx]; discriminate).
    unfold render_from. cbn [foldl]. fold (render_from (acc ≫= fun st =>
      render_note midi_to_pad preset_dir global_base st (note, files)) items).
    assert (Hsame : (acc ≫= fun st =>
              render_note midi_to_pad preset_dir global_base st (note, files)) = acc).
    { destruct acc as [[pads draws]|]; [|reflexivity].
      cbn [mbind option_bind]. unfold render_note. rewrite Hg. reflexivity. }
    rewrite Hsame. apply IH.
Qed.

(** The pad a note is rendered on, with its colour. *)
Definition coloured (pad : Pad) (colour : pystr) : Pad :=
  {| pad_attrib := dict_set (lit "colour") colour (pad_attrib pad);
     pad_mappings := pad_mappings pad |}.

Hypothesis midi_to_pad_inj :
  forall n1 n2 i, dict_get n1 midi_to_pad = Some i -> dict_get n2 midi_to_pad = Some i ->
                  n1 = n2.

Lemma render_from_pads items pads0 draws0 pads draws :
  NoDup (dict_keys items) ->
  render_from (Some (pads0, draws0)) items = Some (pads, draws) ->
  length pads = length pads0
  /\ (forall i, (forall note files, (note, files) ∈ items ->
                   dict_get note midi_to_pad <> Some i) ->
                pads !! i = pads0 !! i)
  /\ (forall note files i,
        (note, files) ∈ items -> dict_get note midi_to_pad = Some i ->
        exists pad0 pad1 colour,
          pads0 !! i = Some pad0
          /\ set_pad_layers pad0 (take (Z.to_nat LAYER_LIMIT_PER_PAD) files)
                            preset_dir global_base = Some pad1
          /\ pads !! i = Some (coloured pad1 colour)).
Proof.
  revert pads0 draws0. induction items as [|[n f] items IH]; intros pads0 draws0 Hnd Hr.
  - injection Hr as <- <-. split; [reflexivity|]. split; [reflexivity|].
    intros note files i Hin. apply elem_of_nil in Hin. destruct Hin.
  - unfold dict_keys in Hnd. cbn [map fst] in Hnd. apply NoDup_cons in Hnd as [Hn Hnd].
    unfold render_from in Hr. cbn [foldl mbind option_bind] in Hr.
    fold (render_from (render_note midi_to_pad preset_dir global_base (pads0, draws0) (n, f))
                      items) in Hr.
    destruct (render_note midi_to_pad preset_dir global_base (pads0, draws0) (n, f))
      as [[pads1 draws1]|] eqn:Hstep; [|rewrite render_from_None in Hr; discriminate].
    destruct (IH pads1 draws1 Hnd Hr) as (Hlen & Hkeep & Hset).
    unfold render_note in Hstep.
    destruct (dict_get n midi_to_pad) as [i0|] eqn:Hg.
    2:{ injection Hstep as <- <-. split; [exact Hlen|]. split.
        - intros i Hi. apply Hkeep. intros note files Hin.
          apply (Hi note files), list_elem_of_further, Hin.
        - intros note files i Hin Hm. apply elem_of_cons in Hin as [Hin|Hin].
          + injection Hin as -> ->. congruence.
          + exact (Hset note files i Hin Hm). }
    destruct (pads0 !! i0) as [pad0|] eqn:Hp0; cbn [mbind option_bind] in Hstep;
      [|discriminate].
    destruct (set_pad_layers pad0 (take (Z.to_nat LAYER_LIMIT_PER_PAD) f)
                             preset_dir global_base) as [pad1|] eqn:Hs;
      cbn [mbind option_bind] in Hstep; [|discriminate].
    destruct (random_pad_colour draws0) as [[colour d]|]; cbn [mbind option_bind] in Hstep;
      [|discriminate].
    injection Hstep as <- <-.
    assert (Hi0 : (i0 < length pads0)%nat).
    { apply lookup_lt_is_Some. exists pad0. exact Hp0. }
    assert (Hrest : forall note files, (note, files) ∈ items ->
                      dict_get note midi_to_pad <> Some i0).
    { intros note files Hin Hm. apply Hn.
      rewrite (midi_to_pad_inj n note i0 Hg Hm).
      apply list_elem_of_fmap. exists (note, files). split; [reflexivity|exact Hin]. }
    split; [rewrite Hlen, length_insert; reflexivity|]. split.
    + intros i Hi. rewrite Hkeep.
      * apply list_lookup_insert_ne. intros <-.
        exact (Hi n f (list_elem_of_here _ _) Hg).
      * intros note files Hin. apply (Hi note files), list_elem_of_further, Hin.
    + intros note files i Hin Hm. apply elem_of_cons in Hin as [Hin|Hin].
      * injection Hin as -> ->. rewrite Hg in Hm. injection Hm as <-.
        exists pad0, pad1, colour. split; [exact Hp0|]. split; [exact Hs|].
        rewrite (Hkeep i0 Hrest). apply list_lookup_insert_eq. exact Hi0.
      * destruct (Hset note files i Hin Hm) as (p0 & p1 & col & Hl & Hsp & Hres).
        exists p0, p1, col. split; [|split; [exact Hsp|exact Hres]].
        rewrite list_lookup_insert_ne in Hl; [exact Hl|].
        intros <-. exact (Hrest note files Hin Hm).
Qed.

End Render.

(** ** A kit on its preset *)

Section GenerateKit.
Context `{PathLib} `{OsPath}.
Variables (out_dir global_base : pystr) (base_midi pad_count : Z) (kit_name : pystr).

(** The path of the preset file and the directory it lies in. *)
Definition preset_path : pystr :=
  os_abspath (os_join out_dir (sanitize_filename kit_name ++ lit ".taldrum")).

Definition preset_dir : pystr := os_dirname preset_path.

(** The pads before a note is rendered, and the notes that have one. *)
Definition base_pads : list Pad :=
  map (fun i => make_pad (Z.of_nat i) (base_midi + Z.of_nat i))
      (seq 0 (Z.to_nat pad_count)).

Definition base_notes : list (Z * nat) :=
  map (fun i => (base_midi + Z.of_nat i, (0 + i)%nat)) (seq 0 (Z.to_nat pad_count)).

Lemma generate_kit_unfold items draws :
  generate_kit out_dir global_base base_midi pad_count kit_name items draws
  = render_from base_notes preset_dir global_base (Some (base_pads, draws)) items
    ≫= fun '(pads, draws) =>
         Some (preset_path,
               {| root_attrib :=
                    root_attrib (make_empty_taldrum_root preset_path
                                   (sanitize_filename kit_name));
                  root_pads := pads |}, draws).
Proof.
  unfold generate_kit. rewrite build_base_pads_after, pads_after_spec.
  cbn [root_pads root_attrib make_empty_taldrum_root app length]. reflexivity.
Qed.

Lemma base_notes_get note :
  dict_get note base_notes
  = if decide (base_midi <= note < base_midi + pad_count)
    then Some (Z.to_nat (note - base_midi)) else None.
Proof.
  unfold base_notes. rewrite dict_get_notes.
  destruct (decide (base_midi <= note < base_midi + Z.of_nat (Z.to_nat pad_count)));
    [rewrite decide_True by lia|rewrite decide_False by lia]; reflexivity.
Qed.

Lemma base_notes_inj n1 n2 i :
  dict_get n1 base_notes = Some i -> dict_get n2 base_notes = Some i -> n1 = n2.
Proof.
  rewrite !base_notes_get.
  destruct (decide (base_midi <= n1 < base_midi + pad_count)); [|discriminate].
  destruct (decide (base_midi <= n2 < base_midi + pad_count)); [|discriminate].
  intros [= H1] [= H2]. lia.
Qed.

(** X18. Files assigned to a note that has no pad (a note below
    [base_midi] or from [base_midi + pad_count] on) never reach the
    preset, and nothing tells: the kit is generated as if their notes had
    not been in [note_to_samples], the colours drawn included. *)
Theorem generate_kit_drops_unpadded (items : list (Z * list pystr)) (draws : list Z) :
  generate_kit out_dir global_base base_midi pad_count kit_name items draws
  = generate_kit out_dir global_base base_midi pad_count kit_name
      (filter (fun it => base_midi <= it.1 < base_midi + pad_count) items) draws.
Proof.
  rewrite !generate_kit_unfold. rewrite render_from_skips. f_equal. f_equal.
  apply list_filter_iff. intros [note files]. cbn [fst]. rewrite base_notes_get.
  destruct (decide (base_midi <= note < base_midi + pad_count)) as [Hin|Hout].
  - split; [intros _; exact Hin|intros _; eexists; reflexivity].
  - split; [intros [x Hx]; discriminate|intros Hin; contradiction].
Qed.

(** X19. The pads of a generated kit.  There are [pad_count] of them.
    The pad of a note that is not in [note_to_samples] is the empty pad
    [build_base_pads] made; the pad of a note with files is that pad
    after [set_pad_layers] with the first eight of the files, with a
    colour set. *)
Theorem generate_kit_pads (items : list (Z * list pystr)) (draws draws' : list Z)
    (path : pystr) (root : Root) :
  NoDup (dict_keys items) ->
  generate_kit out_dir global_base base_midi pad_count kit_name items draws
    = Some (path, root, draws') ->
  length (root_pads root) = Z.to_nat pad_count
  /\ forall k, 0 <= k < pad_count ->
       match dict_get (base_midi + k) items with
       | None => root_pads root !! Z.to_nat k = Some (make_pad k (base_midi + k))
       | Some files =>
           exists pad colour,
             set_pad_layers (make_pad k (base_midi + k))
                            (take 8 files) preset_dir global_base = Some pad
             /\ root_pads root !! Z.to_nat k
                = Some {| pad_attrib := dict_set (lit "colour") colour (pad_attrib pad);
                          pad_mappings := pad_mappings pad |}
       end.
Proof.
  intros Hnd. rewrite generate_kit_unfold.
  destruct (render_from base_notes preset_dir global_base (Some (base_pads, draws)) items)
    as [[pads d]|] eqn:Hr; cbn [mbind option_bind]; [|discriminate].
  intros [= <- <- <-]. cbn [root_pads].
  destruct (render_from_pads base_notes preset_dir global_base base_notes_inj
              items base_pads draws pads d Hnd Hr) as (Hlen & Hkeep & Hset).
  assert (Hbase : forall k, 0 <= k < pad_count ->
            base_pads !! Z.to_nat k = Some (make_pad k (base_midi + k))).
  { intros k Hk. unfold base_pads.
    rewrite list_lookup_fmap, lookup_seq_lt by lia. cbn [fmap option_fmap option_map].
    rewrite Nat.add_0_l, Z2Nat.id by lia. reflexivity. }
  split.
  { rewrite Hlen. unfold base_pads. rewrite length_map, length_seq. reflexivity. }
  intros k Hk.
  assert (Hget : dict_get (base_midi + k) base_notes = Some (Z.to_nat k)).
  { rewrite base_notes_get, decide_True by lia. f_equal. lia. }
  destruct (dict_get (base_midi + k) items) as [files|] eqn:Hi.
  - destruct (Hset (base_midi + k) files (Z.to_nat k) (dict_get_Some_elem _ _ _ Hi) Hget)
      as (pad0 & pad1 & colour & Hp0 & Hs & Hres).
    rewrite (Hbase k Hk) in Hp0. injection Hp0 as <-.
    exists pad1, colour. split; [exact Hs|exact Hres].
  - rewrite Hkeep; [exact (Hbase k Hk)|].
    intros note files Hin Hm.
    rewrite (base_notes_inj _ _ _ Hm Hget) in Hin.
    apply dict_get_None in Hi. apply Hi.
    apply list_elem_of_fmap. exists (base_midi + k, files). split; [reflexivity|exact Hin].
Qed.

End GenerateKit.

(* ===================================================================== *)
(** * The notes of the categories *)
(* ===================================================================== *)

(** Note [j] of a category takes the [j]-th run of 8 files. *)
Definition chunk_of (files : list pystr) (j : nat) : list pystr :=
  take 8 (drop (8 * j) files).

Lemma fill_notes_content notes files :
  NoDup notes ->
  forall idx (nts : gmap Z (list pystr)),
    (forall n, n ∈ notes -> samples_at nts n = []) ->
    forall j n, notes !! j = Some n ->
      samples_at (fill_notes notes files idx nts).1 n
      = take 8 (drop (idx + 8 * j) files).
Proof.
  induction 1 as [|note rest Hnote Hnd IH]; intros idx nts Hempty j n Hj; [discriminate|].
  cbn [fill_notes].
  assert (H8 : Z.to_nat LAYER_LIMIT_PER_PAD = 8%nat) by reflexivity.
  rewrite slice_from, H8.
  assert (Hlen : length (take 8 (drop idx files)) = Nat.min 8 (length files - idx))
    by (rewrite length_take, length_drop; reflexivity).
  destruct (take 8 (drop idx files)) as [|f chunk] eqn:Hchunk.
  - cbn [fst length] in *. rewrite (Hempty n).
    + rewrite take_ge; [rewrite drop_ge by lia; reflexivity|].
      rewrite length_drop. lia.
    + apply list_elem_of_lookup. exists j. exact Hj.
  - rewrite <- Hchunk in *. destruct j as [|j].
    + injection Hj as <-. rewrite Nat.mul_0_r, Nat.add_0_r.
      destruct (fill_notes_spec rest files (idx + length (take 8 (drop idx files)))
                  (push note (take 8 (drop idx files)) nts)) as [Hout _].
      unfold samples_at at 1. rewrite (Hout note Hnote).
      fold (samples_at (push note (take 8 (drop idx files)) nts) note).
      rewrite samples_at_push_eq, (Hempty note (list_elem_of_here _ _)). reflexivity.
    + cbn [lookup] in Hj. change ((note :: rest) !! S j) with (rest !! j) in Hj.
      rewrite (IH _ (push note (take 8 (drop idx files)) nts)) with (j := j);
        [|intros n' Hn'; rewrite samples_at_push_ne by (intros ->; contradiction);
          apply Hempty, list_elem_of_further, Hn'|exact Hj].
      rewrite Hlen. destruct (le_lt_dec 8 (length files - idx)) as [Hfull|Hshort].
      * f_equal. f_equal. lia.
      * rewrite !drop_ge by lia. reflexivity.
Qed.

Lemma not_in_suffix (pool pool' : list Z) n :
  pool' `suffix_of` pool -> n ∉ pool -> n ∉ pool'.
Proof. intros [k ->] Hn Hin. apply Hn, elem_of_app. right. exact Hin. Qed.

(** The category fills its own notes. *)
Lemma assign_category_fills (mapping : Mapping) policy st st' c files :
  c <> lit "other" ->
  NoDup (category_notes mapping c) ->
  (forall n, n ∈ category_notes mapping c ->
     samples_at (note_to_samples st) n = [] /\ n ∉ trash_pool st) ->
  assign_category mapping policy st (c, files) = Some st' ->
  forall j n, category_notes mapping c !! j = Some n ->
    samples_at (note_to_samples st') n = chunk_of files j.
Proof.
  intros Hc Hnd Hfresh Ha j n Hj.
  assert (Hn : n ∈ category_notes mapping c) by (apply list_elem_of_lookup; exists j; exact Hj).
  pose proof (fill_notes_content (category_notes mapping c) files Hnd 0 (note_to_samples st)
                (fun n Hn => proj1 (Hfresh n Hn)) j n Hj) as Hfill.
  rewrite Nat.add_0_l in Hfill. fold (chunk_of files j) in Hfill.
  unfold assign_category in Ha. rewrite bool_decide_eq_false_2 in Ha by exact Hc.
  destruct (fill_notes (category_notes mapping c) files 0 (note_to_samples st))
    as [nts idx]. cbn [fst] in Hfill.
  destruct (drop idx files) as [|o overflow].
  { injection Ha as <-. exact Hfill. }
  destruct (bool_decide (policy = lit "truncate")).
  { injection Ha as <-. exact Hfill. }
  destruct (to_trash policy).
  2:{ injection Ha as <-. exact Hfill. }
  destruct (push_trash_ends (o :: overflow)
              {| note_to_samples := nts; trash_pool := trash_pool st;
                 warnings := warnings st |}) as (st2 & Hp & _ & Hout & _).
  rewrite Hp in Ha. injection Ha as <-.
  unfold samples_at. rewrite (Hout n (proj2 (Hfresh n Hn))). exact Hfill.
Qed.

Lemma assign_from_fills (mapping : Mapping) policy (items : Elements) :
  NoDup (reserved_notes mapping) ->
  dict_wf items ->
  forall st st',
    (forall n, n ∈ trash_pool st -> n ∉ reserved_notes mapping) ->
    (forall c n, c ∈ dict_keys items -> n ∈ category_notes mapping c ->
       samples_at (note_to_samples st) n = []) ->
    assign_from mapping policy st items = Some st' ->
    forall c files j n,
      (c, files) ∈ items -> c <> lit "other" ->
      category_notes mapping c !! j = Some n ->
      samples_at (note_to_samples st') n = chunk_of files j.
Proof.
  intros Hres. induction items as [|[c0 f0] items IH];
    intros Hwf st st' Hdis Hempty Ha c files j n Hin Hc Hj.
  { apply elem_of_nil in Hin. destruct Hin. }
  unfold dict_wf, dict_keys in Hwf. cbn [map fst] in Hwf.
  apply NoDup_cons in Hwf as [Hc0 Hwf].
  unfold assign_from in Ha. cbn [foldl mbind option_bind] in Ha.
  destruct (assign_category_spec mapping policy st c0 f0) as (st1 & Hc1 & Hsuf1 & Hout1 & _).
  rewrite Hc1 in Ha. fold (assign_from mapping policy st1 items) in Ha.
  assert (Hn : n ∈ category_notes mapping c) by (apply list_elem_of_lookup; exists j; exact Hj).
  assert (Hpool : forall m, m ∈ reserved_notes mapping -> m ∉ trash_pool st).
  { intros m Hm Hp. exact (Hdis m Hp Hm). }
  apply elem_of_cons in Hin as [Hin|Hin].
  - injection Hin as -> ->.
    destruct (assign_from_spec mapping policy items st1) as (st2 & Ha2 & _ & Hout2 & _).
    rewrite Ha in Ha2. injection Ha2 as <-.
    unfold samples_at. rewrite Hout2.
    + apply (assign_category_fills mapping policy st st1 c0 f0 Hc
               (category_notes_NoDup mapping c0 Hres)); [|exact Hc1|exact Hj].
      intros m Hm. split.
      * apply (Hempty c0 m); [apply list_elem_of_here|exact Hm].
      * apply Hpool, (category_notes_reserved mapping c0), Hm.
    + apply (not_in_suffix _ _ _ Hsuf1), Hpool, (category_notes_reserved mapping c0), Hn.
    + intros c' Hc' Hn'.
      apply (category_notes_disjoint mapping c0 c' n Hres); [|exact Hn|exact Hn'].
      intros ->. contradiction.
  - assert (Hne : c0 <> c).
    { intros ->. apply Hc0. apply list_elem_of_fmap. exists (c, files).
      split; [reflexivity|exact Hin]. }
    refine (IH Hwf st1 st' _ _ Ha c files j n Hin Hc Hj).
    + intros m Hm. apply Hdis. destruct Hsuf1 as [k ->]. apply elem_of_app. right. exact Hm.
    + intros c' m Hc' Hm. unfold samples_at. rewrite Hout1.
      * apply (Hempty c' m); [apply list_elem_of_further, Hc'|exact Hm].
      * apply Hpool, (category_notes_reserved mapping c'), Hm.
      * intros Hm0. apply (category_notes_disjoint mapping c0 c' m Hres); try assumption.
        intros ->. contradiction.
Qed.

(** X20. When no note is reserved twice in the mapping, the files of a
    category of the kit go to the notes of the category in order, 8 per
    note: note [j] of the category ends with the files [8j .. 8j+7] of the
    category and nothing else, under every overflow policy. *)
Theorem assign_fills_category_notes (kit_elements : Elements) (mapping : Mapping)
    (overflow_policy : pystr) (trash_notes : list Z)
    (nts : gmap Z (list pystr)) (warns : list pystr) :
  assign_samples_to_notes kit_elements mapping overflow_policy trash_notes
    = Some (nts, warns) ->
  dict_wf kit_elements -> NoDup (reserved_notes mapping) ->
  forall category files j note,
    dict_get category kit_elements = Some files -> category <> lit "other" ->
    category_notes mapping category !! j = Some note ->
    samples_at nts note = take 8 (drop (8 * j) files).
Proof.
  unfold assign_samples_to_notes, assign_loop. intros Ha Hwf Hres c files j n Hg Hc Hj.
  fold (assign_from mapping overflow_policy (initial_state mapping trash_notes) kit_elements)
    in Ha.
  destruct (assign_from mapping overflow_policy (initial_state mapping trash_notes)
              kit_elements) as [st|] eqn:Hf; cbn [mbind option_bind] in Ha; [|discriminate].
  injection Ha as <- <-.
  apply (assign_from_fills mapping overflow_policy kit_elements Hres Hwf
           (initial_state mapping trash_notes) st) with (c := c); try assumption.
  - intros m Hm. apply initial_pool_elem in Hm. tauto.
  - intros c' m _ _. unfold samples_at. cbn. rewrite lookup_empty. reflexivity.
  - apply dict_get_Some_elem, Hg.
Qed.

(** ** Policies that use no trash *)

(** The files of a category its notes have no room for. *)
Definition category_overflow (mapping : Mapping) (item : pystr * list pystr)
  : list pystr :=
  drop (Nat.min (length item.2) (8 * length (category_notes mapping item.1))) item.2.

(** The warnings of the policy [truncate]: one for each category, other
    than [other], that overflows. *)
Definition truncation_warnings (mapping : Mapping) (items : Elements) : list pystr :=
  flat_map (fun item =>
              if bool_decide (item.1 = lit "other") then []
              else match category_overflow mapping item with
                   | [] => []
                   | overflow => [truncated_warning item.1 (len overflow)]
                   end) items.

Lemma assign_from_no_trash (mapping : Mapping) policy :
  to_trash policy = false ->
  forall (items : Elements) st,
    exists st',
      assign_from mapping policy st items = Some st'
      /\ trash_pool st' = trash_pool st
      /\ warnings st' =
           warnings st
           ++ (if bool_decide (policy = lit "truncate")
               then truncation_warnings mapping items else [])
      /\ (forall n, (forall c, c ∈ dict_keys items -> n ∉ category_notes mapping c) ->
            note_to_samples st' !! n = note_to_samples st !! n).
Proof.
  intros Ht. induction items as [|[c files] items IH]; intros st.
  - exists st. split; [reflexivity|]. split; [reflexivity|]. split; [|reflexivity].
    cbn [truncation_warnings flat_map]. destruct (bool_decide _); rewrite app_nil_r; reflexivity.
  - unfold assign_from. cbn [foldl mbind option_bind].
    assert (Hstep : exists st1,
      assign_category mapping policy st (c, files) = Some st1
      /\ trash_pool st1 = trash_pool st
      /\ warnings st1 =
           warnings st
           ++ (if bool_decide (policy = lit "truncate")
               then truncation_warnings mapping [(c, files)] else [])
      /\ (forall n, n ∉ category_notes mapping c ->
            note_to_samples st1 !! n = note_to_samples st !! n)).
    { unfold assign_category, truncation_warnings, category_overflow.
      cbn [flat_map fst snd]. rewrite Ht.
      destruct (bool_decide (c = lit "other")).
      - exists st. split; [reflexivity|]. split; [reflexivity|]. split; [|reflexivity].
        destruct (bool_decide _); rewrite app_nil_r; reflexivity.
      - pose proof (fill_notes_index (category_notes mapping c) files 0
                      (note_to_samples st) ltac:(lia)) as Hidx.
        destruct (fill_notes_spec (category_notes mapping c) files 0 (note_to_samples st))
          as [Hout _].
        destruct (fill_notes (category_notes mapping c) files 0 (note_to_samples st))
          as [nts idx]. cbn [fst snd] in Hidx, Hout. rewrite Nat.add_0_l in Hidx. subst idx.
        destruct (drop (Nat.min (length files) (8 * length (category_notes mapping c))) files)
          as [|o overflow].
        + eexists. split; [reflexivity|]. cbn [trash_pool warnings note_to_samples].
          split; [reflexivity|]. split; [|exact Hout].
          destruct (bool_decide _); rewrite !app_nil_r; reflexivity.
        + destruct (bool_decide (policy = lit "truncate")).
          * eexists. split; [reflexivity|]. cbn [trash_pool warnings note_to_samples].
            split; [reflexivity|]. split; [|exact Hout]. rewrite app_nil_r. reflexivity.
          * eexists. split; [reflexivity|]. cbn [trash_pool warnings note_to_samples].
            split; [reflexivity|]. split; [|exact Hout]. rewrite app_nil_r. reflexivity. }
    destruct Hstep as (st1 & Hc & Hp1 & Hw1 & Hout1). rewrite Hc.
    fold (assign_from mapping policy st1 items).
    destruct (IH st1) as (st' & Ha & Hp & Hw & Hout).
    exists st'. split; [exact Ha|]. split; [congruence|]. split.
    + rewrite Hw, Hw1. unfold truncation_warnings. cbn [flat_map].
      destruct (bool_decide (policy = lit "truncate"));
        rewrite ?app_nil_r, <- ?app_assoc; reflexivity.
    + intros n Hn. rewrite Hout.
      * apply Hout1. apply Hn, list_elem_of_here.
      * intros c' Hc'. apply Hn, list_elem_of_further, Hc'.
Qed.

(** X21. Under a policy that is neither [trash] nor [ignore], no trash
    note is used: every note of the assignment is reserved by the
    mapping.  Under [truncate] there is one warning for each category
    that overflows, in the order of the kit, with the count of the files
    left out, and the files of [other] are left out without a warning;
    under any other policy ([reject] among them) there is no warning at
    all, whatever is left out. *)
Theorem assign_without_trash (kit_elements : Elements) (mapping : Mapping)
    (overflow_policy : pystr) (trash_notes : list Z) :
  to_trash overflow_policy = false ->
  exists nts,
    assign_samples_to_notes kit_elements mapping overflow_policy trash_notes
    = Some (nts,
            if bool_decide (overflow_policy = lit "truncate")
            then truncation_warnings mapping kit_elements else [])
    /\ forall note files, nts !! note = Some files -> note ∈ reserved_notes mapping.
Proof.
  intros Ht. unfold assign_samples_to_notes, assign_loop.
  destruct (assign_from_no_trash mapping overflow_policy Ht kit_elements
              (initial_state mapping trash_notes)) as (st & Ha & _ & Hw & Hout).
  unfold assign_from in Ha. rewrite Ha. cbn [mbind option_bind].
  exists (note_to_samples st). split; [rewrite Hw; reflexivity|].
  intros note files Hn.
  destruct (decide (note ∈ reserved_notes mapping)) as [Hr|Hr]; [exact Hr|].
  rewrite Hout in Hn.
  - cbn in Hn. rewrite lookup_empty in Hn. discriminate.
  - intros c _ Hc. apply Hr, (category_notes_reserved mapping c), Hc.
Qed.

(** ** Nothing lost when the trash pool has room *)

Lemma concat_chunks (files : list pystr) (m : nat) :
  concat (map (chunk_of files) (seq 0 m)) = take (8 * m) files.
Proof.
  induction m as [|m IH]; [reflexivity|].
  rewrite seq_S, map_app, concat_app, IH. cbn [map concat]. rewrite app_nil_r.
  unfold chunk_of. rewrite Nat.add_0_l, take_take_drop. f_equal. lia.
Qed.

Lemma expected_warnings_fit (cap placed : nat) (pushes : list (list pystr)) :
  (placed + length (concat pushes) <= cap)%nat ->
  expected_warnings cap placed pushes = [].
Proof.
  revert placed. induction pushes as [|p pushes IH]; intros placed Hfit; [reflexivity|].
  cbn [expected_warnings concat] in *. rewrite length_app in Hfit.
  rewrite Nat.min_l by lia. rewrite Nat.ltb_irrefl. cbn [app]. apply IH. lia.
Qed.

Lemma notes_hold_chunks (nts : gmap Z (list pystr)) (notes : list Z) files :
  (forall j n, notes !! j = Some n -> samples_at nts n = chunk_of files j) ->
  map (samples_at nts) notes = map (chunk_of files) (seq 0 (length notes)).
Proof.
  intros Hc. apply list_eq. intros j. rewrite !list_lookup_fmap.
  destruct (notes !! j) as [n|] eqn:Hj.
  - rewrite lookup_seq_lt by (apply lookup_lt_is_Some; eexists; exact Hj).
    cbn. rewrite (Hc j n Hj). reflexivity.
  - rewrite lookup_seq_ge by (apply lookup_ge_None; exact Hj). reflexivity.
Qed.

(** The loop from the initial state, when the trash pool has room. *)
Lemma assign_loop_whole (kit_elements : Elements) (mapping : Mapping)
    (overflow_policy : pystr) (trash_notes : list Z) :
  NoDup trash_notes -> to_trash overflow_policy = true ->
  dict_wf kit_elements -> NoDup (reserved_notes mapping) ->
  let pool0 := trash_pool (initial_state mapping trash_notes) in
  (length (concat (map (trash_share mapping) kit_elements)) <= 8 * length pool0)%nat ->
  exists st,
    assign_loop kit_elements mapping overflow_policy trash_notes = Some st
    /\ warnings st = []
    /\ (forall category files,
          dict_get category kit_elements = Some files -> category <> lit "other" ->
          concat (map (samples_at (note_to_samples st)) (category_notes mapping category))
          ++ trash_share mapping (category, files) = files)
    /\ concat (map (samples_at (note_to_samples st)) pool0)
       = concat (map (trash_share mapping) kit_elements).
Proof.
  intros Hnd Ht Hwf Hres pool0 Hroom.
  destruct (initial_state_fresh mapping trash_notes Hnd) as [Hnd0 Hfresh].
  assert (Hled : trash_ledger pool0 [] (note_to_samples (initial_state mapping trash_notes))
                   (trash_pool (initial_state mapping trash_notes))).
  { exists []. split; [reflexivity|]. split; [apply Forall_nil; exact I|].
    assert (Hall : Forall (fun n => samples_at
                             (note_to_samples (initial_state mapping trash_notes)) n = [])
                          pool0) by (apply Forall_forall; intros n _; apply Hfresh).
    split; [|apply concat_all_empty, Hall].
    fold pool0. destruct pool0 as [|h t]; [exact I|].
    apply Forall_cons in Hall as [Hh Ht']. split; [rewrite Hh; simpl; lia|exact Ht']. }
  destruct (assign_from_ledger mapping overflow_policy pool0 Hnd0
              ltac:(intros n Hn; apply initial_pool_elem in Hn; tauto) Ht
              kit_elements [] _ Hled) as (st & Hl & (full & _ & _ & _ & Hcat) & Hw).
  exists st. split; [exact Hl|]. split; [|split].
  - rewrite Hw. cbn [warnings initial_state app length].
    apply expected_warnings_fit. cbn [length Nat.add]. exact Hroom.
  - intros c files Hg Hc.
    rewrite (notes_hold_chunks (note_to_samples st) (category_notes mapping c) files).
    + rewrite concat_chunks. unfold trash_share. cbn [fst snd].
      rewrite bool_decide_eq_false_2 by exact Hc.
      destruct (le_lt_dec (length files) (8 * length (category_notes mapping c)))
        as [Hall|Hmore].
      * rewrite Nat.min_l by exact Hall. rewrite take_ge, drop_all by exact Hall.
        apply app_nil_r.
      * rewrite Nat.min_r by lia. apply take_drop.
    + intros j n Hj.
      apply (assign_from_fills mapping overflow_policy kit_elements Hres Hwf
               (initial_state mapping trash_notes) st) with (c := c); try assumption.
      * intros m Hm. apply initial_pool_elem in Hm. tauto.
      * intros c' m _ _. unfold samples_at. cbn. rewrite lookup_empty. reflexivity.
      * apply dict_get_Some_elem, Hg.
  - rewrite Hcat. cbn [app]. apply take_ge. exact Hroom.
Qed.

(** X23. Under the policies [trash] and [ignore], with a trash list that
    names each note once, a mapping that reserves no note twice, and a
    trash pool with room for everything sent to it, the assignment loses
    no file and warns of nothing: the notes of a category hold its files
    in order up to its capacity, the trash notes hold, in the order of the
    kit, the rest of each category and the files of [other]. *)
Theorem assign_keeps_files (kit_elements : Elements) (mapping : Mapping)
    (overflow_policy : pystr) (trash_notes : list Z) :
  NoDup trash_notes -> to_trash overflow_policy = true ->
  dict_wf kit_elements -> NoDup (reserved_notes mapping) ->
  let pool0 := trash_pool (initial_state mapping trash_notes) in
  (length (concat (map (trash_share mapping) kit_elements)) <= 8 * length pool0)%nat ->
  exists nts,
    assign_samples_to_notes kit_elements mapping overflow_policy trash_notes
      = Some (nts, [])
    /\ (forall category files,
          dict_get category kit_elements = Some files -> category <> lit "other" ->
          concat (map (samples_at nts) (category_notes mapping category))
          ++ trash_share mapping (category, files) = files)
    /\ concat (map (samples_at nts) pool0)
       = concat (map (trash_share mapping) kit_elements).
Proof.
  intros Hnd Ht Hwf Hres pool0 Hroom.
  destruct (assign_loop_whole kit_elements mapping overflow_policy trash_notes
              Hnd Ht Hwf Hres Hroom) as (st & Hl & Hw & Hcat & Hpool).
  unfold assign_samples_to_notes. rewrite Hl. cbn [mbind option_bind].
  exists (note_to_samples st). rewrite Hw. split; [reflexivity|]. split; assumption.
Qed.

(* ===================================================================== *)
(** * Names already safe, counts, and exported values *)
(* ===================================================================== *)

Lemma sub_runs_none (p : ascii -> bool) repl in_run s :
  Forall (fun c => p c = false) s -> sub_runs p repl in_run s = s.
Proof.
  intros Hs. revert in_run. induction Hs as [|c s Hc _ IH]; intros in_run; [reflexivity|].
  simpl. rewrite Hc, IH. reflexivity.
Qed.

Lemma spaced_of_lookup s :
  (forall i a b, s !! i = Some a -> s !! S i = Some b ->
     is_space a = true -> is_space b = false) ->
  spaced s.
Proof.
  induction s as [|a [|b r] IH]; intros Hl; try exact I.
  split.
  - exact (Hl 0%nat a b eq_refl eq_refl).
  - apply IH. intros i x y Hx Hy. exact (Hl (S i) x y Hx Hy).
Qed.

(** Single spaces stay as they are. *)
Lemma sub_runs_single_spaces s in_run :
  spaced s ->
  (forall c, c ∈ s -> is_space c = true -> c = " "%char) ->
  (in_run = true -> forall c, head s = Some c -> is_space c = false) ->
  sub_runs is_space (lit " ") in_run s = s.
Proof.
  change (lit " ") with [" "%char].
  revert in_run. induction s as [|a s IH]; intros in_run Hsp Hone Hrun; [reflexivity|].
  cbn [sub_runs].
  assert (Hs' : spaced s) by (destruct s; [exact I|exact (proj2 Hsp)]).
  assert (Hone' : forall c, c ∈ s -> is_space c = true -> c = " "%char).
  { intros c Hc. apply Hone, list_elem_of_further, Hc. }
  destruct (is_space a) eqn:Ha.
  - destruct in_run.
    { rewrite (Hrun eq_refl a eq_refl) in Ha. discriminate. }
    rewrite (Hone a (list_elem_of_here _ _) Ha). cbn [app]. f_equal.
    apply IH; [exact Hs'|exact Hone'|].
    intros _ c Hc. destruct s as [|b r]; [discriminate|]. injection Hc as <-.
    exact (proj1 Hsp Ha).
  - f_equal. apply IH; [exact Hs'|exact Hone'|discriminate].
Qed.

(** A name [sanitize_filename] has nothing to do on. *)
Definition safe_name (s : pystr) : Prop :=
  s <> [] /\ strip s = s
  /\ Forall (fun c => is_forbidden c = false) s
  /\ (forall c, c ∈ s -> is_space c = true -> c = " "%char)
  /\ spaced s.

Lemma sanitize_filename_safe s : safe_name s -> sanitize_filename s = s.
Proof.
  intros (Hne & Hs & Hf & Hone & Hsp). unfold sanitize_filename.
  rewrite Hs, (sub_runs_none is_forbidden _ false s Hf).
  rewrite (sub_runs_single_spaces s false Hsp Hone) by discriminate.
  rewrite Hs. destruct s; [contradiction|reflexivity].
Qed.

Lemma sanitize_filename_is_safe name : safe_name (sanitize_filename name).
Proof.
  rewrite sanitize_filename_body.
  destruct (sanitized_body name) as [|x body] eqn:Hbody.
  - split; [discriminate|]. split; [reflexivity|]. split; [repeat constructor|].
    split.
    + intros c Hc Hsp. vm_compute in Hc.
      repeat (apply elem_of_cons in Hc as [->|Hc]; [discriminate Hsp|]).
      apply elem_of_nil in Hc. destruct Hc.
    + repeat split; discriminate.
  - rewrite <- Hbody. split; [congruence|]. split; [apply strip_idemp|].
    split; [|split].
    + apply Forall_forall. intros c Hc. apply (sanitized_body_elem name c Hc).
    + intros c Hc. apply (sanitized_body_elem name c Hc).
    + apply spaced_of_lookup. intros i a b Ha Hb. unfold sanitized_body in Ha, Hb.
      destruct (strip_neighbours _ _ _ _ Ha Hb) as (j & Hja & Hjb).
      exact (spaced_lookup _ j a b (proj1 (sub_runs_spaced false _)) Hja Hjb).
Qed.

(** X24. [sanitize_filename] changes nothing in a name that is not
    empty, has no whitespace at its ends, none of the forbidden
    characters, and no whitespace but single spaces; its results are such
    names, so sanitising twice is sanitising once. *)
Theorem sanitize_filename_idempotent (name : pystr) :
  sanitize_filename (sanitize_filename name) = sanitize_filename name
  /\ (safe_name name -> sanitize_filename name = name).
Proof.
  split; [apply sanitize_filename_safe, sanitize_filename_is_safe|].
  apply sanitize_filename_safe.
Qed.

(** ** Counts *)

Lemma sum_list_lengths (ls : list (list pystr)) :
  sum_list (map len ls) = len (concat ls).
Proof.
  induction ls as [|l ls IH]; [reflexivity|].
  cbn [map concat]. unfold sum_list in *. cbn [fold_left].
  rewrite sum_list_from. unfold sum_list. rewrite IH.
  unfold len. rewrite length_app. lia.
Qed.

(** X25. The statistics of a kit: [total] is the number of its files;
    the kit is [only_other] exactly when [other] is its one category, and
    [mixed_other] exactly when it has [other] and at least one more
    category; so never both. *)
Theorem kit_stats_counts (elements : Elements) :
  total (kit_stats elements) = len (concat (dict_values elements))
  /\ (only_other (kit_stats elements) = true
      <-> exists files, elements = [(lit "other", files)])
  /\ (mixed_other (kit_stats elements) = true
      <-> is_Some (dict_get (lit "other") elements) /\ (2 <= length elements)%nat)
  /\ (only_other (kit_stats elements) = true ->
      mixed_other (kit_stats elements) = false).
Proof.
  unfold kit_stats. cbn [total only_other mixed_other]. unfold dict_mem.
  split; [apply sum_list_lengths|]. split; [|split].
  - rewrite andb_true_iff, bool_decide_eq_true, Z.eqb_eq. unfold len. split.
    + intros [[files Hg] Hl]. destruct elements as [|[k v] [|kv r]]; cbn in Hl; try lia.
      cbn [dict_get] in Hg. destruct (decide (k = lit "other")) as [->|]; [|discriminate].
      exists v. reflexivity.
    + intros [files ->]. split; [eexists; reflexivity|reflexivity].
  - rewrite andb_true_iff, bool_decide_eq_true. unfold len.
    rewrite Z.gtb_lt. split; intros [Hg Hl]; (split; [exact Hg|lia]).
  - rewrite !andb_true_iff. intros [_ Hl]. apply Z.eqb_eq in Hl.
    apply andb_false_iff. right. rewrite Z.gtb_ltb. apply Z.ltb_ge. lia.
Qed.

(** ** Exported values *)

(** A value whose dictionaries hold no key twice. *)
Fixpoint proper (v : PyVal) : Prop :=
  match v with
  | PDict d =>
      NoDup (map fst d)
      /\ (fix all (l : list (pystr * PyVal)) : Prop :=
            match l with
            | [] => True
            | (_, x) :: r => proper x /\ all r
            end) d
  | PList l =>
      (fix all (l : list PyVal) : Prop :=
         match l with
         | [] => True
         | x :: r => proper x /\ all r
         end) l
  | _ => True
  end.

Lemma rebuild_dict (d acc : list (pystr * PyVal)) :
  NoDup (map fst acc ++ map fst d) ->
  foldl (fun a kv => dict_set kv.1 kv.2 a) acc d = acc ++ d.
Proof.
  revert acc. induction d as [|[k v] d IH]; intros acc Hnd; cbn [foldl].
  - rewrite app_nil_r. reflexivity.
  - cbn [fst snd]. rewrite dict_set_fresh.
    + rewrite IH; [rewrite <- app_assoc; reflexivity|].
      rewrite map_app. cbn [map fst]. rewrite <- app_assoc. exact Hnd.
    + apply NoDup_app in Hnd as (_ & Hd & _). intros Hin.
      apply (Hd k Hin). apply list_elem_of_here.
Qed.

(** X26. [to_jsonable] returns a value equal to the one it is given,
    whenever no dictionary in it holds a key twice: what is exported is
    what the filter returned. *)
Theorem to_jsonable_same (obj : PyVal) : proper obj -> to_jsonable obj = obj.
Proof.
  revert obj. fix IH 1. intros [s|n|b| |l|d] Hp; try reflexivity.
  - cbn [to_jsonable]. f_equal. cbn [proper] in Hp.
    induction l as [|x r IHl]; [reflexivity|].
    destruct Hp as [Hx Hr]. cbn [map]. rewrite (IH x Hx), (IHl Hr). reflexivity.
  - cbn [to_jsonable]. f_equal. cbn [proper] in Hp. destruct Hp as [Hnd Hall].
    assert (Hmap : map (fun kv : pystr * PyVal => (kv.1, to_jsonable kv.2)) d = d).
    { clear Hnd. induction d as [|[k x] r IHd]; [reflexivity|].
      destruct Hall as [Hx Hr]. cbn [map fst snd].
      rewrite (IH x Hx), (IHd Hr). reflexivity. }
    rewrite Hmap. apply (rebuild_dict d []). exact Hnd.
Qed.

(* ===================================================================== *)
(** * The examples *)
(* ===================================================================== *)


Lemma build_base_pads_notes_witness :
  let out := build_base_pads (make_empty_taldrum_root (lit "/lib/out/Demo.taldrum")
                                                      (lit "Demo"))
                             DEFAULT_PAD_BASE_MIDI DEFAULT_PAD_COUNT in
  (exists i, dict_get 99 out.2 = Some i
             /\ root_pads out.1 !! i = Some (make_pad 63 99))
  /\ dict_get 100 out.2 = None.
Proof.
  intros out.
  destruct (build_base_pads_notes (make_empty_taldrum_root (lit "/lib/out/Demo.taldrum")
                                                           (lit "Demo"))
              DEFAULT_PAD_BASE_MIDI DEFAULT_PAD_COUNT) as (_ & _ & Hin & Hout).
  split.
  - apply (Hin 99). unfold DEFAULT_PAD_BASE_MIDI, DEFAULT_PAD_COUNT. lia.
  - apply (Hout 100). unfold DEFAULT_PAD_BASE_MIDI, DEFAULT_PAD_COUNT. lia.
Defined.

(** The file on note 100 leaves no trace in the preset. *)
Example drum_preset_drops :
  drum_preset drum_items = drum_preset [(36, kick_files 10)].
Proof. vm_compute. reflexivity. Qed.

Lemma drum_items_keys : NoDup (dict_keys drum_items).
Proof. apply (bool_decide_unpack _). vm_compute. reflexivity. Qed.

Lemma generate_kit_pads_witness :
  exists path root draws,
    drum_preset drum_items = Some (path, root, draws)
    /\ length (root_pads root) = 4%nat
    /\ root_pads root !! 1%nat = Some (make_pad 1 37).
Proof.
  destruct (drum_preset drum_items) as [[[path root] draws]|] eqn:Hg;
    [|vm_compute in Hg; discriminate].
  exists path, root, draws. split; [reflexivity|].
  destruct (generate_kit_pads (H := posix_paths) (H0 := posix_os) _ _ _ _ _ _ _ _ _ _
              drum_items_keys Hg) as [Hlen Hpads].
  split; [exact Hlen|]. exact (Hpads 1 ltac:(lia)).
Defined.

Lemma ten_kicks_keys : dict_wf ten_kicks.
Proof. apply NoDup_singleton. Qed.

Lemma assign_fills_category_notes_witness :
  exists nts warns,
    assign_samples_to_notes ten_kicks demo_mapping (lit "trash") [90] = Some (nts, warns)
    /\ samples_at nts 36 = take 8 (kick_files 10).
Proof.
  destruct (assign_samples_to_notes ten_kicks demo_mapping (lit "trash") [90])
    as [[nts warns]|] eqn:Ha; [|vm_compute in Ha; discriminate].
  exists nts, warns. split; [reflexivity|].
  exact (assign_fills_category_notes _ _ _ _ nts warns Ha ten_kicks_keys
           demo_mapping_reserved (lit "kick") (kick_files 10) 0%nat 36
           eq_refl ltac:(discriminate) eq_refl).
Defined.

Lemma assign_without_trash_witness :
  exists nts,
    assign_samples_to_notes ten_kicks demo_mapping (lit "reject") [90] = Some (nts, []).
Proof.
  destruct (assign_without_trash ten_kicks demo_mapping (lit "reject") [90] eq_refl)
    as (nts & Ha & _).
  exists nts. exact Ha.
Defined.

Lemma trash_90_91 : NoDup [90; 91].
Proof. apply (bool_decide_unpack _). vm_compute. reflexivity. Qed.

Lemma assign_trash_in_order_witness :
  exists nts warns,
    assign_samples_to_notes ten_kicks demo_mapping (lit "trash") [90; 91]
      = Some (nts, warns)
    /\ concat (map (samples_at nts) [90; 91]) = drop 8 (kick_files 10)
    /\ warns = [].
Proof.
  destruct (assign_trash_in_order ten_kicks demo_mapping (lit "trash") [90; 91]
              trash_90_91 eq_refl) as (nts & warns & Ha & Hc & Hw).
  exists nts, warns. split; [exact Ha|]. split; [exact Hc|exact Hw].
Defined.

Lemma assign_keeps_files_witness :
  exists nts,
    assign_samples_to_notes ten_kicks demo_mapping (lit "ignore") [90; 91]
      = Some (nts, [])
    /\ concat (map (samples_at nts) [36]) ++ drop 8 (kick_files 10) = kick_files 10.
Proof.
  destruct (assign_keeps_files ten_kicks demo_mapping (lit "ignore") [90; 91]
              trash_90_91 eq_refl ten_kicks_keys demo_mapping_reserved)
    as (nts & Ha & Hcat & _).
  { vm_compute. lia. }
  exists nts. split; [exact Ha|].
  exact (Hcat (lit "kick") (kick_files 10) eq_refl ltac:(discriminate)).
Defined.

Lemma to_jsonable_same_witness : to_jsonable exported = exported.
Proof.
  apply to_jsonable_same. cbn [exported proper map fst].
  repeat split; apply (bool_decide_unpack _); vm_compute; reflexivity.
Defined.

(* ===================================================================== *)
(** * From the listing to the generator *)
(* ===================================================================== *)

(** The number of files a category sends to the trash pool. *)
Definition share_count (mapping : Mapping) (item : pystr * list pystr) : Z :=
  len (trash_share mapping item).

Lemma fold_excess_from (l : list OverflowInfo) (acc : Z) :
  fold_left (fun a info => a + (ov_count info - ov_capacity info)) l acc
  = acc + fold_left (fun a info => a + (ov_count info - ov_capacity info)) l 0.
Proof.
  revert acc. induction l as [|x l IH]; intros acc; simpl; [lia|].
  rewrite (IH (acc + _)), (IH (0 + _)). lia.
Qed.

Lemma overflow_entries_cons cfg m0 m c files (elems : Elements) :
  mapping cfg = Some (m0 :: m) ->
  overflow_entries cfg ((c, files) :: elems)
  = (if bool_decide (c = lit "other") then []
     else match category_capacity (m0 :: m) c with
          | Some cap =>
              if len files >? cap
              then [{| ov_category := c; ov_count := len files; ov_capacity := cap |}]
              else []
          | None => []
          end) ++ overflow_entries cfg elems.
Proof. unfold overflow_entries. intros ->. reflexivity. Qed.

Lemma count_other_cons c files (elems : Elements) :
  count_other ((c, files) :: elems)
  = if decide (c = lit "other") then len files else count_other elems.
Proof. unfold count_other. cbn [dict_get]. destruct (decide _); reflexivity. Qed.

Lemma count_other_absent (elems : Elements) :
  lit "other" ∉ dict_keys elems -> count_other elems = 0.
Proof.
  intros Hn. apply dict_get_None in Hn. unfold count_other. rewrite Hn. reflexivity.
Qed.

Lemma share_count_category (m : Mapping) c files e notes :
  c <> lit "other" -> dict_get c m = Some e -> midi_notes e = Some notes ->
  share_count m (c, files) = Z.max 0 (len files - len notes * LAYER_LIMIT_PER_PAD)
  /\ category_capacity m c = Some (len notes * LAYER_LIMIT_PER_PAD).
Proof.
  intros Hc Hg Hn. unfold share_count, trash_share, category_capacity, category_notes.
  cbn [fst snd]. rewrite bool_decide_eq_false_2 by exact Hc. rewrite Hg, Hn.
  cbn [default from_option id]. split; [|reflexivity].
  unfold len, LAYER_LIMIT_PER_PAD. rewrite length_drop. lia.
Qed.

(** What the filter counts is what the assignment sends to the trash. *)
Lemma excess_count_shares cfg (m : Mapping) (elems : Elements) :
  mapping cfg = Some m -> dict_wf elems ->
  (forall c, c ∈ dict_keys elems -> c <> lit "other" ->
     exists e notes, dict_get c m = Some e /\ midi_notes e = Some notes) ->
  excess_count cfg elems = sum_list (map (share_count m) elems).
Proof.
  intros Hm. unfold excess_count, total_trash_needed.
  induction elems as [|[c files] elems IH]; intros Hwf Hcat.
  - unfold overflow_entries. destruct (mapping cfg) as [[|? ?]|]; reflexivity.
  - unfold dict_wf, dict_keys in Hwf. cbn [map fst] in Hwf.
    apply NoDup_cons in Hwf as [Hc Hwf].
    specialize (IH Hwf (fun c' Hc' => Hcat c' (list_elem_of_further _ _ _ Hc'))).
    cbn [map]. unfold sum_list in *. cbn [fold_left]. rewrite sum_list_from.
    unfold sum_list. rewrite <- IH. rewrite count_other_cons.
    destruct (decide (c = lit "other")) as [->|Hne].
    + rewrite (count_other_absent elems Hc).
      assert (Hov : overflow_entries cfg ((lit "other", files) :: elems)
                    = overflow_entries cfg elems).
      { unfold overflow_entries. destruct (mapping cfg) as [[|? ?]|]; reflexivity. }
      rewrite Hov. unfold share_count, trash_share. cbn [fst snd].
      rewrite bool_decide_eq_true_2 by reflexivity. lia.
    + destruct (Hcat c (list_elem_of_here _ _) Hne) as (e & notes & Hg & Hn).
      destruct (share_count_category m c files e notes Hne Hg Hn) as [Hs Hcap].
      destruct m as [|m0 m']; [discriminate|].
      rewrite (overflow_entries_cons cfg m0 m' c files elems Hm).
      rewrite bool_decide_eq_false_2 by exact Hne. rewrite Hcap, Hs.
      destruct (Z.gtb_spec (len files) (len notes * LAYER_LIMIT_PER_PAD)) as [Hgt|Hle].
      * cbn [app fold_left ov_count ov_capacity]. rewrite fold_excess_from. lia.
      * cbn [app]. lia.
Qed.

Lemma sum_share_counts (m : Mapping) (elems : Elements) :
  sum_list (map (share_count m) elems)
  = Z.of_nat (length (concat (map (trash_share m) elems))).
Proof.
  induction elems as [|item elems IH]; [reflexivity|].
  cbn [map concat]. unfold sum_list in *. cbn [fold_left]. rewrite sum_list_from.
  unfold sum_list. rewrite IH, length_app. unfold share_count, len. lia.
Qed.

Lemma pool_of_free_notes (m : Mapping) (trash : list Z) :
  (forall n, n ∈ trash -> n ∉ reserved_notes m) ->
  trash_pool (initial_state m trash) = trash.
Proof.
  intros Hfree. unfold initial_state. cbn [trash_pool].
  induction trash as [|n trash IH]; [reflexivity|].
  rewrite filter_cons, decide_True.
  - rewrite IH; [reflexivity|]. intros k Hk. apply Hfree, list_elem_of_further, Hk.
  - rewrite mapped_notes_reserved. apply Hfree, list_elem_of_here.
Qed.

Section Accepted.
Context `{PathLib}.

Lemma share_length_sorted (m : Mapping) (elems : Elements) :
  dict_wf elems ->
  length (concat (map (trash_share m) (sorted_elements elems)))
  = length (concat (map (trash_share m) elems)).
Proof.
  intros Hwf. rewrite (sorted_elements_map elems Hwf). clear Hwf.
  induction elems as [|[c fs] elems IH]; [reflexivity|].
  cbn [map concat fst snd]. rewrite !length_app, IH. f_equal.
  unfold trash_share. cbn [fst snd].
  destruct (bool_decide (c = lit "other")).
  - apply sort_samples_length.
  - rewrite !length_drop, sort_samples_length. reflexivity.
Qed.

(** X27. A kit the listing accepts under the policy [trash] is assigned
    by the generator, with the same mapping and trash notes, without a
    warning and without losing a file, provided that every category of the
    kit but [other] has a note list in the mapping, that no note is
    reserved twice, and that the trash notes are named once each and are
    not reserved: the overflow the filter counts is what the assignment
    sends to the trash pool. *)
Theorem accepted_kit_assigned_whole (cfg : FilterConfig) (m : Mapping)
    (trash : list Z) (elems : Elements) :
  mapping cfg = Some m -> overflow_policy cfg = lit "trash" ->
  trash_notes cfg = Some trash ->
  NoDup trash -> NoDup (reserved_notes m) ->
  (forall n, n ∈ trash -> n ∉ reserved_notes m) ->
  dict_wf elems ->
  (forall c, c ∈ dict_keys elems -> c <> lit "other" ->
     exists e notes, dict_get c m = Some e /\ midi_notes e = Some notes) ->
  truthy (kit_verdict cfg elems).1 = false ->
  exists nts,
    assign_samples_to_notes (sorted_elements elems) m (lit "trash") trash
      = Some (nts, [])
    /\ (forall category files,
          dict_get category (sorted_elements elems) = Some files ->
          category <> lit "other" ->
          concat (map (samples_at nts) (category_notes m category))
          ++ trash_share m (category, files) = files)
    /\ concat (map (samples_at nts) trash)
       = concat (map (trash_share m) (sorted_elements elems)).
Proof.
  intros Hm Hp Htr Hnd Hres Hfree Hwf Hcat Hacc.
  assert (Hfits : excess_count cfg elems <= trash_zone_capacity cfg).
  { destruct (Z_le_gt_dec (excess_count cfg elems) (trash_zone_capacity cfg)) as [Hle|Hgt];
      [exact Hle|].
    rewrite (kit_verdict_trash_insufficient cfg elems Hp ltac:(lia)) in Hacc.
    discriminate Hacc. }
  rewrite (excess_count_shares cfg m elems Hm Hwf Hcat), sum_share_counts in Hfits.
  rewrite trash_zone_capacity_eq, Htr in Hfits. cbn [default from_option id] in Hfits.
  assert (Hwf' : dict_wf (sorted_elements elems)).
  { unfold dict_wf. rewrite (sorted_elements_keys elems Hwf). exact Hwf. }
  destruct (assign_loop_whole (sorted_elements elems) m (lit "trash") trash
              Hnd eq_refl Hwf' Hres) as (st & Hl & Hw & Hown & Hpool).
  { rewrite (pool_of_free_notes m trash Hfree), (share_length_sorted m elems Hwf).
    unfold len, LAYER_LIMIT_PER_PAD in Hfits. lia. }
  rewrite (pool_of_free_notes m trash Hfree) in Hpool.
  unfold assign_samples_to_notes. rewrite Hl. cbn [mbind option_bind].
  exists (note_to_samples st). rewrite Hw. split; [reflexivity|]. split; assumption.
Qed.

End Accepted.

Lemma accepted_kit_assigned_whole_witness :
  exists nts,
    assign_samples_to_notes (sorted_elements ten_kicks) demo_mapping (lit "trash") [90]
      = Some (nts, [])
    /\ concat (map (samples_at nts) [90]) = drop 8 (kick_files 10).
Proof.
  destruct (accepted_kit_assigned_whole (H := posix_paths)
              (config (lit "trash") 0 [90]) demo_mapping [90] ten_kicks
              eq_refl eq_refl eq_refl) as (nts & Ha & _ & Hpool).
  - apply NoDup_singleton.
  - exact demo_mapping_reserved.
  - intros n Hn Hr. apply list_elem_of_singleton in Hn. subst n.
    vm_compute in Hr. apply list_elem_of_singleton in Hr. discriminate Hr.
  - exact ten_kicks_keys.
  - intros c Hc _. apply list_elem_of_singleton in Hc. subst c.
    eexists _, _. split; reflexivity.
  - vm_compute. reflexivity.
  - exists nts. split; [exact Ha|exact Hpool].
Defined.

(** A category without a note list escapes the count of the filter: with
    the mapping line [kick] the ten kicks are accepted under [trash] with
    no trash note at all, and the generator then drops all ten. *)
Example accepted_kit_dropped :
  exists m,
    parse_mapping_file [lit "kick"] = Some m
    /\ truthy (kit_verdict {| min_total_samples := 0; exclude_only_other := false;
                              exclude_mixed_other := false; mapping := Some m;
                              overflow_policy := lit "trash";
                              trash_notes := Some [] |} ten_kicks).1 = false
    /\ snd <$> assign_samples_to_notes (sorted_elements ten_kicks) m (lit "trash") []
       = Some [lit "Dropped 10 samples (trash full)"].
Proof. eexists. split; [reflexivity|]. split; vm_compute; reflexivity. Qed.
